(** * Salesforce updater: batch processor, CSV exporter, JWT assertion

    A shallow embedding of the JavaScript sources

      - cloud/csv-exporter.js            (CSVExporter.arrayToCSV,
                                          escapeCSVValue)
      - extract-sassie-ids.js            (parseCSVLine; the third file of
                                          src/unnamed/part_005, whose line
                                          numbers are cited)
      - salesforce-auth-jwt.js           (SalesforceAuthJWT.createJWT)
      - salesforce-updater.js            (SalesforceUpdater with direct
                                          updates; src/unnamed/part_003)
      - salesforce-updater-enhanced.js   (SalesforceUpdater with Work Order
                                          lookups; src/unnamed/part_000)

    and the properties of them that the specification states.

    Conventions.  A JavaScript string is a [string], one [ascii] per UTF-16
    code unit (so the strings covered are those whose code units are below
    256).  A JavaScript number that the code uses as an index, a size or a
    delay is a [Z] (whole numbers only); the success rate, which the code
    computes with a floating-point division, is a binary64 [float].
    The body of an asynchronous method is a coroutine over the updater
    instance and the outside world: it runs until it returns, throws or
    reaches an [await], where it waits for the event loop to resume it.
    A call awaited with nothing else to run is a function in a
    state-and-exception monad; a rejected promise is a thrown value, and
    a thrown value is an [Error] object. *)

From Stdlib Require Import String Ascii List ZArith Lia Bool Permutation.
From Stdlib Require Import Floats DecimalString.
Import ListNotations.
Local Open Scope list_scope.
Local Open Scope string_scope.
Set Warnings "-register-all".

(* ===================================================================== *)
(** * JavaScript strings *)
(* ===================================================================== *)

Module JsString.

Definition comma  : ascii := ","%char.
Definition dquote : ascii := ascii_of_nat 34.
Definition lf     : ascii := ascii_of_nat 10.
Definition cr     : ascii := ascii_of_nat 13.

(** [value.includes(c)] for a one-character needle. *)
Fixpoint includes (c : ascii) (s : string) : bool :=
  match s with
  | EmptyString => false
  | String d r => Ascii.eqb d c || includes c r
  end.

(** The global replacement of [escapeCSVValue]: every quote character
    of [value] becomes two quote characters. *)
Fixpoint doubleQuotes (s : string) : string :=
  match s with
  | EmptyString => EmptyString
  | String c r =>
      if Ascii.eqb c dquote
      then String dquote (String dquote (doubleQuotes r))
      else String c (doubleQuotes r)
  end.

(** White space and line terminators of ECMAScript among the code units
    below 256: TAB, LF, VT, FF, CR, SPACE and NO-BREAK SPACE. *)
Definition isWhiteSpace (c : ascii) : bool :=
  existsb (Nat.eqb (nat_of_ascii c)) [9; 10; 11; 12; 13; 32; 160]%nat.

Fixpoint trimStart (s : string) : string :=
  match s with
  | EmptyString => EmptyString
  | String c r => if isWhiteSpace c then trimStart r else s
  end.

Fixpoint trimEnd (s : string) : string :=
  match s with
  | EmptyString => EmptyString
  | String c r =>
      match trimEnd r with
      | EmptyString => if isWhiteSpace c then EmptyString else String c EmptyString
      | r' => String c r'
      end
  end.

(** [String.prototype.trim]. *)
Definition trim (s : string) : string := trimEnd (trimStart s).

(** The first, and the last, code unit is white space. *)
Definition startsWithWhiteSpace (s : string) : bool :=
  match s with
  | EmptyString => false
  | String c _ => isWhiteSpace c
  end.

Fixpoint endsWithWhiteSpace (s : string) : bool :=
  match s with
  | EmptyString => false
  | String c EmptyString => isWhiteSpace c
  | String _ r => endsWithWhiteSpace r
  end.

(** [array.join(sep)]. *)
Fixpoint join (sep : string) (l : list string) : string :=
  match l with
  | [] => EmptyString
  | [x] => x
  | x :: r => x ++ sep ++ join sep r
  end.

(** [current += char]. *)
Definition push_char (s : string) (c : ascii) : string :=
  s ++ String c EmptyString.

End JsString.

(* ===================================================================== *)
(** * JavaScript values *)
(* ===================================================================== *)

Module Js.

(** The values that travel through the updater and the exporter:
    primitives, plain objects (their own enumerable properties, in
    [Object.keys] order; their prototype is [Object.prototype]), and what
    a plain object inherits: a built-in function, by its name, and
    [Object.prototype] itself. *)
Inductive JsValue : Type :=
| VUndefined
| VNull
| VBool (b : bool)
| VNumber (x : float)
| VString (s : string)
| VObject (fields : list (string * JsValue))
| VFunction (name : string)
| VObjectPrototype.

Definition JsObject : Type := list (string * JsValue).

(** The methods of [Object.prototype] (ECMAScript, 20.1.3 and B.2.2.2
    to B.2.2.5); [constructor] and [__proto__] are its two other
    properties. *)
Definition prototypeMethods : list string :=
  [ "hasOwnProperty"; "isPrototypeOf"; "propertyIsEnumerable";
    "toLocaleString"; "toString"; "valueOf";
    "__defineGetter__"; "__defineSetter__";
    "__lookupGetter__"; "__lookupSetter__" ].

(** [obj[key]] for a plain object without an own property [key]: the
    property of [Object.prototype] of that name, else [undefined].
    [constructor] is the function [Object], and the getter of
    [__proto__] returns the prototype. *)
Definition inherited (key : string) : JsValue :=
  if String.eqb key "constructor" then VFunction "Object"
  else if String.eqb key "__proto__" then VObjectPrototype
  else if existsb (String.eqb key) prototypeMethods then VFunction key
  else VUndefined.

(** [obj[key]]: the own property of that name, else the inherited
    one. *)
Fixpoint get (obj : JsObject) (key : string) : JsValue :=
  match obj with
  | [] => inherited key
  | (k, v) :: rest => if String.eqb k key then v else get rest key
  end.

(** [Object.keys(obj)]. *)
Definition keys (obj : JsObject) : list string := map fst obj.

(** [typeof value === 'object' && value !== null]; the type of a
    function is ['function']. *)
Definition isNonNullObject (v : JsValue) : bool :=
  match v with VObject _ | VObjectPrototype => true | _ => false end.

(** [value === null || value === undefined]. *)
Definition isNullish (v : JsValue) : bool :=
  match v with VNull | VUndefined => true | _ => false end.

(** Truthiness, as [||], [!] and [if] test it. *)
Definition truthy (v : JsValue) : bool :=
  match v with
  | VUndefined | VNull => false
  | VBool b => b
  | VNumber x => negb (PrimFloat.is_zero x || PrimFloat.is_nan x)
  | VString s => negb (String.eqb s EmptyString)
  | VObject _ | VFunction _ | VObjectPrototype => true
  end.

End Js.

(* ===================================================================== *)
(** * CSV: [CSVExporter] and [parseCSVLine] *)
(* ===================================================================== *)

Module CSV.
Import JsString.

(** [CSVExporter.escapeCSVValue(value)] (csv-exporter.js, l.50). *)
Definition escapeCSVValue (value : string) : string :=
  if includes comma value || includes dquote value
     || includes lf value || includes cr value
  then String dquote (doubleQuotes value ++ String dquote EmptyString)
  else value.

(** The loop of [parseCSVLine(line)] (extract-sassie-ids.js, l.303; the
    method of the same name in vimeo-to-salesforce.js has the same body), from
    position [i] on: [line] is the part of the line not yet read, and
    [values], [current], [inQuotes] are the loop's variables.  The
    look-ahead [line[i + 1]] is the head of the rest; [i++] skips it. *)
Fixpoint parseCSVLine_from (line : string) (values : list string)
         (current : string) (inQuotes : bool) : list string :=
  match line with
  | EmptyString => values ++ [trim current]
  | String char rest =>
      if Ascii.eqb char dquote then
        match rest with
        | String next rest' =>
            if inQuotes && Ascii.eqb next dquote
            then parseCSVLine_from rest' values (push_char current dquote) inQuotes
            else parseCSVLine_from rest values current (negb inQuotes)
        | EmptyString => parseCSVLine_from rest values current (negb inQuotes)
        end
      else if Ascii.eqb char comma && negb inQuotes then
        parseCSVLine_from rest (values ++ [trim current]) EmptyString inQuotes
      else
        parseCSVLine_from rest values (push_char current char) inQuotes
  end.

Definition parseCSVLine (line : string) : list string :=
  parseCSVLine_from line [] EmptyString false.

(** The text of a built-in function, as Node prints it. *)
Definition functionText (name : string) : string :=
  "function " ++ name ++ "() { [native code] }".

Section ArrayToCSV.
Import Js.

(** The two library conversions that [arrayToCSV] calls:
    [JSON.stringify] on a non-null object, and the number-to-string
    conversion inside [String(value)]. *)
Variable JSON_stringify : JsValue -> string.
Variable Number_toString : float -> string.

(** [String(value)]. *)
Definition String_ (value : JsValue) : string :=
  match value with
  | VUndefined => "undefined"
  | VNull => "null"
  | VBool true => "true"
  | VBool false => "false"
  | VNumber x => Number_toString x
  | VString s => s
  | VObject _ | VObjectPrototype => "[object Object]"
  | VFunction name => functionText name
  end.

(** The body of the inner [headers.map] callback (l.25-39). *)
Definition csvCell (row : JsObject) (header : string) : string :=
  let value := get row header in
  let value := if isNonNullObject value
               then VString (JSON_stringify value) else value in
  let value := if isNullish value then VString EmptyString else value in
  escapeCSVValue (String_ value).

Definition csvRow (headers : list string) (row : JsObject) : string :=
  join "," (map (csvCell row) headers).

(** [CSVExporter.arrayToCSV(data, columns = null)] (l.12).  [None] for
    [data] is a null or undefined argument, [None] for [columns] is the
    default [null]. *)
Definition arrayToCSV (data : option (list JsObject))
           (columns : option (list string)) : string :=
  match data with
  | None | Some [] => EmptyString
  | Some ((first :: _) as data) =>
      let headers := match columns with
                     | Some columns => columns
                     | None => keys first
                     end in
      let csvHeader := join "," (map escapeCSVValue headers) in
      let csvRows := map (csvRow headers) data in
      join (String lf EmptyString) (csvHeader :: csvRows)
  end.

End ArrayToCSV.

End CSV.

(* ===================================================================== *)
(** * Numbers: the success rate *)
(* ===================================================================== *)

Module JsNumber.

(** The number value of an array length. *)
Definition ofLength (n : nat) : float :=
  PrimFloat.of_uint63 (Uint63.of_Z (Z.of_nat n)).

Definition digitChar (d : Z) : ascii := ascii_of_nat (48 + Z.to_nat d).

(** The decimal digits of a non-negative integer, most significant
    first; [fuel] bounds the number of digits. *)
Fixpoint digitsOf (fuel : nat) (n : Z) (acc : string) : string :=
  match fuel with
  | O => acc
  | S fuel' =>
      let acc' := String (digitChar (n mod 10)) acc in
      if n <? 10 then acc' else digitsOf fuel' (n / 10) acc'
  end%Z.

Definition decimal (n : Z) : string :=
  digitsOf (S (Z.to_nat (Z.log2 n))) n EmptyString.

(** Step 9 of [Number.prototype.toFixed] for two fraction digits: the
    integer [n] for which [n / 100 - m * 2^e] is closest to zero, the
    larger one on a tie. *)
Definition nearestHundredths (m : positive) (e : Z) : Z :=
  if (0 <=? e)%Z then (Z.pos m * 2 ^ e * 100)%Z
  else
    let den := (2 ^ (- e))%Z in
    ((2 * (Z.pos m * 100) + den) / (2 * den))%Z.

(** [m] with a decimal point before its last two digits, padded with
    zeros on the left up to three digits. *)
Definition pointBeforeLastTwo (n : Z) : string :=
  (decimal (n / 100) ++ "."
     ++ String (digitChar ((n / 10) mod 10))
          (String (digitChar (n mod 10)) EmptyString))%Z.

(** [x.toFixed(2)].  Not-a-number and the infinities print by name;
    a finite [x] prints in fixed notation.  (From 10^21 on JavaScript
    switches to exponent notation; a ratio of two array lengths times
    100 stays below that, and the switch is not modelled.) *)
Definition toFixed2 (x : float) : string :=
  match Prim2SF x with
  | S754_nan => "NaN"
  | S754_infinity false => "Infinity"
  | S754_infinity true => "-Infinity"
  | S754_zero _ => "0.00"
  | S754_finite sign m e =>
      let body := pointBeforeLastTwo (nearestHundredths m e) in
      if sign then "-" ++ body else body
  end.

End JsNumber.

(* ===================================================================== *)
(** * The updater: data *)
(* ===================================================================== *)

Module Update.
Import Js.
(** An element of the [updateList] of [processUpdates]:
    [{ objectType, recordId, updateData, metadata? }]. *)
Record t : Type := make {
  objectType : string;
  recordId : JsValue;
  updateData : JsValue;
  metadata : option JsObject;
}.
End Update.

Module WorkOrderUpdate.
Import Js.
(** An element of the [updateList] of [processWorkOrderUpdates]:
    [{ workOrderNumber, updateData, metadata? }]. *)
Record t : Type := make {
  workOrderNumber : string;
  updateData : JsValue;
  metadata : option JsObject;
}.
End WorkOrderUpdate.

Module Outcome.
Import Js.
(** The object that an update call returns and pushes on one of the two
    tracking arrays.  [workOrderNumber] and [error] are [None] where the
    object literal has no such property. *)
Record t : Type := make {
  success : bool;
  workOrderNumber : option string;
  recordId : JsValue;
  objectType : string;
  updateData : JsValue;
  metadata : JsObject;
  timestamp : string;
  error : option JsValue;
  status : JsValue;
}.
End Outcome.

Module Results.
(** The object that [processUpdates] and [processWorkOrderUpdates]
    return. *)
Record t : Type := make {
  totalProcessed : nat;
  successful : nat;
  failed : nat;
  successfulUpdates : list Outcome.t;
  failedUpdates : list Outcome.t;
  successRate : string;
}.
End Results.

Module Stats.
(** The object that [getStats] returns, without [lastProcessed]. *)
Record t : Type := make {
  totalProcessed : nat;
  successful : nat;
  failed : nat;
  successRate : string;
}.
End Stats.

Module Options.
(** The [options] argument; [None] is a property left [undefined], and a
    number is a whole number. *)
Record t : Type := make {
  batchSize : option Z;
  delayMs : option Z;
}.
Definition empty : t := make None None.
End Options.

(* ===================================================================== *)
(** * The updater: the outside world and the monad of its methods *)
(* ===================================================================== *)

Module Runtime.
Import Js.

(** What a [catch] clause reads of a thrown value: [error.message] and
    [error.response] (present on an HTTP error of axios). *)
Record HttpResponse : Type := { data : JsValue; status : JsValue }.
Record JsError : Type := { message : string; response : option HttpResponse }.

(** [ReferenceError: x is not defined]. *)
Definition ReferenceError (x : string) : JsError :=
  {| message := x ++ " is not defined"; response := None |}.

(** [TypeError], raised on a property read of [undefined] or [null]. *)
Definition TypeError (what : string) : JsError :=
  {| message := "Cannot read properties of " ++ what; response := None |}.

(** The URL
    [${instanceUrl}/services/data/${apiVersion}/sobjects/${objectType}/${recordId}],
    kept as the values interpolated into the template. *)
Record SObjectUrl : Type := {
  url_instance : JsValue;
  url_apiVersion : string;
  url_objectType : string;
  url_recordId : JsValue;
}.

(** The update calls that a batch starts. *)
Inductive Call : Type :=
| CallUpdateRecord (update : Update.t)
| CallUpdateWorkOrderByNumber (update : WorkOrderUpdate.t).

(** What happens, in order of time.  [EvIssued] and [EvSettled] mark the
    call of an update method by the batch loop and the settlement of the
    promise that it returned; the others are calls out of the updater. *)
Inductive Event : Type :=
| EvIssued (c : Call)
| EvSettled (c : Call)
| EvEnsureAuthenticated
| EvPatch (url : SObjectUrl) (body : JsValue)
| EvQuery (instance : JsValue) (apiVersion : string) (soql : string)
| EvDelay (ms : Z).

Definition World : Type := list Event.

(** The outside world: the authentication object, axios, the clock and
    the event loop.  Each answer may depend on everything that happened
    before.  [scheduler] picks, among the calls of a batch that wait, the
    one that the event loop resumes next, from the history and the
    number of turns that the event loop has taken for the batch. *)
Record Env : Type := {
  auth_ensureAuthenticated : World -> option JsError;
  auth_instanceUrl : World -> JsValue;
  auth_getAuthHeaders : World -> JsError + JsValue;
  axios_patch : World -> SObjectUrl -> JsValue -> JsValue -> JsError + HttpResponse;
  axios_get : World -> JsValue -> string -> JsValue -> string -> JsError + list JsObject;
  Date_toISOString : World -> string;
  scheduler : World -> nat -> nat;
}.

(** The instance fields that the methods assign. *)
Record Updater : Type := {
  successfulUpdates : list Outcome.t;
  failedUpdates : list Outcome.t;
}.

Definition apiVersion : string := "v58.0".

(** How a call ends: with a value, with a thrown value (a rejected
    promise), or not within the steps allowed. *)
Inductive Completion (A : Type) : Type :=
| Normal (a : A)
| Throw (e : JsError)
| OutOfFuel.
Arguments Normal {A} a.
Arguments Throw {A} e.
Arguments OutOfFuel {A}.

Definition M (A : Type) : Type :=
  Updater -> World -> Completion A * Updater * World.

Definition ret {A} (a : A) : M A := fun u w => (Normal a, u, w).

Definition bind {A B} (m : M A) (k : A -> M B) : M B :=
  fun u w =>
    match m u w with
    | (Normal a, u', w') => k a u' w'
    | (Throw e, u', w') => (Throw e, u', w')
    | (OutOfFuel, u', w') => (OutOfFuel, u', w')
    end.

Definition throw {A} (e : JsError) : M A := fun u w => (Throw e, u, w).

(** [try { body } catch (error) { handler }]. *)
Definition try_catch {A} (body : M A) (handler : JsError -> M A) : M A :=
  fun u w =>
    match body u w with
    | (Throw e, u', w') => handler e u' w'
    | r => r
    end.

Definition this : M Updater := fun u w => (Normal u, u, w).
Definition assign (u' : Updater) : M unit := fun _ w => (Normal tt, u', w).
Definition world : M World := fun u w => (Normal w, u, w).
Definition emit (e : Event) : M unit := fun u w => (Normal tt, u, (w ++ [e])%list).
Definition lift {A} (r : JsError + A) : M A :=
  match r with inl e => throw e | inr a => ret a end.

(** ** Calls that wait

    A call of an async method runs until it returns, throws or reaches
    an [await]; there it waits until the event loop resumes it, and
    other calls may run in between. *)

(** The promise that a call has returned, as far as the call has run:
    fulfilled, rejected, or pending with the rest of the call, which
    runs from the state in which the instance and the world are when
    the event loop resumes it. *)
Inductive Promise (A : Type) : Type :=
| Fulfilled (a : A)
| Rejected (e : JsError)
| Pending (resume : Updater -> World -> Promise A * Updater * World).
Arguments Fulfilled {A} a.
Arguments Rejected {A} e.
Arguments Pending {A} resume.

(** The body of an async method. *)
Definition Async (A : Type) : Type :=
  Updater -> World -> Promise A * Updater * World.

Module Coroutine.

Definition ret {A} (a : A) : Async A := fun u w => (Fulfilled a, u, w).

Definition throw {A} (e : JsError) : Async A := fun u w => (Rejected e, u, w).

(** The statements after a call, which run when the call has returned:
    at once, or when the event loop has resumed it often enough. *)
Fixpoint andThen {A B} (p : Promise A) (k : A -> Async B) : Async B :=
  fun u w =>
    match p with
    | Fulfilled a => k a u w
    | Rejected e => (Rejected e, u, w)
    | Pending resume =>
        (Pending (fun u' w' =>
                    match resume u' w' with
                    | (p', u'', w'') => andThen p' k u'' w''
                    end), u, w)
    end.

Definition bind {A B} (m : Async A) (k : A -> Async B) : Async B :=
  fun u w => match m u w with (p, u', w') => andThen p k u' w' end.

Fixpoint orElse {A} (p : Promise A) (handler : JsError -> Async A) : Async A :=
  fun u w =>
    match p with
    | Fulfilled a => (Fulfilled a, u, w)
    | Rejected e => handler e u w
    | Pending resume =>
        (Pending (fun u' w' =>
                    match resume u' w' with
                    | (p', u'', w'') => orElse p' handler u'' w''
                    end), u, w)
    end.

(** [try { body } catch (error) { handler }]. *)
Definition try_catch {A} (body : Async A) (handler : JsError -> Async A)
  : Async A :=
  fun u w => match body u w with (p, u', w') => orElse p handler u' w' end.

Definition this : Async Updater := fun u w => (Fulfilled u, u, w).
Definition assign (u' : Updater) : Async unit := fun _ w => (Fulfilled tt, u', w).
Definition world : Async World := fun u w => (Fulfilled w, u, w).
Definition emit (e : Event) : Async unit :=
  fun u w => (Fulfilled tt, u, (w ++ [e])%list).
Definition lift {A} (r : JsError + A) : Async A :=
  match r with inl e => throw e | inr a => ret a end.

(** The call waits for the event loop. *)
Definition suspend : Async unit :=
  fun u w => (Pending (fun u' w' => (Fulfilled tt, u', w')), u, w).

(** [await promise] for the promise of a call of an async method of the
    updater: the awaiting call goes on one turn of the event loop after
    the promise has settled, with its value or with what it threw. *)
Fixpoint later {A} (p : Promise A) : Async A :=
  fun u w =>
    match p with
    | Fulfilled a => (Pending (fun u' w' => (Fulfilled a, u', w')), u, w)
    | Rejected e => (Pending (fun u' w' => (Rejected e, u', w')), u, w)
    | Pending resume =>
        (Pending (fun u' w' =>
                    match resume u' w' with
                    | (p', u'', w'') => later p' u'' w''
                    end), u, w)
    end.

(** [await this.method(...)]: the method runs at once up to its first
    [await]. *)
Definition await {A} (call : Async A) : Async A :=
  fun u w => match call u w with (p, u', w') => later p u' w' end.

End Coroutine.

(** The promise of a call that has just been made. *)
Definition start {A} (call : Async A) : M (Promise A) :=
  fun u w => match call u w with (p, u', w') => (Normal p, u', w') end.

(** A promise awaited while nothing else runs: the event loop resumes
    the call whenever it waits. *)
Fixpoint settle {A} (p : Promise A) : M A :=
  fun u w =>
    match p with
    | Fulfilled a => (Normal a, u, w)
    | Rejected e => (Throw e, u, w)
    | Pending resume =>
        match resume u w with (p', u', w') => settle p' u' w' end
    end.

(** [await this.method(...)] by a caller that does nothing else until
    the call has settled. *)
Definition awaited {A} (call : Async A) : M A :=
  fun u w => match call u w with (p, u', w') => settle p u' w' end.

End Runtime.

Declare Scope js_scope.
Delimit Scope js_scope with js.
Notation "x <- m ;; k" := (Runtime.bind m (fun x => k))
  (at level 61, m at next level, right associativity) : js_scope.
Notation "m ;; k" := (Runtime.bind m (fun _ => k))
  (at level 61, right associativity) : js_scope.

Declare Scope async_scope.
Delimit Scope async_scope with async.
Notation "x <- m ;; k" := (Runtime.Coroutine.bind m (fun x => k))
  (at level 61, m at next level, right associativity) : async_scope.
Notation "m ;; k" := (Runtime.Coroutine.bind m (fun _ => k))
  (at level 61, right associativity) : async_scope.

(* ===================================================================== *)
(** * Expressions of the object literal in [updateWorkOrderByNumber] *)
(* ===================================================================== *)

Module JsExpr.
Import Js Runtime.

Inductive Expr : Type :=
| Ident (x : string)                  (* x     *)
| Member (e : Expr) (p : string)      (* e.p   *)
| OptMember (e : Expr) (p : string).  (* e?.p  *)

Inductive Property : Type :=
| Spread (e : Expr)                   (* ...e      *)
| Shorthand (x : string)              (* x         *)
| Prop_ (name : string) (e : Expr).   (* name: e   *)

(** The bindings visible where an expression stands, innermost first. *)
Definition Scope : Type := list (string * JsValue).

Fixpoint resolve (scope : Scope) (x : string) : option JsValue :=
  match scope with
  | [] => None
  | (y, v) :: rest => if String.eqb y x then Some v else resolve rest x
  end.

(** [v.p].  A property of a primitive or of a function is taken to be
    [undefined]; the prototype of [Object.prototype] is [null]. *)
Definition getMember (v : JsValue) (p : string) : JsError + JsValue :=
  match v with
  | VUndefined => inl (TypeError "undefined")
  | VNull => inl (TypeError "null")
  | VObject fields => inr (get fields p)
  | VObjectPrototype =>
      inr (if String.eqb p "__proto__" then VNull else inherited p)
  | _ => inr VUndefined
  end.

Fixpoint evalExpr (scope : Scope) (e : Expr) : JsError + JsValue :=
  match e with
  | Ident x =>
      match resolve scope x with
      | Some v => inr v
      | None => inl (ReferenceError x)
      end
  | Member e p =>
      match evalExpr scope e with
      | inl err => inl err
      | inr v => getMember v p
      end
  | OptMember e p =>
      match evalExpr scope e with
      | inl err => inl err
      | inr v => if isNullish v then inr VUndefined else getMember v p
      end
  end.

(** [obj[key] = v] on an object under construction: an existing
    property keeps its place. *)
Fixpoint set (obj : JsObject) (key : string) (v : JsValue) : JsObject :=
  match obj with
  | [] => [(key, v)]
  | (k, old) :: rest =>
      if String.eqb k key then (k, v) :: rest else (k, old) :: set rest key v
  end.

(** The own properties that [...v] copies (none for a primitive). *)
Definition spreadable (v : JsValue) : JsObject :=
  match v with VObject fields => fields | _ => [] end.

(** The properties of an object literal, evaluated left to right into
    [acc]. *)
Fixpoint evalProperties (scope : Scope) (props : list Property)
         (acc : JsObject) : JsError + JsObject :=
  match props with
  | [] => inr acc
  | Spread e :: rest =>
      match evalExpr scope e with
      | inl err => inl err
      | inr v =>
          evalProperties scope rest
            (fold_left (fun o kv => set o (fst kv) (snd kv)) (spreadable v) acc)
      end
  | Shorthand x :: rest =>
      match evalExpr scope (Ident x) with
      | inl err => inl err
      | inr v => evalProperties scope rest (set acc x v)
      end
  | Prop_ name e :: rest =>
      match evalExpr scope e with
      | inl err => inl err
      | inr v => evalProperties scope rest (set acc name v)
      end
  end.

Definition evalObject (scope : Scope) (props : list Property)
  : JsError + JsObject :=
  evalProperties scope props [].

End JsExpr.

(* ===================================================================== *)
(** * The updater: methods *)
(* ===================================================================== *)

Module SalesforceUpdater.
Import Js Runtime JsExpr.
Local Open Scope js_scope.

Definition default {A} (d : A) (o : option A) : A :=
  match o with Some a => a | None => d end.

(** [a || b]. *)
Definition or_else (a b : JsValue) : JsValue := if truthy a then a else b.

(** [error.response?.data] and [error.response?.status]. *)
Definition response_data (error : JsError) : JsValue :=
  match response error with Some r => data r | None => VUndefined end.
Definition response_status (error : JsError) : JsValue :=
  match response error with Some r => status r | None => VUndefined end.

(** [array.slice(start, end)]: a negative index counts from the end. *)
Definition relativeIndex (len k : Z) : Z :=
  if (k <? 0)%Z then Z.max (len + k) 0 else Z.min k len.

Definition slice {A} (l : list A) (start end_ : Z) : list A :=
  let len := Z.of_nat (length l) in
  let from := relativeIndex len start in
  let to := relativeIndex len end_ in
  firstn (Z.to_nat (to - from)) (skipn (Z.to_nat from) l).

Definition removeAt {A} (k : nat) (l : list A) : list A :=
  (firstn k l ++ skipn (S k) l)%list.

Definition replaceAt {A} (k : nat) (x : A) (l : list A) : list A :=
  (firstn k l ++ x :: skipn (S k) l)%list.

(** [workOrderNumber.replace(/'/g, "\\'")]: a backslash before every
    single quote. *)
Fixpoint escapeSingleQuotes (s : string) : string :=
  match s with
  | EmptyString => EmptyString
  | String c r =>
      if Ascii.eqb c "'"%char
      then String (ascii_of_nat 92) (String c (escapeSingleQuotes r))
      else String c (escapeSingleQuotes r)
  end.

(** [((successful / total) * 100).toFixed(2) + '%']. *)
Definition percentage (successful total : nat) : string :=
  JsNumber.toFixed2
    (PrimFloat.mul
       (PrimFloat.div (JsNumber.ofLength successful) (JsNumber.ofLength total))
       100%float)
  ++ "%".

(** The object literal that [updateWorkOrderByNumber] passes to
    [updateRecord] as metadata (salesforce-updater-enhanced.js,
    l.103-112). *)
Definition metadataLiteral : list Property :=
  [ Spread (Ident "metadata");
    Shorthand "workOrderNumber";
    Prop_ "workOrderName" (Member (Ident "workOrder") "Name");
    Prop_ "sassieId" (Member (Ident "workOrder") "SASSIE_ID__c");
    Prop_ "sassieSurveyName"
      (OptMember (Member (Ident "workOrder") "Related_Project__r")
                 "SASSIE_Survey_Name__c");
    Prop_ "sassieSurveyId"
      (OptMember (Ident "Related_Project__r") "SASSIE_Survey_ID__c");
    Prop_ "sassieVideoQID"
      (OptMember (Ident "Related_Project__r") "Video_QID__c");
    Prop_ "sassieDownloadQID"
      (OptMember (Ident "Related_Project__r") "Download_Video_QID__c") ].

(** The bindings that salesforce-updater-enhanced.js declares at module
    level; the expressions evaluated here read none of their values.
    (The host's global object is taken to define none of the names that
    the literal mentions.) *)
Definition moduleScope : Scope :=
  [ ("SalesforceUpdater", VObject []);
    ("SalesforceAuthJWT", VObject []);
    ("axios", VObject []) ].

(** The scope of the body of [updateWorkOrderByNumber] after the
    lookup. *)
Definition updateWorkOrderScope (workOrder : JsObject)
           (workOrderNumber : string) (updateData : JsValue)
           (metadata : JsObject) : Scope :=
  ([ ("workOrder", VObject workOrder);
     ("metadata", VObject metadata);
     ("updateData", updateData);
     ("workOrderNumber", VString workOrderNumber) ] ++ moduleScope)%list.

Definition soqlFor (escapedNumber : string) : string :=
  "SELECT Id, Name, SASSIE_ID__c, Related_Project__r.SASSIE_Survey_ID__c, Related_Project__r.Video_QID__c, Related_Project__r.Download_Video_QID__c  FROM Work_Order__c WHERE Name = '"
    ++ escapedNumber ++ "' LIMIT 1".

Section Methods.
Variable env : Env.

(** ** The methods as coroutines *)

Section Calls.
Import Coroutine.
Local Open Scope async_scope.

(** [await this.auth.ensureAuthenticated()]: the call is recorded in the
    world at once; the updater's call waits, and the world as it is when
    the event loop resumes the call decides the answer. *)
Definition ensureAuthenticated : Async unit :=
  emit EvEnsureAuthenticated ;;
  suspend ;;
  w <- world ;;
  match auth_ensureAuthenticated env w with
  | Some e => throw e
  | None => ret tt
  end.

Definition instanceUrl : Async JsValue :=
  w <- world ;; ret (auth_instanceUrl env w).

Definition getAuthHeaders : Async JsValue :=
  w <- world ;; lift (auth_getAuthHeaders env w).

(** [await axios.patch(url, body, { headers })]: the request is recorded
    at once, the answer is the world's when the call is resumed. *)
Definition patch (url : SObjectUrl) (body headers : JsValue)
  : Async HttpResponse :=
  emit (EvPatch url body) ;;
  suspend ;;
  w <- world ;;
  lift (axios_patch env w url body headers).

(** [await axios.get(queryUrl, { headers, params: { q } })], and the
    [records] of the response. *)
Definition get_records (instance : JsValue) (headers : JsValue)
           (soqlQuery : string) : Async (list JsObject) :=
  emit (EvQuery instance apiVersion soqlQuery) ;;
  suspend ;;
  w <- world ;;
  lift (axios_get env w instance apiVersion headers soqlQuery).

Definition toISOString : Async string :=
  w <- world ;; ret (Date_toISOString env w).

Definition pushSuccessful (o : Outcome.t) : Async unit :=
  u <- this ;;
  assign {| successfulUpdates := (successfulUpdates u ++ [o])%list;
            failedUpdates := failedUpdates u |}.

Definition pushFailed (o : Outcome.t) : Async unit :=
  u <- this ;;
  assign {| successfulUpdates := successfulUpdates u;
            failedUpdates := (failedUpdates u ++ [o])%list |}.

(** [async updateRecord(objectType, recordId, updateData, metadata = {})]
    (salesforce-updater.js, l.30; salesforce-updater-enhanced.js,
    l.144). *)
Definition async_updateRecord (objectType : string)
           (recordId updateData : JsValue) (metadata : option JsObject)
  : Async Outcome.t :=
  let metadata := default [] metadata in
  try_catch
    (ensureAuthenticated ;;
     instance <- instanceUrl ;;
     let updateUrl :=
       {| url_instance := instance; url_apiVersion := apiVersion;
          url_objectType := objectType; url_recordId := recordId |} in
     headers <- getAuthHeaders ;;
     response <- patch updateUrl updateData headers ;;
     timestamp <- toISOString ;;
     let result :=
       {| Outcome.success := true;
          Outcome.workOrderNumber := None;
          Outcome.recordId := recordId;
          Outcome.objectType := objectType;
          Outcome.updateData := updateData;
          Outcome.metadata := metadata;
          Outcome.timestamp := timestamp;
          Outcome.error := None;
          Outcome.status := status response |} in
     pushSuccessful result ;;
     ret result)
    (fun error =>
     timestamp <- toISOString ;;
     let failureResult :=
       {| Outcome.success := false;
          Outcome.workOrderNumber := None;
          Outcome.recordId := recordId;
          Outcome.objectType := objectType;
          Outcome.updateData := updateData;
          Outcome.metadata := metadata;
          Outcome.timestamp := timestamp;
          Outcome.error :=
            Some (or_else (response_data error) (VString (message error)));
          Outcome.status :=
            or_else (response_status error) (VString "UNKNOWN") |} in
     pushFailed failureResult ;;
     ret failureResult).

(** [async query(soqlQuery)] (enhanced, l.19). *)
Definition async_query (soqlQuery : string) : Async (list JsObject) :=
  try_catch
    (ensureAuthenticated ;;
     instance <- instanceUrl ;;
     headers <- getAuthHeaders ;;
     get_records instance headers soqlQuery)
    (fun error => throw error).

(** [async lookupWorkOrderByNumber(workOrderNumber)] (enhanced, l.43);
    [None] is the [null] returned when no record matches. *)
Definition async_lookupWorkOrderByNumber (workOrderNumber : string)
  : Async (option JsObject) :=
  try_catch
    (let escapedNumber := escapeSingleQuotes workOrderNumber in
     let soql := soqlFor escapedNumber in
     results <- await (async_query soql) ;;
     match results with
     | [] => ret None
     | first :: _ => ret (Some first)
     end)
    (fun error => throw error).

(** [async updateWorkOrderByNumber(workOrderNumber, updateData, metadata = {})]
    (enhanced, l.76).  The arguments of the call of [updateRecord] are
    evaluated left to right before the call. *)
Definition async_updateWorkOrderByNumber (workOrderNumber : string)
           (updateData : JsValue) (metadata : option JsObject)
  : Async Outcome.t :=
  let metadata := default [] metadata in
  try_catch
    (workOrder <- await (async_lookupWorkOrderByNumber workOrderNumber) ;;
     match workOrder with
     | None =>
         timestamp <- toISOString ;;
         let failureResult :=
           {| Outcome.success := false;
              Outcome.workOrderNumber := Some workOrderNumber;
              Outcome.recordId := VNull;
              Outcome.objectType := "Work_Order__c";
              Outcome.updateData := updateData;
              Outcome.metadata := metadata;
              Outcome.timestamp := timestamp;
              Outcome.error := Some (VString "Work Order not found");
              Outcome.status := VString "NOT_FOUND" |} in
         pushFailed failureResult ;;
         ret failureResult
     | Some workOrder =>
         let scope :=
           updateWorkOrderScope workOrder workOrderNumber updateData metadata in
         recordId <- lift (evalExpr scope (Member (Ident "workOrder") "Id")) ;;
         data <- lift (evalExpr scope (Ident "updateData")) ;;
         extended <- lift (evalObject scope metadataLiteral) ;;
         await (async_updateRecord "Work_Order__c" recordId data (Some extended))
     end)
    (fun error =>
     timestamp <- toISOString ;;
     let failureResult :=
       {| Outcome.success := false;
          Outcome.workOrderNumber := Some workOrderNumber;
          Outcome.recordId := VNull;
          Outcome.objectType := "Work_Order__c";
          Outcome.updateData := updateData;
          Outcome.metadata := metadata;
          Outcome.timestamp := timestamp;
          Outcome.error :=
            Some (or_else (response_data error) (VString (message error)));
          Outcome.status :=
            or_else (response_status error) (VString "ERROR") |} in
     pushFailed failureResult ;;
     ret failureResult).

End Calls.

(** ** The methods, awaited on their own

    [await updater.updateRecord(...)] and the like, by a caller that
    runs nothing else until the call has settled. *)


Definition query (soqlQuery : string) : M (list JsObject) :=
  awaited (async_query soqlQuery).

Definition lookupWorkOrderByNumber (workOrderNumber : string)
  : M (option JsObject) :=
  awaited (async_lookupWorkOrderByNumber workOrderNumber).

Definition updateWorkOrderByNumber (workOrderNumber : string)
           (updateData : JsValue) (metadata : option JsObject)
  : M Outcome.t :=
  awaited (async_updateWorkOrderByNumber workOrderNumber updateData metadata).

(** [delay(ms)], awaited. *)
Definition delay (ms : Z) : M unit := emit (EvDelay ms).


(** [getStats()], without the [lastProcessed] property. *)
Definition getStats : M Stats.t :=
  u <- this ;;
  let successful := length (successfulUpdates u) in
  let failed := length (failedUpdates u) in
  ret {| Stats.totalProcessed := successful + failed;
         Stats.successful := successful;
         Stats.failed := failed;
         Stats.successRate :=
           if (0 <? successful)%nat || (0 <? failed)%nat
           then percentage successful (successful + failed)
           else "0%" |}.

(** The batch loop, which [processUpdates] (both files) and
    [processWorkOrderUpdates] share word for word but for the method
    called on each element: [call] names that call in the world's
    record and [method] is its body.  [awaits] is the number of awaits
    on the longest path through that body: the event loop is given
    that many turns for each call of a group, which is as many as the
    calls can take. *)
Section BatchLoop.
Context {R : Type}.
Variable call : R -> Call.
Variable method : R -> Async Outcome.t.
Variable awaits : nat.

(** The promise of a call is settled, or not yet. *)
Definition noteSettled {A} (update : R) (promise : Promise A) : M unit :=
  match promise with
  | Pending _ => ret tt
  | _ => emit (EvSettled (call update))
  end.

(** [batch.map(update => this.method(...))]: every call of the batch is
    made, in order, and runs up to its first [await]. *)
Fixpoint startAll (batch : list R) : M (list (R * Promise Outcome.t)) :=
  match batch with
  | [] => ret []
  | update :: rest =>
      emit (EvIssued (call update)) ;;
      promise <- start (method update) ;;
      noteSettled update promise ;;
      promises <- startAll rest ;;
      ret ((update, promise) :: promises)
  end.

(** The first rejection among the promises, and the calls that wait. *)
Fixpoint rejection {A} (promises : list (R * Promise A)) : option JsError :=
  match promises with
  | [] => None
  | (_, Rejected e) :: _ => Some e
  | _ :: rest => rejection rest
  end.

Fixpoint waiting {A} (promises : list (R * Promise A))
  : list (R * (Updater -> World -> Promise A * Updater * World)) :=
  match promises with
  | [] => []
  | (update, Pending resume) :: rest => (update, resume) :: waiting rest
  | _ :: rest => waiting rest
  end.

(** The event loop while [Promise.all] is awaited: as long as a call of
    the batch waits, one of those that wait is resumed, the one that
    the scheduler picks, and runs up to its next [await] or to its end;
    a rejection rejects the whole, and the calls that wait then are
    followed no further (no method of the updater rejects).  [turn]
    counts the turns taken. *)
Fixpoint awaitAll (turns turn : nat)
         (pending : list (R * (Updater -> World
                               -> Promise Outcome.t * Updater * World)))
  : M unit :=
  match pending with
  | [] => ret tt
  | _ :: _ =>
      match turns with
      | O => fun u w => (OutOfFuel, u, w)
      | S turns' =>
          w <- world ;;
          let k := (scheduler env w turn mod length pending)%nat in
          match nth_error pending k with
          | None => ret tt
          | Some (update, resume) =>
              promise <- start resume ;;
              noteSettled update promise ;;
              match promise with
              | Fulfilled _ => awaitAll turns' (S turn) (removeAt k pending)
              | Rejected e => throw e
              | Pending resume' =>
                  awaitAll turns' (S turn)
                           (replaceAt k (update, resume') pending)
              end
          end
      end
  end.

(** [await Promise.all(batch.map(...))]. *)
Definition promiseAll (batch : list R) : M unit :=
  promises <- startAll batch ;;
  match rejection promises with
  | Some e => throw e
  | None => awaitAll (awaits * length batch) 0 (waiting promises)
  end.

(** [for (let i = ...; i < updateList.length; i += batchSize)], one
    unit of [fuel] per test of the loop condition. *)
Fixpoint batchLoop (fuel : nat) (updateList : list R)
         (batchSize delayMs : Z) (i : Z) : M unit :=
  match fuel with
  | O => fun u w => (OutOfFuel, u, w)
  | S fuel' =>
      if (i <? Z.of_nat (length updateList))%Z then
        let batch := slice updateList i (i + batchSize) in
        promiseAll batch ;;
        (if (i + batchSize <? Z.of_nat (length updateList))%Z
            && (0 <? delayMs)%Z
         then delay delayMs else ret tt) ;;
        batchLoop fuel' updateList batchSize delayMs (i + batchSize)
      else ret tt
  end.

Definition processList (fuel : nat) (updateList : list R)
           (options : Options.t) : M Results.t :=
  let batchSize := default 5%Z (Options.batchSize options) in
  let delayMs := default 100%Z (Options.delayMs options) in
  assign {| successfulUpdates := []; failedUpdates := [] |} ;;
  batchLoop fuel updateList batchSize delayMs 0 ;;
  u <- this ;;
  ret {| Results.totalProcessed := length updateList;
         Results.successful := length (successfulUpdates u);
         Results.failed := length (failedUpdates u);
         Results.successfulUpdates := successfulUpdates u;
         Results.failedUpdates := failedUpdates u;
         Results.successRate :=
           percentage (length (successfulUpdates u)) (length updateList) |}.
End BatchLoop.

(** [async processUpdates(updateList, options = {})]
    (salesforce-updater.js, l.83; enhanced, l.264).  [updateRecord]
    has two awaits. *)
Definition processUpdates (fuel : nat) (updateList : list Update.t)
           (options : Options.t) : M Results.t :=
  processList CallUpdateRecord
    (fun update =>
       async_updateRecord (Update.objectType update) (Update.recordId update)
                          (Update.updateData update) (Update.metadata update))
    2 fuel updateList options.

(** [async processWorkOrderUpdates(updateList, options = {})]
    (enhanced, l.199).  [updateWorkOrderByNumber] has seven awaits on
    its longest path: two in [query], the one of [query] in the lookup,
    the one of the lookup, and the one of [updateRecord] with its
    two. *)
Definition processWorkOrderUpdates (fuel : nat)
           (updateList : list WorkOrderUpdate.t) (options : Options.t)
  : M Results.t :=
  processList CallUpdateWorkOrderByNumber
    (fun update =>
       async_updateWorkOrderByNumber (WorkOrderUpdate.workOrderNumber update)
                                     (WorkOrderUpdate.updateData update)
                                     (WorkOrderUpdate.metadata update))
    7 fuel updateList options.

End Methods.

End SalesforceUpdater.

(* ===================================================================== *)
(** * JWT bearer authentication: [SalesforceAuthJWT.createJWT] *)
(* ===================================================================== *)

Module SalesforceAuthJWT.
Import Runtime.

(** The instance fields that [createJWT] reads; [None] is a property of
    the configuration left [undefined]. *)
Record t : Type := {
  clientId : string;
  username : string;
  privateKey : option string;
  privateKeyPath : option string;
  loginUrl : string;
}.

(** The [claims] object literal of [createJWT]. *)
Record Claims : Type := {
  iss : string;
  sub : string;
  aud : string;
  exp : Z;
}.

(** The [options] object literal passed to [jwt.sign]. *)
Record SignOptions : Type := { algorithm : string }.

Definition nonEmpty (s : option string) : option string :=
  match s with
  | Some EmptyString | None => None
  | Some s => Some s
  end.

Section CreateJWT.
(** The file system, the jsonwebtoken library and the clock. *)
Variable fs_readFileSync : string -> string -> JsError + string.
Variable jwt_sign : Claims -> string -> SignOptions -> JsError + string.
Variable Date_now : Z.

(** [getPrivateKey()] (salesforce-auth-jwt.js, l.22). *)
Definition getPrivateKey (this : t) : JsError + string :=
  match nonEmpty (privateKey this) with
  | Some key => inr key
  | None =>
      match nonEmpty (privateKeyPath this) with
      | Some path => fs_readFileSync path "utf8"
      | None =>
          inl {| message :=
                   "No private key provided. Set either privateKey or privateKeyPath.";
                 response := None |}
      end
  end.

(** The [claims] that [createJWT] builds (l.41-46);
    [Math.floor(Date.now() / 1000)] is the division of [Z]. *)
Definition claimsOf (this : t) : Claims :=
  {| iss := clientId this;
     sub := username this;
     aud := loginUrl this;
     exp := (Date_now / 1000 + 300)%Z |}.

(** [createJWT()] (l.38). *)
Definition createJWT (this : t) : JsError + string :=
  match getPrivateKey this with
  | inl e => inl e
  | inr privateKey =>
      let claims := claimsOf this in
      jwt_sign claims privateKey {| algorithm := "RS256" |}
  end.

End CreateJWT.

End SalesforceAuthJWT.

(* ===================================================================== *)
(** * The specification's words, as definitions *)
(* ===================================================================== *)

Module CSVSpec.
Import JsString Js.

(** A comma, a quote character or a newline (line feed or carriage
    return). *)
Definition isSpecial (c : ascii) : bool :=
  Ascii.eqb c comma || Ascii.eqb c dquote || Ascii.eqb c lf || Ascii.eqb c cr.

Fixpoint hasSpecial (s : string) : bool :=
  match s with
  | EmptyString => false
  | String c r => isSpecial c || hasSpecial r
  end.

(** Every quote character of the field written twice, the other
    characters once. *)
Definition doubled (s : string) : string :=
  string_of_list_ascii
    (flat_map (fun c => if Ascii.eqb c dquote then [c; c] else [c])
              (list_ascii_of_string s)).

(** The field wrapped in quotes, its own quotes doubled. *)
Definition quoted (s : string) : string :=
  String dquote (doubled s ++ String dquote EmptyString).

(** The escaping rule. *)
Definition escaped (s : string) : string :=
  if hasSpecial s then quoted s else s.


(** The member of [Object.prototype] of that name, which a record
    without a property of its own of that name inherits: [None] for
    every name but the twelve of [Object.prototype]. *)
Definition inheritedField (name : string) : option JsValue :=
  if String.eqb name "constructor" then Some (VFunction "Object")
  else if String.eqb name "__proto__" then Some VObjectPrototype
  else if existsb (String.eqb name) prototypeMethods
       then Some (VFunction name)
       else None.

(** The field of that name: the record's own property, else the
    inherited one; [None] when the field is absent. *)
Fixpoint field (record : JsObject) (name : string) : option JsValue :=
  match record with
  | [] => inheritedField name
  | (k, v) :: rest => if String.eqb k name then Some v else field rest name
  end.

Section Text.
Variable JSON_stringify : JsValue -> string.
Variable Number_toString : float -> string.

(** The text of a field before escaping: empty for a null or absent
    value, the JSON serialisation for a nested object, the value's
    string otherwise. *)
Definition text (v : option JsValue) : string :=
  match v with
  | None | Some VNull | Some VUndefined => EmptyString
  | Some (VObject fields) => JSON_stringify (VObject fields)
  | Some VObjectPrototype => JSON_stringify VObjectPrototype
  | Some (VFunction name) => CSV.functionText name
  | Some (VString s) => s
  | Some (VBool true) => "true"
  | Some (VBool false) => "false"
  | Some (VNumber x) => Number_toString x
  end.

Definition row (headers : list string) (record : JsObject) : string :=
  join "," (map (fun h => escaped (text (field record h))) headers).
End Text.

End CSVSpec.

Module BatchSpec.
Import Js Runtime.

(** The echo of a request in an outcome of [updateRecord], and the
    request as [updateRecord] receives it. *)
Definition echoOfUpdate (o : Outcome.t)
  : string * JsValue * JsValue * JsObject :=
  (Outcome.objectType o, Outcome.recordId o, Outcome.updateData o,
   Outcome.metadata o).

Definition keyOfUpdate (r : Update.t)
  : string * JsValue * JsValue * JsObject :=
  (Update.objectType r, Update.recordId r, Update.updateData r,
   SalesforceUpdater.default [] (Update.metadata r)).

(** The same for the outcomes that [updateWorkOrderByNumber] builds. *)
Definition echoOfWorkOrder (o : Outcome.t)
  : option string * JsValue * JsObject :=
  (Outcome.workOrderNumber o, Outcome.updateData o, Outcome.metadata o).

Definition keyOfWorkOrder (r : WorkOrderUpdate.t)
  : option string * JsValue * JsObject :=
  (Some (WorkOrderUpdate.workOrderNumber r), WorkOrderUpdate.updateData r,
   SalesforceUpdater.default [] (WorkOrderUpdate.metadata r)).

(** Every outcome recorded so far. *)
Definition allOutcomes (u : Updater) : list Outcome.t :=
  (successfulUpdates u ++ failedUpdates u)%list.

(** An outcome appended to the list that its [success] flag names. *)
Definition pushOutcome (u : Updater) (o : Outcome.t) : Updater :=
  if Outcome.success o
  then {| successfulUpdates := (successfulUpdates u ++ [o])%list;
          failedUpdates := failedUpdates u |}
  else {| successfulUpdates := successfulUpdates u;
          failedUpdates := (failedUpdates u ++ [o])%list |}.

(** The success list holds successes only, the failure list failures
    only. *)
Definition Sorted (successes failures : list Outcome.t) : Prop :=
  Forall (fun o => Outcome.success o = true) successes /\
  Forall (fun o => Outcome.success o = false) failures.

(** Events of the batch loop itself, and calls out of the updater. *)
Definition isBatchEvent (e : Event) : bool :=
  match e with
  | EvIssued _ | EvSettled _ | EvDelay _ => true
  | _ => false
  end.

Definition isPatch (e : Event) : bool :=
  match e with EvPatch _ _ => true | _ => false end.

Definition patches (w : World) : list Event := filter isPatch w.

(** [merged] is an interleaving of the lists [ls]: it takes the
    elements of every list, those of one list in their order, and
    nothing else. *)
Inductive Shuffle {A : Type} : list (list A) -> list A -> Prop :=
| Shuffle_nil : Shuffle [] []
| Shuffle_skip (ls1 ls2 : list (list A)) (merged : list A) :
    Shuffle (ls1 ++ ls2)%list merged ->
    Shuffle (ls1 ++ [] :: ls2)%list merged
| Shuffle_take (ls1 ls2 : list (list A)) (x : A) (xs merged : list A) :
    Shuffle (ls1 ++ xs :: ls2)%list merged ->
    Shuffle (ls1 ++ (x :: xs) :: ls2)%list (x :: merged).

(** The course of one call: the request, the calls out of the updater
    between the call and its first [await], and those after it. *)
Definition Course (R : Type) : Type := R * list Event * list Event.

Definition requestOf {R : Type} (c : Course R) : R := fst (fst c).
Definition atStart {R : Type} (c : Course R) : list Event := snd (fst c).
Definition afterwards {R : Type} (c : Course R) : list Event := snd c.

Section Groups.
Context {R : Type}.
Variable call : R -> Call.

(** [Runs r first rest]: a call for [r] may add [first] to the history
    before its first [await], and [rest] after it. *)
Variable Runs : R -> list Event -> list Event -> Prop.

(** What the history shows of a call when it is made, and from its
    first [await] to its settlement. *)
Definition startOf (c : Course R) : list Event :=
  EvIssued (call (requestOf c)) :: atStart c.

Definition restOf (c : Course R) : list Event :=
  (afterwards c ++ [EvSettled (call (requestOf c))])%list.

(** What the history shows of a call that waits, with its course so
    far, from then on: the rest of what it does, and its settlement;
    and the course of the call then. *)
Definition leftOf (f : Course R * list Event) : list Event :=
  (snd f ++ [EvSettled (call (requestOf (fst f)))])%list.

Definition completed (f : Course R * list Event) : Course R :=
  (requestOf (fst f), atStart (fst f), (afterwards (fst f) ++ snd f)%list).

(** The history of one group: the calls are made in the order of the
    group, and each runs up to its first [await] before the next is
    made; what the calls do afterwards is interleaved in any order, and
    each call settles after all that it does. *)
Definition GroupRun (group : list R) (trace : list Event) : Prop :=
  exists (courses : list (Course R)) (merged : list Event),
    map requestOf courses = group /\
    Forall (fun c => Runs (requestOf c) (atStart c) (afterwards c)) courses /\
    Shuffle (map restOf courses) merged /\
    trace = (flat_map startOf courses ++ merged)%list.

(** The order of events that the specification describes for a list of
    requests: contiguous groups of [size] requests (the last one may be
    shorter), each with the history of a group, one after the other;
    [pause] follows every group but the last. *)
Inductive Grouped (size : nat) (pause : list Event)
  : list R -> list Event -> Prop :=
| Grouped_nil : Grouped size pause [] []
| Grouped_last (group : list R) (trace : list Event) :
    group <> [] -> (length group <= size)%nat ->
    GroupRun group trace ->
    Grouped size pause group trace
| Grouped_more (group rest : list R) (trace more : list Event) :
    length group = size -> rest <> [] ->
    GroupRun group trace ->
    Grouped size pause rest more ->
    Grouped size pause (group ++ rest)%list (trace ++ pause ++ more)%list.

End Groups.

(** What a call of [updateRecord] for a request asks of the world: the
    check of the session when it is made, and afterwards at most one
    PATCH, of the data of the request to its record. *)
Definition updateRecordRuns (r : Update.t) (first rest : list Event) : Prop :=
  first = [EvEnsureAuthenticated] /\
  (rest = [] \/
   exists instance,
     rest = [EvPatch {| url_instance := instance;
                        url_apiVersion := apiVersion;
                        url_objectType := Update.objectType r;
                        url_recordId := Update.recordId r |}
                     (Update.updateData r)]).

(** The same for [updateWorkOrderByNumber]: the check of the session,
    and afterwards at most the query for the Work Order. *)
Definition workOrderRuns (r : WorkOrderUpdate.t) (first rest : list Event)
  : Prop :=
  first = [EvEnsureAuthenticated] /\
  (rest = [] \/
   exists instance,
     rest = [EvQuery instance apiVersion
                     (SalesforceUpdater.soqlFor
                        (SalesforceUpdater.escapeSingleQuotes
                           (WorkOrderUpdate.workOrderNumber r)))]).

(** The outcome built by the [catch] clause of
    [updateWorkOrderByNumber]. *)
Definition caught (env : Env) (workOrderNumber : string) (updateData : JsValue)
           (metadata : option JsObject) (error : JsError) (w : World)
  : Outcome.t :=
  {| Outcome.success := false;
     Outcome.workOrderNumber := Some workOrderNumber;
     Outcome.recordId := VNull;
     Outcome.objectType := "Work_Order__c";
     Outcome.updateData := updateData;
     Outcome.metadata := SalesforceUpdater.default [] metadata;
     Outcome.timestamp := Date_toISOString env w;
     Outcome.error :=
       Some (SalesforceUpdater.or_else (SalesforceUpdater.response_data error) (VString (message error)));
     Outcome.status := SalesforceUpdater.or_else (SalesforceUpdater.response_status error) (VString "ERROR") |}.

(** The outcome built when the lookup returns [null]. *)
Definition missing (env : Env) (workOrderNumber : string) (updateData : JsValue)
           (metadata : option JsObject) (w : World) : Outcome.t :=
  {| Outcome.success := false;
     Outcome.workOrderNumber := Some workOrderNumber;
     Outcome.recordId := VNull;
     Outcome.objectType := "Work_Order__c";
     Outcome.updateData := updateData;
     Outcome.metadata := SalesforceUpdater.default [] metadata;
     Outcome.timestamp := Date_toISOString env w;
     Outcome.error := Some (VString "Work Order not found");
     Outcome.status := VString "NOT_FOUND" |}.

Definition external (e : Event) : Prop := isBatchEvent e = false.



(** Between [u] and [u'] the requests [rs] were handled: each added one
    outcome that echoes it, and nothing else changed in the two lists
    taken together; the lists stay sorted by flag. *)
Definition Accounts {R K : Type} (key : R -> K) (echo : Outcome.t -> K)
           (u u' : Updater) (rs : list R) : Prop :=
  Permutation (map echo (allOutcomes u'))
              (map echo (allOutcomes u) ++ map key rs)%list /\
  (Sorted (successfulUpdates u) (failedUpdates u) ->
   Sorted (successfulUpdates u') (failedUpdates u')).

(** A result in which every request of [updateList] has exactly one
    outcome: the two lists together echo the requests one for one, each
    outcome is in the list that its flag names, and the counts agree. *)
Definition OneOutcomeEach {R K : Type} (key : R -> K) (echo : Outcome.t -> K)
           (updateList : list R) (res : Results.t) : Prop :=
  Results.totalProcessed res = length updateList /\
  (Results.successful res + Results.failed res)%nat = length updateList /\
  Results.successful res = length (Results.successfulUpdates res) /\
  Results.failed res = length (Results.failedUpdates res) /\
  Permutation
    (map echo (Results.successfulUpdates res ++ Results.failedUpdates res)%list)
    (map key updateList) /\
  Sorted (Results.successfulUpdates res) (Results.failedUpdates res).







(** What follows every group but the last: a pause of [delayMs]
    milliseconds, none when there is no time to wait. *)
Definition pauseOf (delayMs : Z) : list Event :=
  if (0 <? delayMs)%Z then [EvDelay delayMs] else [].

Section Owing.
Context {R K : Type}.
Variable key : R -> K.
Variable echo : Outcome.t -> K.
Variable Runs : R -> list Event -> list Event -> Prop.

(** A call for [r] that waits, after it has added [first] before its
    first [await] and [sofar] since: whenever the event loop resumes it,
    whatever the state of the instance and of the world, it either
    ends, fulfilled with an outcome that echoes [r] and that it has
    appended to the list that its flag names, or waits again, at most
    [turns] times in all; until it ends it leaves the instance as it
    is. *)
Fixpoint Owes (r : R) (turns : nat) (first sofar : list Event)
         (resume : Updater -> World -> Promise Outcome.t * Updater * World)
  : Prop :=
  match turns with
  | O => False
  | S turns' =>
      forall u w, exists evs,
        (exists o,
            resume u w = (Fulfilled o, pushOutcome u o, (w ++ evs)%list) /\
            echo o = key r /\
            Runs r first (sofar ++ evs)%list)
        \/
        (exists resume',
            resume u w = (Pending resume', u, (w ++ evs)%list) /\
            Owes r turns' first (sofar ++ evs)%list resume')
  end.

(** A call of a batch that waits, and what is known of it: its course
    so far, and the number of turns within which it ends. *)
Definition Waits
           (p : R * (Updater -> World -> Promise Outcome.t * Updater * World))
           (st : Course R * nat) : Prop :=
  fst p = requestOf (fst st) /\
  Owes (requestOf (fst st)) (snd st) (atStart (fst st)) (afterwards (fst st))
       (snd p).

(** A method that, whatever the world answers, waits at least once and
    then records one outcome for its request, within [awaits] turns of
    the event loop. *)
Definition RecordsOne (method : R -> Async Outcome.t) (awaits : nat) : Prop :=
  forall r u w, exists first resume,
    method r u w = (Pending resume, u, (w ++ first)%list) /\
    Owes r awaits first [] resume.

End Owing.

End BatchSpec.

(* ===================================================================== *)
(** * Sample inputs *)
(* ===================================================================== *)

Module Samples.
Import JsString Js Runtime.

(** The text [say <q>hi<q>, twice], where [<q>] is the quote
    character. *)
Definition quotation : string :=
  "say " ++ String dquote ("hi" ++ String dquote ", twice").

(** Two records with the columns [id] and [note]. *)
Definition twoRecords : list JsObject :=
  [ [("id", VNumber 1%float); ("note", VString "a,b")];
    [("id", VObject []); ("note", VNull)] ].

(** Stand-ins for [JSON.stringify] and the number-to-string conversion,
    right on the sample values. *)
Definition stringify (v : JsValue) : string := "{}".
Definition numberText (x : float) : string := "1".

(** An instance with nothing recorded. *)
Definition fresh : Updater :=
  {| successfulUpdates := []; failedUpdates := [] |}.

Definition update (id : string) : Update.t :=
  Update.make "Account" (VString id) (VObject [("Name", VString "Acme")]) None.

Definition workOrderUpdate (number : string) : WorkOrderUpdate.t :=
  WorkOrderUpdate.make number (VObject [("Status__c", VString "Complete")]) None.

Definition notFound : JsError :=
  {| message := "Request failed with status code 404";
     response := Some {| data := VString "NOT_FOUND";
                         status := VNumber 404%float |} |}.

(** A world that accepts every update but the one of the record [bad],
    finds the Work Order [WO-1] and no other, and settles the pending
    call that the length of the history so far picks. *)
Definition env : Env :=
  {| auth_ensureAuthenticated := fun _ => None;
     auth_instanceUrl := fun _ => VString "https://example.my.salesforce.com";
     auth_getAuthHeaders := fun _ => inr (VObject []);
     axios_patch := fun _ url _ _ =>
       match url_recordId url with
       | VString "bad" => inl notFound
       | _ => inr {| data := VNull; status := VNumber 204%float |}
       end;
     axios_get := fun _ _ _ _ soql =>
       if String.eqb soql (SalesforceUpdater.soqlFor "WO-1")
       then inr [[("Id", VString "a0X1"); ("Name", VString "WO-1")]]
       else inr [];
     Date_toISOString := fun _ => "2025-10-23T10:30:00.000Z";
     scheduler := fun w turn => length w |}.


(** Two updates by number: a Work Order that exists and one that does
    not. *)
Definition twoWorkOrderUpdates : list WorkOrderUpdate.t :=
  [workOrderUpdate "WO-1"; workOrderUpdate "WO-404"].

(** An instance that has recorded an earlier run. *)
Definition used : Updater :=
  {| successfulUpdates :=
       [ Outcome.make true None (VString "old") "Account" VNull []
                      "2025-10-22T08:00:00.000Z" None (VNumber 204%float) ];
     failedUpdates :=
       [ Outcome.make false None (VString "older") "Account" VNull []
                      "2025-10-22T08:00:01.000Z" (Some (VString "boom"))
                      (VString "UNKNOWN") ] |}.

(** The world of [env] with an event loop that settles the second pending
    call first. *)
Definition secondFirst : Env :=
  {| auth_ensureAuthenticated := auth_ensureAuthenticated env;
     auth_instanceUrl := auth_instanceUrl env;
     auth_getAuthHeaders := auth_getAuthHeaders env;
     axios_patch := axios_patch env;
     axios_get := axios_get env;
     Date_toISOString := Date_toISOString env;
     scheduler := fun _ _ => 1%nat |}.


(** A connected app configured with the key itself. *)
Definition connectedApp : SalesforceAuthJWT.t :=
  {| SalesforceAuthJWT.clientId := "3MVG9consumerkey";
     SalesforceAuthJWT.username := "integration@example.com";
     SalesforceAuthJWT.privateKey := Some "PRIVATE KEY";
     SalesforceAuthJWT.privateKeyPath := None;
     SalesforceAuthJWT.loginUrl := "https://login.salesforce.com" |}.

Definition noFile (path encoding : string) : JsError + string :=
  inl {| message := "ENOENT"; response := None |}.

(** A stand-in for the signing library: the token names its issuer. *)
Definition signer (claims : SalesforceAuthJWT.Claims) (key : string)
           (options : SalesforceAuthJWT.SignOptions) : JsError + string :=
  inr ("signed:" ++ SalesforceAuthJWT.iss claims).

End Samples.

(* ===================================================================== *)
(** * The updater: updates given as key-value pairs *)
(* ===================================================================== *)

Module KeyValueUpdates.
Import Js Runtime SalesforceUpdater.

(** The element that [processKeyValueUpdates] builds from one entry
    [[recordId, updateData]] of [Object.entries(keyValuePairs)]. *)
Definition entryUpdate (objectType : string) (entry : string * JsValue)
  : Update.t :=
  {| Update.objectType := objectType;
     Update.recordId := VString (fst entry);
     Update.updateData := snd entry;
     Update.metadata := Some [("source", VString "keyValuePairs")] |}.

(** [async processKeyValueUpdates(objectType, keyValuePairs, options = {})]
    (salesforce-updater.js, l.139); [keyValuePairs] is given by its
    entries. *)
Definition processKeyValueUpdates (env : Env) (fuel : nat)
           (objectType : string) (keyValuePairs : JsObject)
           (options : Options.t) : M Results.t :=
  let updateList := map (entryUpdate objectType) keyValuePairs in
  processUpdates env fuel updateList options.

End KeyValueUpdates.

Module TraceSpec.
Import Js Runtime.


Definition isQuery (e : Event) : bool :=
  match e with EvQuery _ _ _ => true | _ => false end.





(** A backslash, and the property that every single quote of a text
    stands right after one. *)
Definition backslash : ascii := ascii_of_nat 92.

Fixpoint quotesEscaped (previous : ascii) (s : string) : bool :=
  match s with
  | EmptyString => true
  | String c r =>
      (negb (Ascii.eqb c "'"%char) || Ascii.eqb previous backslash)
      && quotesEscaped c r
  end.

Fixpoint countQuotes (s : string) : nat :=
  match s with
  | EmptyString => 0
  | String c r => (if Ascii.eqb c "'"%char then 1 else 0) + countQuotes r
  end%nat.


(** The same request and the same outcome, each with the flag. *)
Definition flaggedKey (r : WorkOrderUpdate.t)
  : option string * JsValue * JsObject * bool :=
  (BatchSpec.keyOfWorkOrder r, false).

Definition flaggedEcho (o : Outcome.t)
  : option string * JsValue * JsObject * bool :=
  (BatchSpec.echoOfWorkOrder o, Outcome.success o).

End TraceSpec.


(* ===================================================================== *)
(** * Authentication: the session and its requests *)
(* ===================================================================== *)

Module AuthRuntime.
Import Js Runtime JsExpr.

(** The two instance fields that the methods assign; both are [null] in a
    new instance. *)
Record Session : Type := {
  accessToken : JsValue;
  instanceUrl : JsValue;
}.

Definition newSession : Session :=
  {| accessToken := VNull; instanceUrl := VNull |}.

(** The requests that an authentication object sends: the POST of a JWT
    assertion or of a password to the token URL, and the GET of
    [${instanceUrl}/services/data/v58.0/sobjects/] with the bearer token
    in its headers. *)
Inductive Request : Type :=
| PostJwtBearer (tokenUrl assertion : string)
| PostPassword (tokenUrl client_id client_secret username password : string)
| GetSObjects (instance bearer : JsValue).

Definition History : Type := list Request.

(** The network, the file system, the signing library and the clock. *)
Record Net : Type := {
  axios_post : History -> Request -> JsError + HttpResponse;
  axios_get : History -> Request -> JsError + HttpResponse;
  fs_readFileSync : History -> string -> string -> JsError + string;
  jwt_sign : History -> SalesforceAuthJWT.Claims -> string
             -> SalesforceAuthJWT.SignOptions -> JsError + string;
  Date_now : History -> Z;
}.

Definition A (T : Type) : Type :=
  Session -> History -> Completion T * Session * History.

Definition ret {T} (x : T) : A T := fun s h => (Normal x, s, h).

Definition bind {T U} (m : A T) (k : T -> A U) : A U :=
  fun s h =>
    match m s h with
    | (Normal x, s', h') => k x s' h'
    | (Throw e, s', h') => (Throw e, s', h')
    | (OutOfFuel, s', h') => (OutOfFuel, s', h')
    end.

Definition throw {T} (e : JsError) : A T := fun s h => (Throw e, s, h).

Definition try_catch {T} (body : A T) (handler : JsError -> A T) : A T :=
  fun s h =>
    match body s h with
    | (Throw e, s', h') => handler e s' h'
    | r => r
    end.

Definition this : A Session := fun s h => (Normal s, s, h).
Definition history : A History := fun s h => (Normal h, s, h).
Definition lift {T} (r : JsError + T) : A T :=
  match r with inl e => throw e | inr x => ret x end.

Definition setAccessToken (v : JsValue) : A unit :=
  fun s h => (Normal tt, {| accessToken := v; instanceUrl := instanceUrl s |}, h).

Definition setInstanceUrl (v : JsValue) : A unit :=
  fun s h => (Normal tt, {| accessToken := accessToken s; instanceUrl := v |}, h).

(** [axios.post] and [axios.get], recorded in the history. *)
Definition post (net : Net) (r : Request) : A HttpResponse :=
  fun s h => lift (axios_post net h r) s (h ++ [r])%list.

Definition get_ (net : Net) (r : Request) : A HttpResponse :=
  fun s h => lift (axios_get net h r) s (h ++ [r])%list.

(** The method call [value.substring(...)]: a type error on anything but
    a string. *)
Definition substringOf (v : JsValue) : JsError + unit :=
  match v with
  | VString _ => inr tt
  | VUndefined => inl (TypeError "undefined")
  | VNull => inl (TypeError "null")
  | _ => inl {| message := "substring is not a function"; response := None |}
  end.

(** What [authenticate] returns. *)
Record AuthResult : Type := {
  result_accessToken : JsValue;
  result_instanceUrl : JsValue;
  result_success : bool;
}.

End AuthRuntime.

Declare Scope auth_scope.
Delimit Scope auth_scope with auth.
Notation "x <- m ;; k" := (AuthRuntime.bind m (fun x => k))
  (at level 61, m at next level, right associativity) : auth_scope.
Notation "m ;; k" := (AuthRuntime.bind m (fun _ => k))
  (at level 61, right associativity) : auth_scope.

(* ===================================================================== *)
(** * Authentication: the session methods shared by the two classes *)
(* ===================================================================== *)

Module AuthSession.
Import Js Runtime JsExpr AuthRuntime.
Local Open Scope auth_scope.

Definition notAuthenticated : JsError :=
  {| message := "Not authenticated. Call authenticate() first.";
     response := None |}.

(** [getAuthHeaders()] (salesforce-auth-jwt.js, l.141; salesforce-auth.js,
    l.64).  The headers are kept as the value interpolated after
    [Bearer ]; the content type is fixed. *)
Definition getAuthHeaders : A JsValue :=
  s <- this ;;
  if truthy (accessToken s) then ret (accessToken s)
  else throw notAuthenticated.

(** [async validateSession()] (salesforce-auth-jwt.js, l.155;
    salesforce-auth.js, l.78). *)
Definition validateSession (net : Net) : A bool :=
  s <- this ;;
  if negb (truthy (accessToken s)) || negb (truthy (instanceUrl s))
  then ret false
  else
    try_catch
      (bearer <- getAuthHeaders ;;
       get_ net (GetSObjects (instanceUrl s) bearer) ;;
       ret true)
      (fun error => ret false).

(** [async ensureAuthenticated()] (salesforce-auth-jwt.js, l.175;
    salesforce-auth.js, l.97), over the [authenticate] of the class. *)
Definition ensureAuthenticated (net : Net) (authenticate : A AuthResult)
  : A unit :=
  isValid <- validateSession net ;;
  if negb isValid then authenticate ;; ret tt else ret tt.

End AuthSession.

(* ===================================================================== *)
(** * Authentication: the JWT bearer class and the password class *)
(* ===================================================================== *)

Module AuthJWT.
Import Js Runtime JsExpr AuthRuntime AuthSession.
Local Open Scope auth_scope.

(** [async authenticate()] of [SalesforceAuthJWT]
    (salesforce-auth-jwt.js, l.66).  The log lines of the [try] block call
    [this.accessToken.substring]; those of the [catch] block read
    [error.response.data.error] when the error has a response. *)
Definition authenticate (net : Net) (config : SalesforceAuthJWT.t)
  : A AuthResult :=
  try_catch
    (h <- history ;;
     jwtToken <- lift (SalesforceAuthJWT.createJWT
                         (fs_readFileSync net h) (jwt_sign net h)
                         (Date_now net h) config) ;;
     let tokenUrl :=
       (SalesforceAuthJWT.loginUrl config ++ "/services/oauth2/token")%string in
     response <- post net (PostJwtBearer tokenUrl jwtToken) ;;
     access_token <- lift (getMember (data response) "access_token") ;;
     setAccessToken access_token ;;
     instance_url <- lift (getMember (data response) "instance_url") ;;
     setInstanceUrl instance_url ;;
     lift (substringOf access_token) ;;
     ret {| result_accessToken := access_token;
            result_instanceUrl := instance_url;
            result_success := true |})
    (fun error =>
       match response error with
       | Some r => lift (getMember (data r) "error") ;; throw error
       | None => throw error
       end).

(** The token URL that [authenticate] posts to. *)
Definition tokenUrlOf (config : SalesforceAuthJWT.t) : string :=
  (SalesforceAuthJWT.loginUrl config ++ "/services/oauth2/token")%string.

End AuthJWT.

Module AuthPassword.
Import Js Runtime JsExpr AuthRuntime AuthSession.
Local Open Scope auth_scope.

(** The instance fields of [SalesforceAuth] that [authenticate] reads. *)
Record t : Type := {
  clientId : string;
  clientSecret : string;
  username : string;
  password : string;
  securityToken : string;
  loginUrl : string;
}.

(** [error.response?.data?.error_description]. *)
Definition error_description (error : JsError) : JsValue :=
  match response error with
  | Some r =>
      match data r with
      | VObject fields => get fields "error_description"
      | _ => VUndefined
      end
  | None => VUndefined
  end.

Section Authenticate.
(** The number-to-string conversion of a template literal. *)
Variable Number_toString : float -> string.

(** [async authenticate()] of [SalesforceAuth] (salesforce-auth.js,
    l.20). *)
Definition authenticate (net : Net) (config : t) : A AuthResult :=
  try_catch
    (let authUrl := (loginUrl config ++ "/services/oauth2/token")%string in
     response <- post net
       (PostPassword authUrl (clientId config) (clientSecret config)
                     (username config)
                     (password config ++ securityToken config)%string) ;;
     access_token <- lift (getMember (data response) "access_token") ;;
     setAccessToken access_token ;;
     instance_url <- lift (getMember (data response) "instance_url") ;;
     setInstanceUrl instance_url ;;
     ret {| result_accessToken := access_token;
            result_instanceUrl := instance_url;
            result_success := true |})
    (fun error =>
       let detail :=
         if truthy (error_description error) then error_description error
         else VString (message error) in
       throw {| message :=
                  ("Authentication failed: "
                   ++ CSV.String_ Number_toString detail)%string;
                response := None |}).
End Authenticate.

End AuthPassword.

(* ===================================================================== *)
(** * The file system, [path] and the clock *)
(* ===================================================================== *)

Module FsRuntime.
Import Js Runtime.

(** What a function of the exporter or of a reader does to the outside,
    in order of time: the calls of [fs.promises] and the readings of the
    clock by [new Date()]. *)
Inductive FsEvent : Type :=
| EvMkdir (dir : string)
| EvWriteFile (path content : string)
| EvReadFile (path : string)
| EvNow.

Definition Disk : Type := list FsEvent.

(** The file system, the [path] module and the clock.  Each answer of the
    file system and of the clock may depend on everything that happened
    before; [None] of [fs_mkdir] and [fs_writeFile] is a fulfilled
    promise.  [Date_iso] is [toISOString()] of a new date, [Date_local]
    its [getFullYear()], [getMonth()] and [getDate()]. *)
Record Fs : Type := {
  fs_mkdir : Disk -> string -> option JsError;
  fs_writeFile : Disk -> string -> string -> option JsError;
  fs_readFile : Disk -> string -> JsError + string;
  path_join : string -> string -> string;
  path_dirname : string -> string;
  Date_iso : Disk -> string;
  Date_local : Disk -> nat * nat * nat;
}.

Definition F (T : Type) : Type := Disk -> Completion T * Disk.

Definition ret {T} (x : T) : F T := fun d => (Normal x, d).

Definition bind {T U} (m : F T) (k : T -> F U) : F U :=
  fun d =>
    match m d with
    | (Normal x, d') => k x d'
    | (Throw e, d') => (Throw e, d')
    | (OutOfFuel, d') => (OutOfFuel, d')
    end.

Definition throw {T} (e : JsError) : F T := fun d => (Throw e, d).

Definition try_catch {T} (body : F T) (handler : JsError -> F T) : F T :=
  fun d =>
    match body d with
    | (Throw e, d') => handler e d'
    | r => r
    end.

Definition lift {T} (r : JsError + T) : F T :=
  match r with inl e => throw e | inr x => ret x end.

Definition settled (r : option JsError) : Completion unit :=
  match r with Some e => Throw e | None => Normal tt end.

(** [await fs.mkdir(dir, { recursive: true })]. *)
Definition mkdir (fs : Fs) (dir : string) : F unit :=
  fun d => (settled (fs_mkdir fs d dir), (d ++ [EvMkdir dir])%list).

(** [await fs.writeFile(path, content, 'utf8')]. *)
Definition writeFile (fs : Fs) (path content : string) : F unit :=
  fun d => (settled (fs_writeFile fs d path content),
            (d ++ [EvWriteFile path content])%list).

(** [await fs.readFile(path, 'utf8')]. *)
Definition readFile (fs : Fs) (path : string) : F string :=
  fun d => lift (fs_readFile fs d path) (d ++ [EvReadFile path])%list.

(** [new Date().toISOString()]. *)
Definition now (fs : Fs) : F string :=
  fun d => (Normal (Date_iso fs d), (d ++ [EvNow])%list).

(** [new Date()], read through its three local getters. *)
Definition today (fs : Fs) : F (nat * nat * nat) :=
  fun d => (Normal (Date_local fs d), (d ++ [EvNow])%list).

End FsRuntime.

Declare Scope fs_scope.
Delimit Scope fs_scope with fs.
Notation "x <- m ;; k" := (FsRuntime.bind m (fun x => k))
  (at level 61, m at next level, right associativity) : fs_scope.
Notation "m ;; k" := (FsRuntime.bind m (fun _ => k))
  (at level 61, right associativity) : fs_scope.

(* ===================================================================== *)
(** * The exporter: [exportUpdateResults] and [exportCustomData] *)
(* ===================================================================== *)

Module Exporter.
Import JsString Js Runtime FsRuntime.
Local Open Scope fs_scope.

(** The [options] of [exportUpdateResults]; [None] is a property that is
    absent or undefined, for which the destructuring takes the default. *)
Record ExportOptions : Type := {
  outputDir : option string;
  baseFilename : option string;
  separateFiles : option bool;
  includeTimestamp : option bool;
}.

Definition noOptions : ExportOptions :=
  {| outputDir := None; baseFilename := None;
     separateFiles := None; includeTimestamp := None |}.

(** What [exportUpdateResults] reads of its first argument: the two
    arrays, and four properties that it copies into the summary. *)
Record UpdateResults : Type := {
  totalProcessed : JsValue;
  successful : JsValue;
  failed : JsValue;
  successRate : JsValue;
  successfulUpdates : list JsObject;
  failedUpdates : list JsObject;
}.

(** An element of [exportResults.files]. *)
Record FileEntry : Type := {
  type : string;
  path : string;
  records : nat;
}.

Record ExportResults : Type := {
  files : list FileEntry;
  totalRecords : nat;
  summary : UpdateResults;
}.

(** [s.replace(/[:.]/g, '-')]. *)
Fixpoint dashes (s : string) : string :=
  match s with
  | EmptyString => EmptyString
  | String c rest =>
      String (if Ascii.eqb c ":" || Ascii.eqb c "." then "-"%char else c)
             (dashes rest)
  end.

(** [s.slice(0, -5)]. *)
Definition dropLast5 (s : string) : string :=
  substring 0 (String.length s - 5) s.

(** [{ ...u, [key]: value }] for a key that is not an array index: the
    property keeps its place when [u] has it and comes last when not. *)
Definition withProperty (u : JsObject) (key : string) (value : JsValue)
  : JsObject :=
  JsExpr.set u key value.

Definition successColumns : list string :=
  ["recordId"; "objectType"; "timestamp"; "status"; "updateData"; "metadata"].

Definition failedColumns : list string :=
  ["recordId"; "objectType"; "timestamp"; "status"; "error";
   "updateData"; "metadata"].

Definition allColumns : list string :=
  ["result"; "recordId"; "objectType"; "timestamp"; "status";
   "updateData"; "metadata"; "error"].

(** [files.reduce((sum, file) => sum + file.records, 0)]. *)
Definition sumRecords (files : list FileEntry) : nat :=
  fold_left (fun sum file => sum + records file) files 0.

(** The first argument of [exportCustomData]. *)
Inductive Data : Type :=
| DataNull
| DataUndefined
| DataArray (rows : list JsObject).

Definition arrayOf (data : Data) : option (list JsObject) :=
  match data with DataArray rows => Some rows | _ => None end.

(** [data.length]. *)
Definition lengthOf (data : Data) : JsError + nat :=
  match data with
  | DataArray rows => inr (length rows)
  | DataNull => inl (TypeError "null")
  | DataUndefined => inl (TypeError "undefined")
  end.

(** What [exportCustomData] returns. *)
Record CustomResult : Type := {
  custom_success : bool;
  custom_filePath : string;
  custom_records : nat;
  custom_size : nat;
}.

Section Exporting.

(** The library conversions of [CSV.arrayToCSV], and [Array.prototype.sort]
    with the comparator
    [(a, b) => new Date(a.timestamp) - new Date(b.timestamp)]. *)
Variable JSON_stringify : JsValue -> string.
Variable Number_toString : float -> string.
Variable sortByTimestamp : list JsObject -> list JsObject.
Variable fs : Fs.

Definition arrayToCSV := CSV.arrayToCSV JSON_stringify Number_toString.

(** The branch [if (separateFiles)] (l.92-131); the value is
    [exportResults.files] at its end. *)
Definition exportSeparate (updateResults : UpdateResults)
           (outputDir baseFilename timestamp : string)
  : F (list FileEntry) :=
  files <-
    (if (0 <? length (successfulUpdates updateResults))%nat then
       let successFile :=
         path_join fs outputDir
                   (baseFilename ++ "_successful" ++ timestamp ++ ".csv") in
       let successCSV :=
         arrayToCSV (Some (successfulUpdates updateResults))
                    (Some successColumns) in
       writeFile fs successFile successCSV ;;
       ret [ {| type := "successful"; path := successFile;
                records := length (successfulUpdates updateResults) |} ]
     else ret []) ;;
  (if (0 <? length (failedUpdates updateResults))%nat then
     let failedFile :=
       path_join fs outputDir
                 (baseFilename ++ "_failed" ++ timestamp ++ ".csv") in
     let failedCSV :=
       arrayToCSV (Some (failedUpdates updateResults))
                  (Some failedColumns) in
     writeFile fs failedFile failedCSV ;;
     ret (files ++ [ {| type := "failed"; path := failedFile;
                        records := length (failedUpdates updateResults) |} ])%list
   else ret files).

(** The branch [else] (l.133-158). *)
Definition exportAll (updateResults : UpdateResults)
           (outputDir baseFilename timestamp : string)
  : F (list FileEntry) :=
  let allUpdates :=
    sortByTimestamp
      (map (fun u => withProperty u "result" (VString "success"))
           (successfulUpdates updateResults)
       ++ map (fun u => withProperty u "result" (VString "failed"))
              (failedUpdates updateResults))%list in
  if (0 <? length allUpdates)%nat then
    let allFile :=
      path_join fs outputDir (baseFilename ++ "_all" ++ timestamp ++ ".csv") in
    let allCSV := arrayToCSV (Some allUpdates) (Some allColumns) in
    writeFile fs allFile allCSV ;;
    ret [ {| type := "all"; path := allFile; records := length allUpdates |} ]
  else ret [].

(** [static async exportUpdateResults(updateResults, options = {})]
    (csv-exporter.js, l.68). *)
Definition exportUpdateResults (updateResults : UpdateResults)
           (options : ExportOptions) : F ExportResults :=
  let outputDir := SalesforceUpdater.default "./exports" (outputDir options) in
  let baseFilename :=
    SalesforceUpdater.default "salesforce_updates" (baseFilename options) in
  let separateFiles := SalesforceUpdater.default true (separateFiles options) in
  let includeTimestamp :=
    SalesforceUpdater.default true (includeTimestamp options) in
  try_catch (mkdir fs outputDir) (fun error => throw error) ;;
  timestamp <-
    (if includeTimestamp
     then iso <- now fs ;; ret ("_" ++ dropLast5 (dashes iso))
     else ret EmptyString) ;;
  try_catch
    (files <-
       (if separateFiles
        then exportSeparate updateResults outputDir baseFilename timestamp
        else exportAll updateResults outputDir baseFilename timestamp) ;;
     let summaryFile :=
       path_join fs outputDir
                 (baseFilename ++ "_summary" ++ timestamp ++ ".csv") in
     iso <- now fs ;;
     let summaryData :=
       [ [ ("timestamp", VString iso);
           ("totalProcessed", totalProcessed updateResults);
           ("successful", successful updateResults);
           ("failed", failed updateResults);
           ("successRate", successRate updateResults);
           ("files", VString (join "; " (map path files))) ] ] in
     let summaryCSV := arrayToCSV (Some summaryData) None in
     writeFile fs summaryFile summaryCSV ;;
     let files :=
       (files ++ [ {| type := "summary"; path := summaryFile;
                      records := 1 |} ])%list in
     ret {| files := files;
            totalRecords := sumRecords files;
            summary := updateResults |})
    (fun error => throw error).

(** [static async exportCustomData(data, filePath, columns = null)]
    (csv-exporter.js, l.199).  [data.length] is first read by the
    template of the log line, after the file is written. *)
Definition exportCustomData (data : Data) (filePath : string)
           (columns : option (list string)) : F CustomResult :=
  try_catch
    (let dir := path_dirname fs filePath in
     mkdir fs dir ;;
     let csvContent := arrayToCSV (arrayOf data) columns in
     writeFile fs filePath csvContent ;;
     n <- lift (lengthOf data) ;;
     ret {| custom_success := true;
            custom_filePath := filePath;
            custom_records := n;
            custom_size := String.length csvContent |})
    (fun error => throw error).

End Exporting.

(** The object that the updater returns, as the exporter reads it: each
    outcome with the properties of its object literal, in their order. *)
Definition objectOf (o : Outcome.t) : JsObject :=
  ([("success", VBool (Outcome.success o))]
   ++ match Outcome.workOrderNumber o with
      | Some number => [("workOrderNumber", VString number)]
      | None => []
      end
   ++ [("recordId", Outcome.recordId o);
       ("objectType", VString (Outcome.objectType o));
       ("updateData", Outcome.updateData o);
       ("metadata", VObject (Outcome.metadata o));
       ("timestamp", VString (Outcome.timestamp o))]
   ++ match Outcome.error o with
      | Some e => [("error", e)]
      | None => []
      end
   ++ [("status", Outcome.status o)])%list.

Definition resultsOf (r : Results.t) : UpdateResults :=
  {| totalProcessed := VNumber (JsNumber.ofLength (Results.totalProcessed r));
     successful := VNumber (JsNumber.ofLength (Results.successful r));
     failed := VNumber (JsNumber.ofLength (Results.failed r));
     successRate := VString (Results.successRate r);
     successfulUpdates := map objectOf (Results.successfulUpdates r);
     failedUpdates := map objectOf (Results.failedUpdates r) |}.

End Exporter.

(* ===================================================================== *)
(** * What an export leaves on the disk *)
(* ===================================================================== *)

Module ExportSpec.
Import FsRuntime.

Definition writtenPath (e : FsEvent) : list string :=
  match e with EvWriteFile path _ => [path] | _ => [] end.

(** The paths of the files written, in order of time. *)
Definition written (d : Disk) : list string := flat_map writtenPath d.

Definition writtenFile (e : FsEvent) : list (string * string) :=
  match e with EvWriteFile path content => [(path, content)] | _ => [] end.

(** The files written with their contents, in order of time. *)
Definition writes (d : Disk) : list (string * string) :=
  flat_map writtenFile d.

Definition isChange (e : FsEvent) : bool :=
  match e with
  | EvMkdir _ | EvWriteFile _ _ => true
  | EvReadFile _ | EvNow => false
  end.

(** The directories made and the files written, in order of time. *)
Definition changes (d : Disk) : Disk := filter isChange d.

(** What both branches of [exportUpdateResults] leave: one entry for each
    file written, none of them empty, which together count every outcome
    once. *)
Definition Listed (updateResults : Exporter.UpdateResults) (d d' : Disk)
           (files : list Exporter.FileEntry) : Prop :=
  Exporter.sumRecords files
  = (length (Exporter.successfulUpdates updateResults)
     + length (Exporter.failedUpdates updateResults))%nat /\
  written d' = (written d ++ map Exporter.path files)%list /\
  Forall (fun f => (0 < Exporter.records f)%nat) files.

End ExportSpec.

(* ===================================================================== *)
(** * The orchestrator: [executeUpdateWorkflow] *)
(* ===================================================================== *)

Module Workflow.
Import Js Runtime FsRuntime.

(** A call that drives both an updater and the file system. *)
Definition W (T : Type) : Type :=
  Updater -> World -> Disk -> Completion T * Updater * World * Disk.

Definition ret {T} (x : T) : W T := fun u w d => (Normal x, u, w, d).

Definition bind {T U} (m : W T) (k : T -> W U) : W U :=
  fun u w d =>
    match m u w d with
    | (Normal x, u', w', d') => k x u' w' d'
    | (Throw e, u', w', d') => (Throw e, u', w', d')
    | (OutOfFuel, u', w', d') => (OutOfFuel, u', w', d')
    end.

Definition throw {T} (e : JsError) : W T := fun u w d => (Throw e, u, w, d).

Definition try_catch {T} (body : W T) (handler : JsError -> W T) : W T :=
  fun u w d =>
    match body u w d with
    | (Throw e, u', w', d') => handler e u' w' d'
    | r => r
    end.

(** A method of the updater, awaited. *)
Definition onUpdater {T} (m : M T) : W T :=
  fun u w d => match m u w with (c, u', w') => (c, u', w', d) end.

(** A function of the exporter or of [fs], awaited. *)
Definition onDisk {T} (m : F T) : W T :=
  fun u w d => match m d with (c, d') => (c, u, w, d') end.

End Workflow.

Declare Scope wf_scope.
Delimit Scope wf_scope with wf.
Notation "x <- m ;; k" := (Workflow.bind m (fun x => k))
  (at level 61, m at next level, right associativity) : wf_scope.
Notation "m ;; k" := (Workflow.bind m (fun _ => k))
  (at level 61, right associativity) : wf_scope.

Module Orchestrator.
Import Js Runtime SalesforceUpdater FsRuntime Workflow.
Local Open Scope wf_scope.

(** The first argument of [executeUpdateWorkflow]: an array of update
    objects, an object of key-value pairs given by its entries, [null],
    or a value that is no object. *)
Inductive Updates : Type :=
| UpdatesArray (updateList : list Update.t)
| UpdatesObject (keyValuePairs : JsObject)
| UpdatesNull
| UpdatesNoObject.

(** The [options] of [executeUpdateWorkflow]; [None] is a property left
    undefined. *)
Record WorkflowOptions : Type := {
  batchSize : option Z;
  delayMs : option Z;
  exportOptions : option Exporter.ExportOptions;
}.

(** What [executeUpdateWorkflow] returns; the three last fields are the
    properties of [workflow]. *)
Record WorkflowResults : Type := {
  updateResults : Results.t;
  exportResults : Exporter.ExportResults;
  startTime : string;
  totalDuration : string;
  success : bool;
}.

Definition invalidFormat : JsError :=
  {| message := "Invalid update data format. Provide either an array of update objects or key-value pairs with objectType.";
     response := None |}.

(** The type error of [Object.entries(null)]. *)
Definition noEntries : JsError :=
  {| message := "Cannot convert undefined or null to object";
     response := None |}.

(** The truthiness of [objectType], a string or the default [null]. *)
Definition given (objectType : option string) : option string :=
  match objectType with
  | Some name => if String.eqb name EmptyString then None else Some name
  | None => None
  end.

Section ExecuteUpdateWorkflow.
Variable env : Env.
Variable JSON_stringify : JsValue -> string.
Variable Number_toString : float -> string.
Variable sortByTimestamp : list JsObject -> list JsObject.
Variable fs : Fs.

(** [async executeUpdateWorkflow(updates, objectType = null, options = {})]
    (main-example.js, l.57), on an orchestrator whose updater is
    initialized.  [fuel] bounds the steps of the batch loop. *)
Definition executeUpdateWorkflow (fuel : nat) (updates : Updates)
           (objectType : option string) (options : WorkflowOptions)
  : W WorkflowResults :=
  let batchSize := default 5%Z (batchSize options) in
  let delayMs := default 100%Z (delayMs options) in
  let exportOptions := default Exporter.noOptions (exportOptions options) in
  let inner := Options.make (Some batchSize) (Some delayMs) in
  try_catch
    (results <-
       match updates with
       | UpdatesArray updateList =>
           onUpdater (processUpdates env fuel updateList inner)
       | UpdatesObject keyValuePairs =>
           match given objectType with
           | Some objectType =>
               onUpdater (KeyValueUpdates.processKeyValueUpdates
                            env fuel objectType keyValuePairs inner)
           | None => throw invalidFormat
           end
       | UpdatesNull =>
           match given objectType with
           | Some objectType => throw noEntries
           | None => throw invalidFormat
           end
       | UpdatesNoObject => throw invalidFormat
       end ;;
     exportResults <-
       onDisk (Exporter.exportUpdateResults
                 JSON_stringify Number_toString sortByTimestamp fs
                 (Exporter.resultsOf results) exportOptions) ;;
     startTime <- onDisk (now fs) ;;
     ret {| updateResults := results;
            exportResults := exportResults;
            startTime := startTime;
            totalDuration := "calculated_by_caller";
            success := true |})
    (fun error => throw error).

End ExecuteUpdateWorkflow.

End Orchestrator.

(* ===================================================================== *)
(** * Text: the string and array methods of the readers *)
(* ===================================================================== *)

Module JsText.
Import JsString.

(** [s.split(sep)] for a one-character separator. *)
Fixpoint split (sep : ascii) (s : string) : list string :=
  match s with
  | EmptyString => [EmptyString]
  | String c rest =>
      if Ascii.eqb c sep then EmptyString :: split sep rest
      else match split sep rest with
           | first :: more => String c first :: more
           | [] => [String c EmptyString]
           end
  end.

Fixpoint dropLastQuote (s : string) : string :=
  match s with
  | EmptyString => EmptyString
  | String c EmptyString =>
      if Ascii.eqb c dquote then EmptyString else s
  | String c rest => String c (dropLastQuote rest)
  end.

(** The replacement of a quote character at the start and of one at the
    end by nothing, which the readers apply to a header. *)
Definition stripQuotes (s : string) : string :=
  dropLastQuote
    match s with
    | String c rest => if Ascii.eqb c dquote then rest else s
    | EmptyString => EmptyString
    end.

(** [array.indexOf(x)]; [None] is -1. *)
Fixpoint indexOf (x : string) (l : list string) : option nat :=
  match l with
  | [] => None
  | y :: rest =>
      if String.eqb y x then Some O else option_map S (indexOf x rest)
  end.

(** [values[i]] for an index that [indexOf] gave; [None] is
    [undefined]. *)
Definition at_ (values : list string) (i : option nat) : option string :=
  match i with
  | Some n => nth_error values n
  | None => None
  end.

(** [s.includes(needle)]. *)
Fixpoint includesText (needle s : string) : bool :=
  String.prefix needle s
  || match s with
     | EmptyString => false
     | String _ rest => includesText needle rest
     end.

(** [s.endsWith(suffix)]. *)
Definition endsWith (suffix s : string) : bool :=
  (String.length suffix <=? String.length s)%nat
  && String.eqb (substring (String.length s - String.length suffix)
                           (String.length suffix) s)
                suffix.

(** [s.replace(pattern, replacement)] for a pattern that is a string and
    a replacement without a dollar sign: the first occurrence only. *)
Fixpoint replaceFirst (pattern replacement s : string) : string :=
  if String.prefix pattern s
  then replacement
       ++ substring (String.length pattern)
                    (String.length s - String.length pattern) s
  else match s with
       | EmptyString => EmptyString
       | String c rest => String c (replaceFirst pattern replacement rest)
       end.

(** [s.toLowerCase()] on code units below 256: the letters A to Z, and
    the capital letters of Latin-1 from 192 to 222 but for the
    multiplication sign. *)
Definition lowerChar (c : ascii) : ascii :=
  let n := nat_of_ascii c in
  if ((65 <=? n) && (n <=? 90)
      || (192 <=? n) && (n <=? 222) && negb (n =? 215))%nat
  then ascii_of_nat (n + 32)
  else c.

Fixpoint toLowerCase (s : string) : string :=
  match s with
  | EmptyString => EmptyString
  | String c rest => String (lowerChar c) (toLowerCase rest)
  end.

(** [s.padStart(2, '0')]. *)
Definition padStart2 (s : string) : string :=
  match String.length s with
  | 0 => "00"
  | 1 => "0" ++ s
  | _ => s
  end%nat.

(** An object whose values are all of one kind, by its own properties in
    the order of [Object.entries]: the array indices in ascending order,
    then the other keys in the order of their creation.  [own] is the own
    property of a key; [None] is a key that the object itself lacks. *)
Fixpoint own {V : Type} (obj : list (string * V)) (key : string)
  : option V :=
  match obj with
  | [] => None
  | (k, v) :: rest => if String.eqb k key then Some v else own rest key
  end.

Fixpoint digitsValue (s : string) (acc : N) : option N :=
  match s with
  | EmptyString => Some acc
  | String c rest =>
      let n := nat_of_ascii c in
      if ((48 <=? n) && (n <=? 57))%nat
      then digitsValue rest (10 * acc + N.of_nat (n - 48))%N
      else None
  end.

(** The array index that a key is: the decimal text, without a leading
    zero, of an integer from 0 to 2^32 - 2. *)
Definition arrayIndex (key : string) : option N :=
  match key with
  | EmptyString => None
  | String c rest =>
      if Ascii.eqb c "0"%char && negb (String.eqb rest EmptyString) then None
      else match digitsValue key 0%N with
           | Some n => if (n <? 4294967295)%N then Some n else None
           | None => None
           end
  end.

(** The new value of an own property: the property keeps its place. *)
Fixpoint replace {V : Type} (obj : list (string * V)) (key : string) (v : V)
  : list (string * V) :=
  match obj with
  | [] => []
  | (k, old) :: rest =>
      if String.eqb k key then (k, v) :: rest
      else (k, old) :: replace rest key v
  end.

(** A new property whose key is the array index [n]: it comes after the
    smaller indices and before every other key. *)
Fixpoint insertIndex {V : Type} (n : N) (key : string) (v : V)
         (obj : list (string * V)) : list (string * V) :=
  match obj with
  | [] => [(key, v)]
  | (k, old) :: rest =>
      match arrayIndex k with
      | Some m =>
          if (m <? n)%N then (k, old) :: insertIndex n key v rest
          else (key, v) :: obj
      | None => (key, v) :: obj
      end
  end.

(** [obj[key] = v] on an object whose prototype is [Object.prototype],
    for a value [v] that is not an object: the key [__proto__], when the
    object has no own property of that name, reaches the setter of the
    prototype, which ignores such a value, and the object is left as it
    was. *)
Definition put {V : Type} (obj : list (string * V)) (key : string) (v : V)
  : list (string * V) :=
  match own obj key with
  | Some _ => replace obj key v
  | None =>
      if String.eqb key "__proto__" then obj
      else match arrayIndex key with
           | Some n => insertIndex n key v obj
           | None => (obj ++ [(key, v)])%list
           end
  end.

End JsText.

(* ===================================================================== *)
(** * The extractor: [extractSassieIds] *)
(* ===================================================================== *)

Module SassieIds.
Import JsString Js Runtime JsExpr SalesforceUpdater FsRuntime JsText.
Local Open Scope fs_scope.

(** An element of [sassieData]; [None] of the two last fields is
    [undefined]. *)
Record SassieItem : Type := {
  workOrderName : JsValue;
  workOrderNumber : JsValue;
  sassieId : JsValue;
  sassieSurveyName : JsValue;
  recordId : option string;
  timestamp : option string;
}.

(** [v.p] for a value that is neither [null] nor [undefined]. *)
Definition property (v : JsValue) (p : string) : JsValue :=
  match v with VObject fields => get fields p | _ => VUndefined end.

Definition noMetadataColumn : JsError :=
  {| message := "Metadata column not found in CSV"; response := None |}.

(** The headers of the readers:
    [line.split(',').map(h => h.trim().replace(...))]. *)
Definition headersOf (line : string) : list string :=
  map (fun h => stripQuotes (trim h)) (split comma line).

Section ExtractSassieIds.

(** [JSON.parse] on a string (an array is given as an object without the
    properties that the caller reads), and [JSON.stringify(items, null, 2)]. *)
Variable JSON_parse : string -> JsError + JsValue.
Variable JSON_stringify_items : list SassieItem -> string.
Variable fs : Fs.

(** The body of the loop over the data lines (l.243-264), after the
    line is parsed: what the line adds to [sassieData].
    [JSON.parse(undefined)] throws, as does the read of a property of
    [null]; both are caught. *)
Definition itemsOfValues (headers : list string) (metadataIndex : nat)
           (values : list string) : list SassieItem :=
  match nth_error values metadataIndex with
  | None => []
  | Some metadataStr =>
      match JSON_parse metadataStr with
      | inl parseError => []
      | inr metadata =>
          match getMember metadata "sassieId" with
          | inl typeError => []
          | inr id =>
              if truthy id then
                [ {| workOrderName := property metadata "workOrderName";
                     workOrderNumber := property metadata "workOrderNumber";
                     sassieId := id;
                     sassieSurveyName :=
                       or_else (property metadata "sassieSurveyName") VNull;
                     recordId := at_ values (indexOf "recordId" headers);
                     timestamp := at_ values (indexOf "timestamp" headers) |} ]
              else []
          end
      end
  end.

Definition itemsOfLine (headers : list string) (metadataIndex : nat)
           (line : string) : list SassieItem :=
  itemsOfValues headers metadataIndex (CSV.parseCSVLine line).

(** [async function extractSassieIds(successfulUpdatesFile)]
    (extract-sassie-ids.js, l.216). *)
Definition extractSassieIds (successfulUpdatesFile : string)
  : F (list SassieItem) :=
  try_catch
    (content <- readFile fs successfulUpdatesFile ;;
     let lines := split lf (trim content) in
     if (length lines <? 2)%nat then ret []
     else
       let headers := headersOf (hd EmptyString lines) in
       match indexOf "metadata" headers with
       | None => throw noMetadataColumn
       | Some metadataIndex =>
           let sassieData :=
             flat_map (itemsOfLine headers metadataIndex) (tl lines) in
           let outputFile :=
             replaceFirst ".csv" "_sassie_ids.json" successfulUpdatesFile in
           writeFile fs outputFile (JSON_stringify_items sassieData) ;;
           ret sassieData
       end)
    (fun error => throw error).

End ExtractSassieIds.

End SassieIds.

(* ===================================================================== *)
(** * The Vimeo integration: [VimeoSalesforceIntegration] *)
(* ===================================================================== *)

Module Vimeo.
Import JsString Js Runtime JsExpr SalesforceUpdater FsRuntime JsText.

(** A record of a Vimeo export: an object whose values are strings, as
    [readCSV] builds it. *)
Definition VimeoRecord : Type := list (string * string).

(** The name of a field that the integration reads in a Vimeo record:
    a string that names no member of [Object.prototype], so that what the
    record gives under it is a property of its own or undefined. *)
Record FieldName : Type := {
  fieldName : string;
  namesNoMember : inherited fieldName = VUndefined;
}.

Definition work_order_name : FieldName :=
  {| fieldName := "work_order_name"; namesNoMember := eq_refl |}.

(** [this.fieldMapping]: Vimeo field to Salesforce field, by its entries
    in the order of [Object.entries]. *)
Definition FieldMapping : Type := list (FieldName * string).

(** [getDefaultFieldMapping()] (vimeo-to-salesforce.js, l.377). *)
Definition getDefaultFieldMapping : FieldMapping :=
  [ ({| fieldName := "embedUrl"; namesNoMember := eq_refl |},
     "Video_Link_Vimeo__c");
    ({| fieldName := "reviewPage"; namesNoMember := eq_refl |},
     "Vimeo_Downloadable_Link__c");
    ({| fieldName := "created"; namesNoMember := eq_refl |},
     "Date_Delivered__c") ].

Definition objectOfRecord (r : list (string * string)) : JsObject :=
  map (fun kv => (fst kv, VString (snd kv))) r.

(** [vimeoRecord[name]]: the string that [get] finds among the
    properties of the record; [None] is undefined, the one other value
    that a name of no member of [Object.prototype] can give. *)
Definition read (vimeoRecord : VimeoRecord) (name : FieldName)
  : option string :=
  match get (objectOfRecord vimeoRecord) (fieldName name) with
  | VString value => Some value
  | _ => None
  end.

Definition emptyCSV : JsError :=
  {| message := "CSV file is empty or has no data rows"; response := None |}.

Definition unsupportedFormat : JsError :=
  {| message := "Unsupported file format. Use .csv or .json";
     response := None |}.

Definition identifierNotFound (workOrderIdentifier : string) : JsError :=
  {| message := "Work Order identifier '" ++ workOrderIdentifier
                ++ "' not found in Vimeo record";
     response := None |}.

(** [record[header] = values[index] || ''] for every header in turn. *)
Fixpoint recordOf (headers values : list string) (index : nat)
         (record : VimeoRecord) : VimeoRecord :=
  match headers with
  | [] => record
  | header :: rest =>
      recordOf rest values (S index)
               (put record header (nth index values EmptyString))
  end.

(** What [JSON.parse] gives [readJSON]: an array of records, an object
    whose [data] is an array of records, [null], or another value, of
    which [data.data] is undefined or falsy. *)
Inductive Parsed : Type :=
| ParsedArray (records : list VimeoRecord)
| ParsedData (records : list VimeoRecord)
| ParsedNull
| ParsedOther.

(** The [options] of [processVimeoExport]; [None] is a property left
    undefined. *)
Record VimeoOptions : Type := {
  workOrderIdentifier : option FieldName;
  batchSize : option Z;
  delayMs : option Z;
  dryRun : option bool;
  exportResults : option bool;
  exportDir : option string;
}.

Definition noOptions : VimeoOptions :=
  {| workOrderIdentifier := None; batchSize := None; delayMs := None;
     dryRun := None; exportResults := None; exportDir := None |}.

(** An element of [transformErrors]. *)
Record TransformError : Type := {
  index : nat;
  record : VimeoRecord;
  error : string;
}.

(** The three objects that [processVimeoExport] returns: when no record
    could be transformed, after a dry run, and after the updates. *)
Inductive VimeoResult : Type :=
| NothingToProcess (totalRecords transformed transformErrors processed : nat)
| DryRun (totalRecords transformed transformErrors : nat)
         (sampleUpdates : list WorkOrderUpdate.t)
| Processed (totalRecords transformed transformErrors : nat)
            (salesforceResults : Results.t)
            (summary_success summary_failed : nat)
            (summary_successRate : string).

Section Integration.
Variable env : Env.
Variable JSON_stringify : JsValue -> string.
Variable Number_toString : float -> string.
Variable sortByTimestamp : list JsObject -> list JsObject.
Variable JSON_parse : string -> JsError + Parsed.
Variable fs : Fs.

Local Open Scope fs_scope.

(** [async readCSV(filePath)] (l.399). *)
Definition readCSV (filePath : string) : F (list VimeoRecord) :=
  try_catch
    (content <- readFile fs filePath ;;
     let lines := split lf (trim content) in
     if (length lines <? 2)%nat then throw emptyCSV
     else
       let headers := SassieIds.headersOf (hd EmptyString lines) in
       ret (map (fun line => recordOf headers (CSV.parseCSVLine line) 0 [])
                (tl lines)))
    (fun error => throw error).

(** [async readJSON(filePath)] (l.471). *)
Definition readJSON (filePath : string) : F (list VimeoRecord) :=
  try_catch
    (content <- readFile fs filePath ;;
     data <- lift (JSON_parse content) ;;
     match data with
     | ParsedArray records => ret records
     | ParsedData records => ret records
     | ParsedNull => throw (TypeError "null")
     | ParsedOther => ret []
     end)
    (fun error => throw error).

(** The date of today as [YYYY-MM-DD], from the getters of a date. *)
Definition formatDate (date : nat * nat * nat) : string :=
  match date with
  | (year, month, day) =>
      JsNumber.decimal (Z.of_nat year) ++ "-"
      ++ padStart2 (JsNumber.decimal (Z.of_nat (month + 1))) ++ "-"
      ++ padStart2 (JsNumber.decimal (Z.of_nat day))
  end.

(** The body of the loop over the entries of the field mapping
    (l.511-527). *)
Definition mapField (vimeoRecord : VimeoRecord) (todayFormatted : string)
           (updateData : list (string * string)) (entry : FieldName * string)
  : list (string * string) :=
  let (vimeoField, salesforceField) := entry in
  match read vimeoRecord vimeoField with
  | None => updateData
  | Some value =>
      if String.eqb value EmptyString then updateData
      else
        let value :=
          if includesText "date" (toLowerCase salesforceField)
          then todayFormatted else value in
        put updateData salesforceField value
  end.

(** [transformRecord(vimeoRecord, workOrderIdentifier = 'work_order_name')]
    (l.493), with [this.fieldMapping] as first argument. *)
Definition transformRecord (fieldMapping : FieldMapping)
           (vimeoRecord : VimeoRecord) (workOrderIdentifier : option FieldName)
  : F WorkOrderUpdate.t :=
  let workOrderIdentifier := default work_order_name workOrderIdentifier in
  match read vimeoRecord workOrderIdentifier with
  | None => throw (identifierNotFound (fieldName workOrderIdentifier))
  | Some workOrderName =>
      if String.eqb workOrderName EmptyString
      then throw (identifierNotFound (fieldName workOrderIdentifier))
      else
        date <- today fs ;;
        let todayFormatted := formatDate date in
        let updateData :=
          fold_left (mapField vimeoRecord todayFormatted) fieldMapping [] in
        processedAt <- now fs ;;
        ret {| WorkOrderUpdate.workOrderNumber := workOrderName;
               WorkOrderUpdate.updateData := VObject (objectOfRecord updateData);
               WorkOrderUpdate.metadata :=
                 Some [ ("source", VString "vimeo_export");
                        ("processedAt", VString processedAt);
                        ("originalRecord",
                         VObject (objectOfRecord vimeoRecord)) ] |}
  end.

(** The loop over [vimeoRecords.entries()] (l.581-592), from the record
    of number [index] on. *)
Fixpoint transformAll (fieldMapping : FieldMapping)
         (workOrderIdentifier : FieldName) (vimeoRecords : list VimeoRecord)
         (index : nat) (updates : list WorkOrderUpdate.t)
         (transformErrors : list TransformError)
  : F (list WorkOrderUpdate.t * list TransformError) :=
  match vimeoRecords with
  | [] => ret (updates, transformErrors)
  | record :: rest =>
      step <-
        try_catch
          (transformed <-
             transformRecord fieldMapping record (Some workOrderIdentifier) ;;
           ret (updates ++ [transformed], transformErrors)%list)
          (fun error =>
             ret (updates,
                  transformErrors
                    ++ [ {| index := index; record := record;
                            error := message error |} ])%list) ;;
      transformAll fieldMapping workOrderIdentifier rest (S index)
                   (fst step) (snd step)
  end.

Local Open Scope wf_scope.

(** Step 1 of [processVimeoExport] (l.564-572): the records of the
    file, by its extension. *)
Definition readExport (filePath : string) : Workflow.W (list VimeoRecord) :=
  if endsWith ".json" filePath then Workflow.onDisk (readJSON filePath)
  else if endsWith ".csv" filePath then Workflow.onDisk (readCSV filePath)
  else Workflow.throw unsupportedFormat.

(** Steps 2 to 6 of [processVimeoExport] (l.574-678), with
    [this.fieldMapping] as first argument and the options after their
    defaults. *)
Definition processRecords (fieldMapping : FieldMapping) (fuel : nat)
           (workOrderIdentifier : FieldName) (batchSize delayMs : Z)
           (dryRun exportResults : bool) (exportDir : string)
           (vimeoRecords : list VimeoRecord) : Workflow.W VimeoResult :=
  transformed <-
    Workflow.onDisk (transformAll fieldMapping workOrderIdentifier
                                  vimeoRecords 0 [] []) ;;
  let updates := fst transformed in
  let transformErrors := snd transformed in
  if (length updates =? 0)%nat then
    Workflow.ret (NothingToProcess (length vimeoRecords) 0
                                   (length transformErrors) 0)
  else if dryRun then
    Workflow.ret (DryRun (length vimeoRecords) (length updates)
                         (length transformErrors) (firstn 5 updates))
  else
    results <-
      Workflow.onUpdater (processWorkOrderUpdates
                            env fuel updates
                            (Options.make (Some batchSize) (Some delayMs))) ;;
    (if exportResults then
       Workflow.onDisk (Exporter.exportUpdateResults
                          JSON_stringify Number_toString sortByTimestamp fs
                          (Exporter.resultsOf results)
                          {| Exporter.outputDir := Some exportDir;
                             Exporter.baseFilename :=
                               Some "vimeo_salesforce_sync";
                             Exporter.separateFiles := Some true;
                             Exporter.includeTimestamp := Some true |}) ;;
       Workflow.ret tt
     else Workflow.ret tt) ;;
    Workflow.ret (Processed (length vimeoRecords) (length updates)
                            (length transformErrors) results
                            (Results.successful results)
                            (Results.failed results)
                            (Results.successRate results)).

(** [async processVimeoExport(filePath, options = {})] (l.546), with
    [this.fieldMapping] as first argument.  [fuel] bounds the steps of
    the batch loop. *)
Definition processVimeoExport (fieldMapping : FieldMapping) (fuel : nat)
           (filePath : string) (options : VimeoOptions)
  : Workflow.W VimeoResult :=
  let workOrderIdentifier :=
    default work_order_name (workOrderIdentifier options) in
  let batchSize := default 5%Z (batchSize options) in
  let delayMs := default 100%Z (delayMs options) in
  let dryRun := default false (dryRun options) in
  let exportResults := default true (exportResults options) in
  let exportDir := default "./exports" (exportDir options) in
  Workflow.try_catch
    (vimeoRecords <- readExport filePath ;;
     processRecords fieldMapping fuel workOrderIdentifier batchSize delayMs
                    dryRun exportResults exportDir vimeoRecords)
    (fun error => Workflow.throw error).

End Integration.

End Vimeo.

(* ===================================================================== *)
(** * What the readers and the integration are expected to do *)
(* ===================================================================== *)

Module VimeoSpec.
Import JsString Js Runtime FsRuntime JsText.

(** A Salesforce field that the integration takes for a date. *)
Definition isDateField (salesforceField : string) : bool :=
  includesText "date" (toLowerCase salesforceField).

(** The value of a property of the record itself that is not the empty
    string. *)
Definition present (r : list (string * string)) (key : string)
  : option string :=
  match own r key with
  | Some value => if String.eqb value EmptyString then None else Some value
  | None => None
  end.

(** A property of [updateData] that comes from an entry of the field
    mapping whose Vimeo field the record fills: it carries the date of
    today when the Salesforce field is a date field and the value of the
    record when not. *)
Definition Mapped (fieldMapping : Vimeo.FieldMapping)
           (vimeoRecord : list (string * string)) (todayFormatted : string)
           (property : string * string) : Prop :=
  exists vimeoField value,
    In (vimeoField, fst property) fieldMapping /\
    present vimeoRecord (Vimeo.fieldName vimeoField) = Some value /\
    snd property = if isDateField (fst property)
                   then todayFormatted else value.

(** The three counts that every result of [processVimeoExport] gives:
    records read, records transformed, records that failed to
    transform. *)
Definition counts (r : Vimeo.VimeoResult) : nat * nat * nat :=
  match r with
  | Vimeo.NothingToProcess total transformed errors _ =>
      (total, transformed, errors)
  | Vimeo.DryRun total transformed errors _ => (total, transformed, errors)
  | Vimeo.Processed total transformed errors _ _ _ _ =>
      (total, transformed, errors)
  end.

End VimeoSpec.

(* ===================================================================== *)
(** * From the exporter to the extractor *)
(* ===================================================================== *)

Module PipelineSpec.
Import JsString Js.



Section ReadBack.
Variable JSON_stringify : JsValue -> string.
Variable Number_toString : float -> string.


End ReadBack.

End PipelineSpec.

(* ===================================================================== *)
(** * More sample inputs *)
(* ===================================================================== *)

Module MoreSamples.
Import Js Runtime.

(** Two accounts to rename, by record id. *)
Definition renames : JsObject :=
  [ ("001A", VObject [("Name", VString "Acme")]);
    ("bad", VObject [("Name", VString "Globex")]) ].

(** A failure of the network: an error without a response. *)
Definition offline : JsError :=
  {| message := "connect ETIMEDOUT"; response := None |}.

(** The world of [Samples.env] with the network down for every PATCH. *)
Definition envOffline : Env :=
  {| auth_ensureAuthenticated := auth_ensureAuthenticated Samples.env;
     auth_instanceUrl := auth_instanceUrl Samples.env;
     auth_getAuthHeaders := auth_getAuthHeaders Samples.env;
     axios_patch := fun _ _ _ _ => inl offline;
     axios_get := axios_get Samples.env;
     Date_toISOString := Date_toISOString Samples.env;
     scheduler := scheduler Samples.env |}.

(** The world of [Samples.env] with the query endpoint down. *)
Definition envDown : Env :=
  {| auth_ensureAuthenticated := auth_ensureAuthenticated Samples.env;
     auth_instanceUrl := auth_instanceUrl Samples.env;
     auth_getAuthHeaders := auth_getAuthHeaders Samples.env;
     axios_patch := axios_patch Samples.env;
     axios_get := fun _ _ _ _ _ => inl offline;
     Date_toISOString := Date_toISOString Samples.env;
     scheduler := scheduler Samples.env |}.

(** A token endpoint that answers every request with the same token, a
    probe that accepts every session, a signer as in [Samples]. *)
Definition tokenResponse : HttpResponse :=
  {| data := VObject [("access_token", VString "00Dxx!token");
                      ("instance_url", VString "https://example.my.salesforce.com");
                      ("token_type", VString "Bearer")];
     status := VNumber 200%float |}.

Definition net : AuthRuntime.Net :=
  {| AuthRuntime.axios_post := fun _ _ => inr tokenResponse;
     AuthRuntime.axios_get := fun _ _ => inr tokenResponse;
     AuthRuntime.fs_readFileSync := fun _ => Samples.noFile;
     AuthRuntime.jwt_sign := fun _ => Samples.signer;
     AuthRuntime.Date_now := fun _ => 1761215400123%Z |}.

(** A connected app configured with neither key nor path. *)
Definition keyless : SalesforceAuthJWT.t :=
  {| SalesforceAuthJWT.clientId := "3MVG9consumerkey";
     SalesforceAuthJWT.username := "integration@example.com";
     SalesforceAuthJWT.privateKey := None;
     SalesforceAuthJWT.privateKeyPath := None;
     SalesforceAuthJWT.loginUrl := "https://login.salesforce.com" |}.

(** A session that is signed in. *)
Definition signedIn : AuthRuntime.Session :=
  {| AuthRuntime.accessToken := VString "00Dxx!token";
     AuthRuntime.instanceUrl := VString "https://example.my.salesforce.com" |}.

(** A token endpoint that refuses the grant. *)
Definition invalidGrant : JsError :=
  {| message := "Request failed with status code 400";
     response :=
       Some {| data := VObject [("error", VString "invalid_grant");
                                ("error_description",
                                 VString "authentication failure")];
               status := VNumber 400%float |} |}.

Definition netRefusing : AuthRuntime.Net :=
  {| AuthRuntime.axios_post := fun _ _ => inl invalidGrant;
     AuthRuntime.axios_get := fun _ _ => inl invalidGrant;
     AuthRuntime.fs_readFileSync := fun _ => Samples.noFile;
     AuthRuntime.jwt_sign := fun _ => Samples.signer;
     AuthRuntime.Date_now := fun _ => 1761215400123%Z |}.

Definition passwordLogin : AuthPassword.t :=
  {| AuthPassword.clientId := "3MVG9consumerkey";
     AuthPassword.clientSecret := "secret";
     AuthPassword.username := "integration@example.com";
     AuthPassword.password := "pass";
     AuthPassword.securityToken := "TOKEN";
     AuthPassword.loginUrl := "https://login.salesforce.com" |}.

(** A disk that takes everything, a [path] module that joins with a
    slash and cuts at the last one, and a clock that has stopped. *)
Fixpoint beforeLastSlash (s : string) : string :=
  match s with
  | EmptyString => EmptyString
  | String c rest =>
      if JsString.includes "/"%char rest
      then String c (beforeLastSlash rest)
      else EmptyString
  end.

Definition disk : FsRuntime.Fs :=
  {| FsRuntime.fs_mkdir := fun _ _ => None;
     FsRuntime.fs_writeFile := fun _ _ _ => None;
     FsRuntime.fs_readFile := fun _ _ =>
       inl {| message := "ENOENT"; response := None |};
     FsRuntime.path_join := fun a b => (a ++ "/" ++ b)%string;
     FsRuntime.path_dirname := beforeLastSlash;
     FsRuntime.Date_iso := fun _ => "2025-10-23T10:30:00.000Z";
     FsRuntime.Date_local := fun _ => (2025, 9, 23)%nat |}.

(** A disk on which no directory can be made. *)
Definition readOnly : JsError :=
  {| message := "EROFS: read-only file system"; response := None |}.

Definition diskReadOnly : FsRuntime.Fs :=
  {| FsRuntime.fs_mkdir := fun _ _ => Some readOnly;
     FsRuntime.fs_writeFile := fun _ _ _ => Some readOnly;
     FsRuntime.fs_readFile := FsRuntime.fs_readFile disk;
     FsRuntime.path_join := FsRuntime.path_join disk;
     FsRuntime.path_dirname := FsRuntime.path_dirname disk;
     FsRuntime.Date_iso := FsRuntime.Date_iso disk;
     FsRuntime.Date_local := FsRuntime.Date_local disk |}.

(** Two outcomes of an earlier run, as the exporter reads them. *)
Definition exported : Exporter.UpdateResults :=
  {| Exporter.totalProcessed := VNumber 2%float;
     Exporter.successful := VNumber 1%float;
     Exporter.failed := VNumber 1%float;
     Exporter.successRate := VString "50.00%";
     Exporter.successfulUpdates :=
       map Exporter.objectOf (successfulUpdates Samples.used);
     Exporter.failedUpdates :=
       map Exporter.objectOf (failedUpdates Samples.used) |}.

(** A sort that finds its input in order. *)
Definition inOrder (l : list JsObject) : list JsObject := l.

(** The options of a workflow in groups of two, without a time stamp in
    the file names. *)
Definition inPairs : Orchestrator.WorkflowOptions :=
  {| Orchestrator.batchSize := Some 2%Z;
     Orchestrator.delayMs := None;
     Orchestrator.exportOptions :=
       Some {| Exporter.outputDir := Some "out";
               Exporter.baseFilename := None;
               Exporter.separateFiles := None;
               Exporter.includeTimestamp := Some false |} |}.

(** A Vimeo export of three rows: the second names no Work Order. *)
Definition vimeoCSV : string :=
  "work_order_name,embedUrl,created" ++ String JsString.lf
  ("WO-1,https://player.vimeo.com/video/1,2024-01-05" ++ String JsString.lf
  (",https://player.vimeo.com/video/2,2024-01-06" ++ String JsString.lf
  "WO-404,,2024-01-07")).

(** A disk as [disk] that holds [vimeoCSV] at every path. *)
Definition diskWithExport : FsRuntime.Fs :=
  {| FsRuntime.fs_mkdir := FsRuntime.fs_mkdir disk;
     FsRuntime.fs_writeFile := FsRuntime.fs_writeFile disk;
     FsRuntime.fs_readFile := fun _ _ => inr vimeoCSV;
     FsRuntime.path_join := FsRuntime.path_join disk;
     FsRuntime.path_dirname := FsRuntime.path_dirname disk;
     FsRuntime.Date_iso := FsRuntime.Date_iso disk;
     FsRuntime.Date_local := FsRuntime.Date_local disk |}.

Definition noJSON (content : string) : JsError + Vimeo.Parsed :=
  inl {| message := "Unexpected token"; response := None |}.

Definition firstRecord : Vimeo.VimeoRecord :=
  [ ("work_order_name", "WO-1");
    ("embedUrl", "https://player.vimeo.com/video/1");
    ("created", "2024-01-05") ].

Definition dryRunOptions : Vimeo.VimeoOptions :=
  {| Vimeo.workOrderIdentifier := None; Vimeo.batchSize := None;
     Vimeo.delayMs := None; Vimeo.dryRun := Some true;
     Vimeo.exportResults := None; Vimeo.exportDir := None |}.

(** A field mapping with a date field and a field that is none. *)
Definition fullRun : Vimeo.VimeoOptions :=
  {| Vimeo.workOrderIdentifier := None; Vimeo.batchSize := Some 2%Z;
     Vimeo.delayMs := Some 0%Z; Vimeo.dryRun := None;
     Vimeo.exportResults := None; Vimeo.exportDir := Some "out" |}.

(** A file of successful updates with two rows: the metadata of the
    first holds a SASSIE id, the one of the second is no JSON. *)
Definition successfulCSV : string :=
  "recordId,timestamp,metadata" ++ String JsString.lf
  ("a0X1,2025-10-23T10:30:00.000Z,M1" ++ String JsString.lf
  "a0X2,2025-10-23T10:30:01.000Z,M2").

Definition diskWithSuccesses : FsRuntime.Fs :=
  {| FsRuntime.fs_mkdir := FsRuntime.fs_mkdir disk;
     FsRuntime.fs_writeFile := FsRuntime.fs_writeFile disk;
     FsRuntime.fs_readFile := fun _ _ => inr successfulCSV;
     FsRuntime.path_join := FsRuntime.path_join disk;
     FsRuntime.path_dirname := FsRuntime.path_dirname disk;
     FsRuntime.Date_iso := FsRuntime.Date_iso disk;
     FsRuntime.Date_local := FsRuntime.Date_local disk |}.

(** A stand-in for [JSON.parse], right on the two cells of
    [successfulCSV]. *)
Definition parseMetadata (text : string) : JsError + JsValue :=
  if String.eqb text "M1"
  then inr (VObject [("workOrderName", VString "WO-1");
                     ("sassieId", VString "S-77")])
  else inl {| message := "Unexpected token M"; response := None |}.

Definition itemsText (items : list SassieIds.SassieItem) : string :=
  "[...]".




End MoreSamples.

(* ===================================================================== *)
(** * Facts *)
(* ===================================================================== *)

Module CSVFacts.
Import JsString CSV.

Lemma append_empty_r (s : string) : s ++ EmptyString = s.
Proof. induction s as [|c s IH]; simpl; [reflexivity | now rewrite IH]. Qed.

Lemma append_assoc (a b c : string) : (a ++ b) ++ c = a ++ (b ++ c).
Proof. induction a as [|x a IH]; simpl; [reflexivity | now rewrite IH]. Qed.

Lemma push_char_append (cur : string) (c : ascii) (s : string) :
  push_char cur c ++ s = cur ++ String c s.
Proof. unfold push_char. now rewrite append_assoc. Qed.

(** Inside a quoted field the parser undoes the doubling of quotes and
    stops at the closing quote. *)
Lemma parse_quoted_body (s : string) :
  forall values current,
    parseCSVLine_from (doubleQuotes s ++ String dquote EmptyString)
                      values current true
    = (values ++ [trim (current ++ s)])%list.
Proof.
  induction s as [|c s IH]; intros values current.
  - simpl. now rewrite append_empty_r.
  - simpl. destruct (Ascii.eqb c dquote) eqn:E.
    + apply Ascii.eqb_eq in E. subst c.
      cbn [append parseCSVLine_from].
      rewrite Ascii.eqb_refl. cbn [andb].
      rewrite IH. now rewrite push_char_append.
    + cbn [append parseCSVLine_from]. rewrite E.
      rewrite andb_false_r.
      rewrite IH. now rewrite push_char_append.
Qed.

(** A field without comma or quote is read as one value. *)
Lemma parse_plain (s : string) :
  includes comma s = false -> includes dquote s = false ->
  forall values current inQuotes,
    parseCSVLine_from s values current inQuotes
    = (values ++ [trim (current ++ s)])%list.
Proof.
  induction s as [|c s IH]; intros Hc Hq values current inQuotes.
  - simpl. now rewrite append_empty_r.
  - simpl in Hc, Hq.
    apply orb_false_iff in Hc as [Hc1 Hc2].
    apply orb_false_iff in Hq as [Hq1 Hq2].
    cbn [parseCSVLine_from]. rewrite Hq1, Hc1. cbn [andb].
    rewrite IH by assumption. now rewrite push_char_append.
Qed.

(** What the parser returns on an escaped field, whatever the field. *)
Lemma parse_escape (s : string) :
  parseCSVLine (escapeCSVValue s) = [trim s].
Proof.
  unfold parseCSVLine, escapeCSVValue.
  destruct (includes comma s || includes dquote s
            || includes lf s || includes cr s) eqn:E.
  - cbn [parseCSVLine_from]. rewrite Ascii.eqb_refl.
    destruct (doubleQuotes s ++ String dquote EmptyString) eqn:D.
    + destruct s; simpl in D; try discriminate.
      destruct (Ascii.eqb a dquote); discriminate.
    + rewrite <- D. cbn [andb negb]. now rewrite parse_quoted_body.
  - apply orb_false_iff in E as [E _].
    apply orb_false_iff in E as [E _].
    apply orb_false_iff in E as [E1 E2].
    now rewrite parse_plain.
Qed.

(** ** Trimming *)

Lemma length_trimStart (s : string) :
  (String.length (trimStart s) <= String.length s)%nat.
Proof.
  induction s as [|c s IH]; cbn [trimStart]; [lia|].
  destruct (isWhiteSpace c); cbn [String.length]; lia.
Qed.

Lemma length_trimEnd (s : string) :
  (String.length (trimEnd s) <= String.length s)%nat.
Proof.
  induction s as [|c s IH]; cbn [trimEnd]; [lia|].
  destruct (trimEnd s); [destruct (isWhiteSpace c)|];
    cbn [String.length] in *; lia.
Qed.

Lemma trimEnd_fixed (s : string) :
  trimEnd s = s <-> endsWithWhiteSpace s = false.
Proof.
  induction s as [|c s IH]; [split; reflexivity|].
  cbn [trimEnd endsWithWhiteSpace].
  destruct s as [|d s].
  - cbn [trimEnd]. destruct (isWhiteSpace c); split; congruence.
  - destruct (trimEnd (String d s)) as [|e t] eqn:E.
    + split; intro H.
      * destruct (isWhiteSpace c); discriminate.
      * apply IH in H. congruence.
    + rewrite <- IH. split; intro H; congruence.
Qed.

Lemma trim_fixed (s : string) :
  trim s = s <->
  startsWithWhiteSpace s = false /\ endsWithWhiteSpace s = false.
Proof.
  unfold trim. destruct s as [|c s]; [split; [split|]; reflexivity|].
  cbn [trimStart startsWithWhiteSpace].
  destruct (isWhiteSpace c) eqn:Hc.
  - split; [|intros [H _]; discriminate].
    intros H. exfalso.
    pose proof (length_trimEnd (trimStart s)) as H1.
    pose proof (length_trimStart s) as H2.
    rewrite H in H1. cbn [String.length] in H1. lia.
  - rewrite trimEnd_fixed. tauto.
Qed.

(** The reader on sample lines. *)
Example trim_both_ends : trim "  a b  " = "a b".
Proof. reflexivity. Qed.

Example parseCSVLine_three_fields :
  parseCSVLine (escapeCSVValue "x" ++ "," ++ escapeCSVValue Samples.quotation
                ++ "," ++ escapeCSVValue " y ")
  = ["x"; Samples.quotation; "y"].
Proof. reflexivity. Qed.

(** ** Reading back a whole row *)






(** The code's test for quoting is the specification's. *)
Lemma hasSpecial_includes (s : string) :
  CSVSpec.hasSpecial s
  = includes comma s || includes dquote s || includes lf s || includes cr s.
Proof.
  induction s as [|c s IH]; [reflexivity|].
  cbn [CSVSpec.hasSpecial includes]. rewrite IH. unfold CSVSpec.isSpecial.
  destruct (Ascii.eqb c comma), (Ascii.eqb c dquote), (Ascii.eqb c lf),
    (Ascii.eqb c cr), (includes comma s), (includes dquote s),
    (includes lf s), (includes cr s); reflexivity.
Qed.

(** The code's replacement of the quotes is the doubling of the
    specification. *)
Lemma doubleQuotes_doubled (s : string) :
  doubleQuotes s = CSVSpec.doubled s.
Proof.
  unfold CSVSpec.doubled.
  induction s as [|c s IH]; [reflexivity|].
  cbn [doubleQuotes list_ascii_of_string flat_map]. rewrite IH.
  destruct (Ascii.eqb c dquote) eqn:E; [|reflexivity].
  apply Ascii.eqb_eq in E. subst c. reflexivity.
Qed.

Lemma escapeCSVValue_escaped (s : string) :
  escapeCSVValue s = CSVSpec.escaped s.
Proof.
  unfold escapeCSVValue, CSVSpec.escaped, CSVSpec.quoted.
  now rewrite hasSpecial_includes, doubleQuotes_doubled.
Qed.

Lemma get_field (record : Js.JsObject) (name : string) :
  Js.get record name
  = match CSVSpec.field record name with
    | Some v => v
    | None => Js.VUndefined
    end.
Proof.
  induction record as [|[k v] rest IH].
  - cbn [Js.get CSVSpec.field].
    unfold Js.inherited, CSVSpec.inheritedField.
    destruct (String.eqb name "constructor"); [reflexivity|].
    destruct (String.eqb name "__proto__"); [reflexivity|].
    now destruct (existsb (String.eqb name) Js.prototypeMethods).
  - cbn [Js.get CSVSpec.field]. now destruct (String.eqb k name).
Qed.

Lemma csvCell_text (J : Js.JsValue -> string) (N : float -> string)
      (record : Js.JsObject) (h : string) :
  csvCell J N record h
  = CSVSpec.escaped (CSVSpec.text J N (CSVSpec.field record h)).
Proof.
  unfold csvCell. rewrite get_field, escapeCSVValue_escaped.
  destruct (CSVSpec.field record h) as [[| |[|]| | | | |]|]; reflexivity.
Qed.

Lemma csvRow_row (J : Js.JsValue -> string) (N : float -> string)
      (headers : list string) (record : Js.JsObject) :
  csvRow J N headers record = CSVSpec.row J N headers record.
Proof.
  unfold csvRow, CSVSpec.row. f_equal.
  apply map_ext. intro h. apply csvCell_text.
Qed.

(** ** C3 *)

(** C3, as stated, fails: the string [" a,b"] contains a comma, and the
    parser returns it without its leading space. *)
Lemma C3_roundtrip_counterexample :
  includes comma " a,b" = true /\
  parseCSVLine (escapeCSVValue " a,b") <> [" a,b"].
Proof. split; [reflexivity | vm_compute; discriminate]. Qed.

(** C3, amended: for every string [s] that contains a comma, a quote
    character or a newline, parsing the escaped [s] yields exactly one
    field, which is [s] with the white space at its two ends removed;
    so [s] is reproduced exactly if and only if it neither starts nor
    ends with white space. *)
Theorem C3_roundtrip_up_to_trim (s : string) :
  CSVSpec.hasSpecial s = true ->
  parseCSVLine (escapeCSVValue s) = [trim s] /\
  (parseCSVLine (escapeCSVValue s) = [s] <->
   startsWithWhiteSpace s = false /\ endsWithWhiteSpace s = false).
Proof.
  intros _. rewrite parse_escape. split; [reflexivity|].
  rewrite <- trim_fixed. split; intro H; congruence.
Qed.

Lemma C3_roundtrip_up_to_trim_witness :
  CSVSpec.hasSpecial Samples.quotation = true /\
  parseCSVLine (escapeCSVValue Samples.quotation) = [Samples.quotation].
Proof.
  split; [reflexivity|].
  apply (C3_roundtrip_up_to_trim Samples.quotation);
    [reflexivity | split; reflexivity].
Defined.

(** ** C8 *)

(** C8, as stated, fails on the empty sequence: with the explicit
    column list [id] the output is the empty string, not the header row
    [id]. *)
Lemma C8_empty_data_counterexample :
  ~ exists (header : string) (rows : list string),
      arrayToCSV Samples.stringify Samples.numberText (Some []) (Some ["id"])
        = join (String lf EmptyString) (header :: rows) /\
      header = join "," (map CSVSpec.escaped ["id"]) /\
      length rows = length (@nil Js.JsObject).
Proof.
  intros (header & rows & Hout & Hheader & Hlen).
  destruct rows; [|discriminate].
  subst header. vm_compute in Hout. discriminate.
Qed.

(** C8, amended: for every non-empty sequence of records and every
    explicit or inferred column list, [arrayToCSV] emits exactly one
    header row followed by exactly one row per record, the rows
    separated by line feeds; within each row a null or absent field
    renders as the empty string and a nested object as its JSON
    serialisation, before the escaping rule is applied; a field is
    wrapped in quotes with its quotes doubled exactly when it contains
    a comma, a quote character or a newline (line feed or carriage
    return), and is emitted unquoted otherwise.  A field is absent when
    the record has no property of that name and [Object.prototype] has
    no member of that name: a column named after such a member, as
    [constructor] is, shows the inherited value in every record that
    has no property of its own under the name. *)
Theorem C8_header_then_one_row_per_record
        (J : Js.JsValue -> string) (N : float -> string)
        (data : list Js.JsObject) (columns : option (list string)) :
  data <> [] ->
  let headers := match columns with
                 | Some columns => columns
                 | None => Js.keys (hd [] data)
                 end in
  exists (header : string) (rows : list string),
    arrayToCSV J N (Some data) columns
      = join (String lf EmptyString) (header :: rows) /\
    header = join "," (map CSVSpec.escaped headers) /\
    length rows = length data /\
    Forall2 (fun record row => row = CSVSpec.row J N headers record) data rows.
Proof.
  intros Hne headers.
  destruct data as [|first rest]; [congruence|].
  exists (join "," (map CSVSpec.escaped headers)),
         (map (CSVSpec.row J N headers) (first :: rest)).
  repeat split.
  - unfold arrayToCSV. fold headers. f_equal. f_equal.
    + f_equal. apply map_ext. intro h. apply escapeCSVValue_escaped.
    + apply map_ext. intro record. apply csvRow_row.
  - now rewrite length_map.
  - generalize (first :: rest). intro l.
    induction l as [|r l IH]; constructor; [reflexivity | exact IH].
Qed.

Lemma C8_header_then_one_row_per_record_witness :
  Samples.twoRecords <> [] /\
  exists (header : string) (rows : list string),
    arrayToCSV Samples.stringify Samples.numberText
               (Some Samples.twoRecords) None
      = join (String lf EmptyString) (header :: rows) /\
    header = join "," (map CSVSpec.escaped ["id"; "note"]) /\
    length rows = 2%nat /\
    Forall2 (fun record row =>
               row = CSVSpec.row Samples.stringify Samples.numberText
                                 ["id"; "note"] record)
            Samples.twoRecords rows.
Proof.
  split; [discriminate|].
  apply (C8_header_then_one_row_per_record
           Samples.stringify Samples.numberText Samples.twoRecords None).
  discriminate.
Defined.

(** The output for the two sample records. *)
Example arrayToCSV_twoRecords :
  arrayToCSV Samples.stringify Samples.numberText (Some Samples.twoRecords) None
  = "id,note" ++ String lf ("1," ++ String dquote ("a,b" ++ String dquote
      (String lf ("{},")))).
Proof. reflexivity. Qed.

(** A column that names a member of [Object.prototype] is not absent
    from a record that has no property of its own of that name: the
    cell holds the text of the inherited function. *)
Example arrayToCSV_inherited_column :
  arrayToCSV Samples.stringify Samples.numberText
             (Some [[("a", Js.VString "x")]]) (Some ["a"; "constructor"])
  = "a,constructor" ++ String lf "x,function Object() { [native code] }".
Proof. reflexivity. Qed.

End CSVFacts.

(* ===================================================================== *)
(** * Facts about the updater *)
(* ===================================================================== *)

Module UpdaterFacts.
Import Js Runtime JsExpr SalesforceUpdater BatchSpec.
Local Open Scope js_scope.
Local Open Scope list_scope.

(** ** Running the monad *)

Lemma bind_normal {A B} (m : M A) (k : A -> M B) u w a u' w' :
  m u w = (Normal a, u', w') -> bind m k u w = k a u' w'.
Proof. unfold bind. now intros ->. Qed.

Lemma bind_throw {A B} (m : M A) (k : A -> M B) u w e u' w' :
  m u w = (Throw e, u', w') -> bind m k u w = (Throw e, u', w').
Proof. unfold bind. now intros ->. Qed.

Lemma try_catch_normal {A} (body : M A) (handler : JsError -> M A)
      u w a u' w' :
  body u w = (Normal a, u', w') ->
  try_catch body handler u w = (Normal a, u', w').
Proof. unfold try_catch. now intros ->. Qed.

Lemma try_catch_throw {A} (body : M A) (handler : JsError -> M A)
      u w e u' w' :
  body u w = (Throw e, u', w') ->
  try_catch body handler u w = handler e u' w'.
Proof. unfold try_catch. now intros ->. Qed.

Lemma app_one_two {A} (l : list A) (a b : A) :
  ((l ++ [a]) ++ [b] = l ++ [a; b])%list.
Proof. now rewrite <- app_assoc. Qed.

(** ** Calls awaited on their own *)

(** Induction on a promise: a property of every promise that a pending
    one can become is a property of the pending one. *)
Lemma Promise_induction {A} (P : Promise A -> Prop)
      (HF : forall a, P (Fulfilled a)) (HR : forall e, P (Rejected e))
      (HP : forall resume,
          (forall u w, P (fst (fst (resume u w)))) -> P (Pending resume)) :
  forall p, P p.
Proof.
  fix IH 1. intros [a|e|resume].
  - apply HF.
  - apply HR.
  - apply HP. intros u w. apply IH.
Qed.

Lemma settle_andThen {A B} (p : Promise A) (k : A -> Async B) :
  forall u w,
    match Coroutine.andThen p k u w with (q, u', w') => settle q u' w' end
    = bind (settle p) (fun a => awaited (k a)) u w.
Proof.
  induction p as [a|e|resume IH] using Promise_induction; intros u w;
    [reflexivity | reflexivity |].
  cbn [Coroutine.andThen settle]. unfold bind. cbn [settle].
  specialize (IH u w). destruct (resume u w) as [[p' u1] w1].
  cbn [fst] in IH. rewrite IH. reflexivity.
Qed.

Lemma awaited_bind {A B} (m : Async A) (k : A -> Async B) u w :
  awaited (Coroutine.bind m k) u w
  = bind (awaited m) (fun a => awaited (k a)) u w.
Proof.
  unfold awaited at 1, Coroutine.bind, bind, awaited at 1.
  destruct (m u w) as [[p u1] w1]. apply settle_andThen.
Qed.

Lemma settle_orElse {A} (p : Promise A) (handler : JsError -> Async A) :
  forall u w,
    match Coroutine.orElse p handler u w with (q, u', w') => settle q u' w' end
    = try_catch (settle p) (fun e => awaited (handler e)) u w.
Proof.
  induction p as [a|e|resume IH] using Promise_induction; intros u w;
    [reflexivity | reflexivity |].
  cbn [Coroutine.orElse settle]. unfold try_catch. cbn [settle].
  specialize (IH u w). destruct (resume u w) as [[p' u1] w1].
  cbn [fst] in IH. rewrite IH. reflexivity.
Qed.

Lemma awaited_try_catch {A} (body : Async A) (handler : JsError -> Async A)
      u w :
  awaited (Coroutine.try_catch body handler) u w
  = try_catch (awaited body) (fun e => awaited (handler e)) u w.
Proof.
  unfold awaited at 1, Coroutine.try_catch, try_catch, awaited at 1.
  destruct (body u w) as [[p u1] w1]. apply settle_orElse.
Qed.

Lemma settle_later {A} (p : Promise A) :
  forall u w,
    match Coroutine.later p u w with (q, u', w') => settle q u' w' end
    = settle p u w.
Proof.
  induction p as [a|e|resume IH] using Promise_induction; intros u w;
    [reflexivity | reflexivity |].
  cbn [Coroutine.later settle].
  specialize (IH u w). destruct (resume u w) as [[p' u1] w1].
  cbn [fst] in IH. apply IH.
Qed.

(** A call awaited by a call that is itself awaited on its own. *)
Lemma awaited_await {A} (call : Async A) u w :
  awaited (Coroutine.await call) u w = awaited call u w.
Proof.
  unfold awaited, Coroutine.await.
  destruct (call u w) as [[p u1] w1]. apply settle_later.
Qed.

Lemma awaited_lift_bind {A B} (r : JsError + A) (k : A -> Async B) u w :
  awaited (Coroutine.bind (Coroutine.lift r) k) u w
  = match r with
    | inl e => (Throw e, u, w)
    | inr a => awaited (k a) u w
    end.
Proof. destruct r; reflexivity. Qed.

(** ** Lists *)

Lemma removeAt_nth {A} (l : list A) (k : nat) (x : A) :
  nth_error l k = Some x ->
  Permutation (x :: removeAt k l) l /\ S (length (removeAt k l)) = length l.
Proof.
  intros H. apply nth_error_split in H as (l1 & l2 & -> & <-).
  unfold removeAt.
  rewrite firstn_app, Nat.sub_diag, firstn_all. cbn [firstn].
  rewrite app_nil_r.
  replace (S (length l1)) with (length l1 + 1)%nat by lia.
  rewrite skipn_app, skipn_all2 by lia.
  replace (length l1 + 1 - length l1)%nat with 1%nat by lia.
  cbn [skipn app]. split.
  - apply Permutation_middle.
  - rewrite !length_app. cbn [length]. lia.
Qed.

Lemma slice_firstn {A} (l : list A) (i size : Z) :
  (0 <= i)%Z -> (1 <= size)%Z ->
  slice l i (i + size) = firstn (Z.to_nat size) (skipn (Z.to_nat i) l).
Proof.
  intros Hi Hs. unfold slice, relativeIndex.
  destruct (i <? 0)%Z eqn:E1; [lia|].
  destruct (i + size <? 0)%Z eqn:E2; [lia|].
  set (len := Z.of_nat (length l)).
  destruct (Z.le_gt_cases len i) as [Hle|Hlt].
  - rewrite (Z.min_r i len) by lia.
    rewrite !skipn_all2 by lia. now rewrite !firstn_nil.
  - rewrite (Z.min_l i len) by lia.
    destruct (Z.le_gt_cases (i + size) len) as [Hle2|Hgt2].
    + rewrite Z.min_l by lia. do 2 f_equal. lia.
    + rewrite Z.min_r by lia.
      rewrite !firstn_all2; [reflexivity | |]; rewrite length_skipn; lia.
Qed.

Lemma skipn_add {A} (l : list A) (i size : Z) :
  (0 <= i)%Z -> (0 <= size)%Z ->
  skipn (Z.to_nat (i + size)) l = skipn (Z.to_nat size) (skipn (Z.to_nat i) l).
Proof.
  intros Hi Hs. rewrite skipn_skipn. f_equal. lia.
Qed.

(** ** The single update *)

Ltac step_monad :=
  cbv beta iota zeta
      delta [try_catch bind ret throw this assign world emit lift
             awaited settle start
             Coroutine.try_catch Coroutine.orElse Coroutine.bind
             Coroutine.andThen Coroutine.ret Coroutine.throw Coroutine.this
             Coroutine.assign Coroutine.world Coroutine.emit Coroutine.lift
             Coroutine.suspend Coroutine.await Coroutine.later
             ensureAuthenticated instanceUrl getAuthHeaders patch get_records
             toISOString pushSuccessful pushFailed].

Ltac run_method :=
  step_monad;
  repeat match goal with
    | |- context [match ?x with Some _ => _ | None => _ end] =>
        destruct x eqn:?; step_monad
    | |- context [match ?x with inl _ => _ | inr _ => _ end] =>
        destruct x eqn:?; step_monad
    end.



(** ** The update by Work Order Number *)

(** The metadata literal names [Related_Project__r] as a variable, and
    no such variable is in scope: its evaluation throws, whatever the
    Work Order found. *)
Lemma metadataLiteral_throws (workOrder : JsObject) (workOrderNumber : string)
      (updateData : JsValue) (metadata : JsObject) :
  evalObject (updateWorkOrderScope workOrder workOrderNumber updateData metadata)
             metadataLiteral
  = inl (ReferenceError "Related_Project__r").
Proof.
  unfold evalObject, metadataLiteral.
  cbn [evalProperties evalExpr resolve updateWorkOrderScope moduleScope
       app String.eqb Ascii.eqb Bool.eqb getMember spreadable].
  destruct (get workOrder "Related_Project__r"); reflexivity.
Qed.

(** The lookup leaves the instance alone, issues no PATCH, and ends in
    one of three ways. *)
Lemma lookupWorkOrderByNumber_cases (env : Env) (workOrderNumber : string)
      (u : Updater) (w : World) :
  exists evs,
    Forall external evs /\ patches evs = [] /\
    (lookupWorkOrderByNumber env workOrderNumber u w
       = (Normal None, u, (w ++ evs)%list)
     \/ (exists workOrder,
           lookupWorkOrderByNumber env workOrderNumber u w
             = (Normal (Some workOrder), u, (w ++ evs)%list))
     \/ (exists e,
           lookupWorkOrderByNumber env workOrderNumber u w
             = (Throw e, u, (w ++ evs)%list))).
Proof.
  unfold lookupWorkOrderByNumber, async_lookupWorkOrderByNumber, async_query.
  run_method.
  all: repeat match goal with
         | |- context [match ?x with [] => _ | _ :: _ => _ end] =>
             destruct x eqn:?; step_monad
         end.
  all: rewrite ?app_one_two.
  all: eexists; split; [|split];
    [| |first [ left; reflexivity
              | right; left; eexists; reflexivity
              | right; right; eexists; reflexivity ]];
    [repeat constructor | reflexivity].
Qed.

Lemma patches_app (w evs : World) :
  patches evs = [] -> patches (w ++ evs) = patches w.
Proof.
  unfold patches. intros H. now rewrite filter_app, H, app_nil_r.
Qed.

Lemma updateWorkOrderByNumber_found (env : Env) (workOrderNumber : string)
      (updateData : JsValue) (metadata : option JsObject)
      (u : Updater) (w : World) (workOrder : JsObject) u1 w1 :
  lookupWorkOrderByNumber env workOrderNumber u w
    = (Normal (Some workOrder), u1, w1) ->
  let o := caught env workOrderNumber updateData metadata
                  (ReferenceError "Related_Project__r") w1 in
  updateWorkOrderByNumber env workOrderNumber updateData metadata u w
    = (Normal o, pushOutcome u1 o, w1).
Proof.
  intros Hlookup o.
  unfold updateWorkOrderByNumber, async_updateWorkOrderByNumber.
  cbv zeta. rewrite awaited_try_catch.
  erewrite try_catch_throw; [reflexivity|].
  rewrite awaited_bind.
  erewrite bind_normal by (rewrite awaited_await; exact Hlookup). cbv beta iota.
  rewrite awaited_lift_bind. cbn [evalExpr resolve updateWorkOrderScope app
    String.eqb Ascii.eqb Bool.eqb getMember].
  rewrite awaited_lift_bind. cbn [evalExpr resolve updateWorkOrderScope app
    String.eqb Ascii.eqb Bool.eqb getMember].
  rewrite awaited_lift_bind.
  change (evalObject _ metadataLiteral)
    with (evalObject (updateWorkOrderScope workOrder workOrderNumber
                        updateData (default [] metadata)) metadataLiteral).
  now rewrite metadataLiteral_throws.
Qed.

Lemma updateWorkOrderByNumber_missing (env : Env) (workOrderNumber : string)
      (updateData : JsValue) (metadata : option JsObject)
      (u : Updater) (w : World) u1 w1 :
  lookupWorkOrderByNumber env workOrderNumber u w = (Normal None, u1, w1) ->
  let o := missing env workOrderNumber updateData metadata w1 in
  updateWorkOrderByNumber env workOrderNumber updateData metadata u w
    = (Normal o, pushOutcome u1 o, w1).
Proof.
  intros Hlookup o.
  unfold updateWorkOrderByNumber, async_updateWorkOrderByNumber.
  cbv zeta. rewrite awaited_try_catch.
  erewrite try_catch_normal; [reflexivity|].
  rewrite awaited_bind.
  erewrite bind_normal by (rewrite awaited_await; exact Hlookup). reflexivity.
Qed.

Lemma updateWorkOrderByNumber_thrown (env : Env) (workOrderNumber : string)
      (updateData : JsValue) (metadata : option JsObject)
      (u : Updater) (w : World) (e : JsError) u1 w1 :
  lookupWorkOrderByNumber env workOrderNumber u w = (Throw e, u1, w1) ->
  let o := caught env workOrderNumber updateData metadata e w1 in
  updateWorkOrderByNumber env workOrderNumber updateData metadata u w
    = (Normal o, pushOutcome u1 o, w1).
Proof.
  intros Hlookup o.
  unfold updateWorkOrderByNumber, async_updateWorkOrderByNumber.
  cbv zeta. rewrite awaited_try_catch.
  erewrite try_catch_throw; [reflexivity|].
  rewrite awaited_bind.
  erewrite bind_throw by (rewrite awaited_await; exact Hlookup). reflexivity.
Qed.


(** ** The calls of a batch *)

Ltac step_async :=
  cbv beta iota zeta
      delta [Coroutine.try_catch Coroutine.orElse Coroutine.bind
             Coroutine.andThen Coroutine.ret Coroutine.throw Coroutine.this
             Coroutine.assign Coroutine.world Coroutine.emit Coroutine.lift
             Coroutine.suspend Coroutine.await Coroutine.later
             ensureAuthenticated instanceUrl getAuthHeaders patch get_records
             toISOString pushSuccessful pushFailed].

Ltac resume_call :=
  cbn [Owes]; intros ?u ?w; step_async;
  repeat match goal with
    | |- context [match ?x with Some _ => _ | None => _ end] =>
        destruct x eqn:?; step_async
    | |- context [match ?x with inl _ => _ | inr _ => _ end] =>
        destruct x eqn:?; step_async
    | |- context [match ?x with [] => _ | _ :: _ => _ end] =>
        destruct x eqn:?; step_async
    end.

(** One turn of a call: it ends, or it waits again. *)
Ltac turn_ends :=
  match goal with
  | |- exists evs,
        (exists o, (Fulfilled ?x, _, (?w ++ [?a])%list) = _ /\ _) \/ _ =>
      exists [a]; left; exists x; split; [reflexivity|]
  | |- exists evs, (exists o, (Fulfilled ?x, _, ?w) = _ /\ _) \/ _ =>
      exists []; left; exists x; split; [now rewrite app_nil_r|]
  end.

Ltac turn_waits :=
  match goal with
  | |- exists evs,
        _ \/ (exists resume', (Pending ?k, _, (?w ++ [?a])%list) = _ /\ _) =>
      exists [a]; right; exists k; split; [reflexivity|]
  | |- exists evs, _ \/ (exists resume', (Pending ?k, _, ?w) = _ /\ _) =>
      exists []; right; exists k; split; [now rewrite app_nil_r|]
  end.

(** The turns of a call up to its end. *)
Ltac settle_call finish :=
  resume_call;
  first [ turn_ends; finish | turn_waits; settle_call finish ].

Lemma async_updateRecord_records_one (env : Env) :
  RecordsOne keyOfUpdate echoOfUpdate updateRecordRuns
    (fun update =>
       async_updateRecord env (Update.objectType update)
                          (Update.recordId update) (Update.updateData update)
                          (Update.metadata update))
    2.
Proof.
  intros r u w. unfold async_updateRecord. step_async.
  eexists. eexists. split; [reflexivity|].
  settle_call
    ltac:(split; [reflexivity|]; split; [reflexivity|];
          first [left; reflexivity | right; eexists; reflexivity]).
Qed.

Lemma workOrder_Id (workOrder : JsObject) (workOrderNumber : string)
      (updateData : JsValue) (metadata : JsObject) :
  evalExpr (updateWorkOrderScope workOrder workOrderNumber updateData metadata)
           (Member (Ident "workOrder") "Id")
  = inr (get workOrder "Id").
Proof. reflexivity. Qed.

Lemma updateData_value (workOrder : JsObject) (workOrderNumber : string)
      (updateData : JsValue) (metadata : JsObject) :
  evalExpr (updateWorkOrderScope workOrder workOrderNumber updateData metadata)
           (Ident "updateData")
  = inr updateData.
Proof. reflexivity. Qed.

Ltac resume_lookup :=
  cbn [Owes]; intros ?u ?w; step_async;
  rewrite ?workOrder_Id, ?updateData_value, ?metadataLiteral_throws;
  step_async;
  repeat match goal with
    | |- context [match ?x with Some _ => _ | None => _ end] =>
        destruct x eqn:?; step_async
    | |- context [match ?x with inl _ => _ | inr _ => _ end] =>
        destruct x eqn:?; step_async
    | |- context [match ?x with [] => _ | _ :: _ => _ end] =>
        destruct x eqn:?; step_async;
        rewrite ?workOrder_Id, ?updateData_value, ?metadataLiteral_throws;
        step_async
    end.

Ltac settle_lookup finish :=
  resume_lookup;
  first [ turn_ends; finish | turn_waits; settle_lookup finish ].

(** The same outcome with its flag, which is always false. *)
Lemma async_updateWorkOrderByNumber_records_failure (env : Env) :
  RecordsOne TraceSpec.flaggedKey TraceSpec.flaggedEcho workOrderRuns
    (fun update =>
       async_updateWorkOrderByNumber env
         (WorkOrderUpdate.workOrderNumber update)
         (WorkOrderUpdate.updateData update)
         (WorkOrderUpdate.metadata update))
    7.
Proof.
  intros r u w.
  unfold async_updateWorkOrderByNumber, async_lookupWorkOrderByNumber,
    async_query.
  step_async.
  eexists. eexists. split; [reflexivity|].
  settle_lookup
    ltac:(split; [reflexivity|]; split; [reflexivity|];
          first [left; reflexivity | right; eexists; reflexivity]).
Qed.

Lemma Owes_map {R K K' : Type} (f : K -> K') (key : R -> K)
      (echo : Outcome.t -> K) (Runs : R -> list Event -> list Event -> Prop)
      (r : R) (turns : nat) :
  forall first sofar resume,
    Owes key echo Runs r turns first sofar resume ->
    Owes (fun r => f (key r)) (fun o => f (echo o)) Runs r turns first sofar
         resume.
Proof.
  induction turns as [|turns IH]; intros first sofar resume H; [exact H|].
  cbn [Owes] in *. intros u w.
  destruct (H u w) as (evs & [(o & Hrun & Hecho & Hruns)
                            | (resume' & Hrun & Hrest)]);
    exists evs.
  - left. exists o. split; [exact Hrun|]. split; [now rewrite Hecho|exact Hruns].
  - right. exists resume'. split; [exact Hrun|]. now apply IH.
Qed.

Lemma async_updateWorkOrderByNumber_records_one (env : Env) :
  RecordsOne keyOfWorkOrder echoOfWorkOrder workOrderRuns
    (fun update =>
       async_updateWorkOrderByNumber env
         (WorkOrderUpdate.workOrderNumber update)
         (WorkOrderUpdate.updateData update)
         (WorkOrderUpdate.metadata update))
    7.
Proof.
  intros r u w.
  destruct (async_updateWorkOrderByNumber_records_failure env r u w)
    as (first & resume & Hrun & Howes).
  exists first, resume. split; [exact Hrun|].
  exact (Owes_map fst _ _ _ _ _ _ _ _ Howes).
Qed.

(** ** Interleavings *)

Lemma Shuffle_block {A} (ls1 ls2 : list (list A)) (pre xs merged : list A) :
  Shuffle (ls1 ++ xs :: ls2) merged ->
  Shuffle (ls1 ++ (pre ++ xs) :: ls2) (pre ++ merged).
Proof.
  intros H. induction pre as [|x pre IH]; [exact H|].
  cbn [app]. now apply Shuffle_take.
Qed.

Lemma Shuffle_insert {A} (ls1 ls2 : list (list A)) (l merged : list A) :
  Shuffle (ls1 ++ ls2) merged ->
  Shuffle (ls1 ++ l :: ls2) (l ++ merged).
Proof.
  intros H. rewrite <- (app_nil_r l) at 1.
  apply Shuffle_block. now apply Shuffle_skip.
Qed.

Lemma Shuffle_Permutation {A} (ls : list (list A)) (merged : list A) :
  Shuffle ls merged -> Permutation merged (concat ls).
Proof.
  intros H. induction H as [|ls1 ls2 merged H IH|ls1 ls2 x xs merged H IH].
  - constructor.
  - rewrite concat_app in *. cbn [concat app]. exact IH.
  - rewrite concat_app in *. cbn [concat app] in *.
    apply Permutation_cons_app. exact IH.
Qed.

Lemma removeAt_middle {A} (l1 l2 : list A) (x : A) :
  removeAt (length l1) (l1 ++ x :: l2) = l1 ++ l2.
Proof.
  unfold removeAt.
  rewrite firstn_app, Nat.sub_diag, firstn_all. cbn [firstn].
  rewrite app_nil_r.
  replace (S (length l1)) with (length l1 + 1)%nat by lia.
  rewrite skipn_app, skipn_all2 by lia.
  replace (length l1 + 1 - length l1)%nat with 1%nat by lia.
  reflexivity.
Qed.

Lemma replaceAt_middle {A} (l1 l2 : list A) (x y : A) :
  replaceAt (length l1) y (l1 ++ x :: l2) = l1 ++ y :: l2.
Proof.
  unfold replaceAt.
  rewrite firstn_app, Nat.sub_diag, firstn_all. cbn [firstn].
  rewrite app_nil_r.
  replace (S (length l1)) with (length l1 + 1)%nat by lia.
  rewrite skipn_app, skipn_all2 by lia.
  replace (length l1 + 1 - length l1)%nat with 1%nat by lia.
  reflexivity.
Qed.

Lemma list_sum_constant {A} (f : A -> nat) (n : nat) (l : list A) :
  Forall (fun a => f a = n) l -> list_sum (map f l) = (n * length l)%nat.
Proof.
  intros H. induction H as [|a l Ha _ IH].
  - cbn. now rewrite Nat.mul_0_r.
  - change (f a + list_sum (map f l) = n * S (length l))%nat.
    rewrite Ha, IH, Nat.mul_succ_r. lia.
Qed.

Lemma In_firstn {A} (n : nat) (l : list A) (x : A) :
  In x (firstn n l) -> In x l.
Proof.
  revert l. induction n as [|n IH]; intros [|a l] H; cbn in H; try tauto.
  destruct H as [-> | H]; [now left | right; now apply IH].
Qed.

Lemma In_skipn_list {A} (n : nat) (l : list A) (x : A) :
  In x (skipn n l) -> In x l.
Proof.
  revert l. induction n as [|n IH]; intros l H; [exact H|].
  destruct l as [|a l]; [exact H|]. right. now apply IH.
Qed.

Lemma slice_incl {A} (l : list A) (start end_ : Z) : incl (slice l start end_) l.
Proof.
  unfold slice. intros x Hx.
  apply In_firstn in Hx. eapply In_skipn_list. exact Hx.
Qed.

(** ** The batch loop *)

Section Batches.
Context {R K : Type}.
Variable env : Env.
Variable call : R -> Call.
Variable method : R -> Async Outcome.t.
Variable awaits : nat.
Variable key : R -> K.
Variable echo : Outcome.t -> K.
Variable Runs : R -> list Event -> list Event -> Prop.

Lemma Accounts_nil (u : Updater) : Accounts key echo u u [].
Proof.
  split; [|tauto]. cbn [map]. now rewrite app_nil_r.
Qed.

Lemma Accounts_push (u : Updater) (o : Outcome.t) (r : R) :
  echo o = key r -> Accounts key echo u (pushOutcome u o) [r].
Proof.
  intros He. unfold Accounts, pushOutcome, allOutcomes, Sorted.
  destruct (Outcome.success o) eqn:Hs; cbn [successfulUpdates failedUpdates].
  - split.
    + rewrite !map_app. cbn [map]. rewrite He, <- !app_assoc.
      apply Permutation_app_head, Permutation_app_comm.
    + intros [H1 H2]. split; [|assumption].
      apply Forall_app. split; [assumption | now constructor].
  - split.
    + rewrite !map_app. cbn [map]. now rewrite He, <- !app_assoc.
    + intros [H1 H2]. split; [assumption|].
      apply Forall_app. split; [assumption | now constructor].
Qed.

Lemma Accounts_app (u u1 u2 : Updater) (rs1 rs2 : list R) :
  Accounts key echo u u1 rs1 -> Accounts key echo u1 u2 rs2 ->
  Accounts key echo u u2 (rs1 ++ rs2).
Proof.
  intros [P1 S1] [P2 S2]. split; [|tauto].
  rewrite P2, P1, map_app. now rewrite <- app_assoc.
Qed.

Lemma Accounts_perm (u u' : Updater) (rs rs' : list R) :
  Permutation rs rs' -> Accounts key echo u u' rs ->
  Accounts key echo u u' rs'.
Proof.
  intros P [P1 S1]. split; [|assumption].
  rewrite P1. apply Permutation_app_head, Permutation_map, P.
Qed.

(** A call that waits needs one turn at least. *)
Lemma Waits_turns p0 ps (states : list (Course R * nat)) :
  Forall2 (Waits key echo Runs) (p0 :: ps) states ->
  (1 <= list_sum (map snd states))%nat.
Proof.
  intros H. inversion H as [|? st ? sts [_ Howes] _]; subst.
  destruct st as [c [|n]]; [destruct Howes|].
  cbn [map snd list_sum fold_right]. lia.
Qed.

Lemma awaitAll_unfold (turns turn : nat)
      (pending : list (R * (Updater -> World
                            -> Promise Outcome.t * Updater * World))) :
  pending <> [] ->
  awaitAll env call (S turns) turn pending
  = (w <- world ;;
     let k := (scheduler env w turn mod length pending)%nat in
     match nth_error pending k with
     | None => ret tt
     | Some (update, resume) =>
         promise <- start resume ;;
         noteSettled call update promise ;;
         match promise with
         | Fulfilled _ => awaitAll env call turns (S turn) (removeAt k pending)
         | Rejected e => throw e
         | Pending resume' =>
             awaitAll env call turns (S turn)
                      (replaceAt k (update, resume') pending)
         end
     end).
Proof. destruct pending; [congruence | reflexivity]. Qed.

(** The event loop, given turns enough, resumes the calls that wait
    until each has recorded its outcome; what they add to the history
    is interleaved. *)
Lemma awaitAll_run (turns : nat) :
  forall (turn : nat) pending (states : list (Course R * nat))
         (u : Updater) (w : World),
    Forall2 (Waits key echo Runs) pending states ->
    (list_sum (map snd states) <= turns)%nat ->
    exists u' (finals : list (Course R * list Event)) merged,
      awaitAll env call turns turn pending u w
        = (Normal tt, u', w ++ merged) /\
      map fst finals = map fst states /\
      Forall (fun f => Runs (requestOf (fst f)) (atStart (fst f))
                            (afterwards (fst f) ++ snd f)) finals /\
      Shuffle (map (leftOf call) finals) merged /\
      Accounts key echo u u' (map (fun st => requestOf (fst st)) states).
Proof.
  induction turns as [|turns IH]; intros turn pending states u w Hwaits Hsum.
  - destruct pending as [|p0 ps].
    + inversion Hwaits; subst. exists u, [], [].
      cbn [awaitAll map]. rewrite app_nil_r.
      split; [reflexivity|]. split; [reflexivity|]. split; [constructor|].
      split; [constructor | apply Accounts_nil].
    + apply Waits_turns in Hwaits. lia.
  - destruct pending as [|p0 ps].
    { inversion Hwaits; subst. exists u, [], [].
      cbn [awaitAll map]. rewrite app_nil_r.
      split; [reflexivity|]. split; [reflexivity|]. split; [constructor|].
      split; [constructor | apply Accounts_nil]. }
    remember (p0 :: ps) as pending eqn:Epending.
    assert (Hne : pending <> []) by (subst; discriminate).
    rewrite awaitAll_unfold by exact Hne.
    erewrite bind_normal by reflexivity. cbv zeta.
    set (k := (scheduler env w turn mod length pending)%nat).
    assert (Hk : (k < length pending)%nat).
    { apply Nat.mod_upper_bound. subst pending. discriminate. }
    destruct (nth_error pending k) as [[r resume]|] eqn:Hnth;
      [|apply nth_error_None in Hnth; lia].
    apply nth_error_split in Hnth as (p1 & p2 & Hp & Hlen).
    clear Epending Hne Hk. subst pending.
    apply Forall2_app_inv_l in Hwaits as (s1 & s2' & H1 & H2 & ->).
    inversion H2 as [|? st ? s2 [Hreq Howes] H2']; subst.
    destruct st as [[[r' first] sofar] n].
    cbn [fst snd requestOf atStart afterwards] in *. subst r'.
    rewrite map_app, list_sum_app in Hsum.
    cbn [map snd list_sum fold_right] in Hsum.
    destruct n as [|n]; [destruct Howes|]. cbn [Owes] in Howes.
    destruct (Howes u w)
      as (evs & [(o & Hrun & Hecho & Hruns) | (resume' & Hrun & Hrest)]).
    + erewrite bind_normal by (unfold start; rewrite Hrun; reflexivity).
      erewrite bind_normal by reflexivity. cbv beta iota.
      rewrite <- Hlen, removeAt_middle.
      destruct (IH (S turn) (p1 ++ p2) (s1 ++ s2) (pushOutcome u o)
                   ((w ++ evs) ++ [EvSettled (call r)]))
        as (u' & finals & merged & Hrun' & Hmap & Hall & Hsh & Hacc).
      { now apply Forall2_app. }
      { rewrite map_app, list_sum_app.
        fold (list_sum (map snd s2)) in Hsum. lia. }
      rewrite map_app in Hmap.
      apply map_eq_app in Hmap as (f1 & f2 & -> & Hf1 & Hf2).
      exists u', (f1 ++ ((r, first, sofar), evs) :: f2),
        ((evs ++ [EvSettled (call r)]) ++ merged).
      split; [rewrite Hrun'; now rewrite <- !app_assoc|].
      split; [rewrite !map_app; cbn [map fst]; now rewrite Hf1, Hf2|].
      apply Forall_app in Hall as [Ha1 Ha2].
      split; [apply Forall_app; split; [exact Ha1|now constructor]|].
      split.
      * rewrite map_app in *. cbn [map].
        now apply (Shuffle_insert (map (leftOf call) f1) (map (leftOf call) f2)
                                  (evs ++ [EvSettled (call r)])).
      * rewrite map_app in *. cbn [map fst requestOf].
        apply (Accounts_perm u u' (r :: (map (fun st => requestOf (fst st)) s1
                                         ++ map (fun st => requestOf (fst st)) s2)));
          [apply Permutation_middle|].
        apply (Accounts_app u (pushOutcome u o) u' [r]);
          [now apply Accounts_push | exact Hacc].
    + erewrite bind_normal by (unfold start; rewrite Hrun; reflexivity).
      erewrite bind_normal by reflexivity. cbv beta iota.
      rewrite <- Hlen, replaceAt_middle.
      destruct (IH (S turn) (p1 ++ (r, resume') :: p2)
                   (s1 ++ ((r, first, sofar ++ evs), n) :: s2) u (w ++ evs))
        as (u' & finals & merged & Hrun' & Hmap & Hall & Hsh & Hacc).
      { apply Forall2_app; [exact H1|]. constructor; [|exact H2'].
        split; [reflexivity | exact Hrest]. }
      { rewrite map_app, list_sum_app. cbn [map snd list_sum fold_right].
        fold (list_sum (map snd s2)) in Hsum.
        fold (list_sum (map snd s2)). lia. }
      rewrite map_app in Hmap. cbn [map fst] in Hmap.
      apply map_eq_app in Hmap as (f1 & f2' & -> & Hf1 & Hf2).
      destruct f2' as [|[c rest] f2]; [discriminate|].
      cbn [map fst] in Hf2. injection Hf2 as -> Hf2.
      exists u', (f1 ++ ((r, first, sofar), evs ++ rest) :: f2),
        (evs ++ merged).
      split; [rewrite Hrun'; now rewrite <- !app_assoc|].
      split; [rewrite !map_app; cbn [map fst]; now rewrite Hf1, Hf2|].
      apply Forall_app in Hall as [Ha1 Ha2].
      inversion Ha2 as [|? ? Hc Ha2']; subst.
      cbn [fst snd requestOf atStart afterwards] in Hc.
      split.
      { apply Forall_app; split; [exact Ha1|]. constructor; [|exact Ha2'].
        cbn [fst snd requestOf atStart afterwards].
        now rewrite app_assoc. }
      split.
      * rewrite map_app in *. cbn [map] in *.
        unfold leftOf at 2. cbn [fst snd requestOf].
        rewrite <- app_assoc.
        now apply (Shuffle_block (map (leftOf call) f1) (map (leftOf call) f2)
                                 evs).
      * rewrite map_app in *. cbn [map fst requestOf] in *. exact Hacc.
Qed.

Hypothesis method_records_one : RecordsOne key echo Runs method awaits.

(** Every call of the batch is made and waits. *)
Lemma startAll_run (batch : list R) :
  forall (u : Updater) (w : World),
    exists pending (states : list (Course R * nat)),
      startAll call method batch u w
        = (Normal (map (fun p => (fst p, Pending (snd p))) pending), u,
           w ++ flat_map (startOf call) (map fst states)) /\
      Forall2 (Waits key echo Runs) pending states /\
      map (fun st => requestOf (fst st)) states = batch /\
      Forall (fun st => afterwards (fst st) = [] /\ snd st = awaits) states.
Proof.
  induction batch as [|r batch IH]; intros u w.
  - exists [], []. cbn. rewrite app_nil_r.
    split; [reflexivity|]. split; [constructor|].
    split; [reflexivity | constructor].
  - cbn [startAll]. erewrite bind_normal by reflexivity.
    destruct (method_records_one r u (w ++ [EvIssued (call r)]))
      as (first & resume & Hrun & Howes).
    erewrite bind_normal by (unfold start; rewrite Hrun; reflexivity).
    erewrite bind_normal by reflexivity.
    destruct (IH u ((w ++ [EvIssued (call r)]) ++ first))
      as (pending & states & Hrest & Hwaits & Hreq & Hnew).
    erewrite bind_normal by exact Hrest.
    exists ((r, resume) :: pending), (((r, first, []), awaits) :: states).
    split.
    { cbn [map fst snd flat_map startOf requestOf atStart]. unfold ret.
      now rewrite <- !app_assoc. }
    split; [constructor; [split; [reflexivity|exact Howes] | exact Hwaits]|].
    split; [cbn [map fst requestOf]; now rewrite Hreq|].
    constructor; [split; reflexivity | exact Hnew].
Qed.

Lemma rejection_pending {A}
      (pending : list (R * (Updater -> World -> Promise A * Updater * World))) :
  rejection (map (fun p => (fst p, Pending (snd p))) pending) = None.
Proof. induction pending as [|[r resume] pending IH]; [reflexivity | exact IH]. Qed.

Lemma waiting_pending {A}
      (pending : list (R * (Updater -> World -> Promise A * Updater * World))) :
  waiting (map (fun p => (fst p, Pending (snd p))) pending) = pending.
Proof.
  induction pending as [|[r resume] pending IH]; [reflexivity|].
  cbn [map waiting fst snd]. now rewrite IH.
Qed.

(** [Promise.all] over the calls of a batch: every call is made, then
    all run to their end, interleaved; none is left out and none
    rejects. *)
Lemma promiseAll_run (batch : list R) (u : Updater) (w : World) :
  exists u' trace,
    promiseAll env call method awaits batch u w
      = (Normal tt, u', w ++ trace) /\
    GroupRun call Runs batch trace /\
    Accounts key echo u u' batch.
Proof.
  destruct (startAll_run batch u w)
    as (pending & states & Hstart & Hwaits & Hreq & Hnew).
  assert (Hlen : length states = length batch)
    by (rewrite <- Hreq; now rewrite length_map).
  destruct (awaitAll_run (awaits * length batch) 0 pending states u
              (w ++ flat_map (startOf call) (map fst states)) Hwaits)
    as (u' & finals & merged & Hrun & Hmap & Hall & Hsh & Hacc).
  { rewrite (list_sum_constant snd awaits), Hlen; [lia|].
    eapply Forall_impl; [|exact Hnew]. now intros st [_ H]. }
  exists u', (flat_map (startOf call) (map fst states) ++ merged).
  split; [|split].
  - unfold promiseAll. erewrite bind_normal by exact Hstart.
    rewrite rejection_pending, waiting_pending, Hrun.
    now rewrite <- app_assoc.
  - assert (Hfresh : Forall (fun f => afterwards (fst f) = []) finals).
    { apply Forall_map with (f := fst) (P := fun c => afterwards c = []).
      rewrite Hmap. apply Forall_map.
      eapply Forall_impl; [|exact Hnew]. now intros st [H _]. }
    exists (map completed finals), merged.
    split; [|split; [|split]].
    + rewrite map_map. rewrite <- Hreq, <- (map_map fst requestOf states).
      rewrite <- Hmap, map_map. reflexivity.
    + apply Forall_map. eapply Forall_impl; [|exact Hall].
      intros f Hf. exact Hf.
    + rewrite map_map.
      replace (map (fun f => restOf call (completed f)) finals)
        with (map (leftOf call) finals); [exact Hsh|].
      clear - Hfresh. induction Hfresh as [|f finals Hf _ IH]; [reflexivity|].
      cbn [map]. rewrite IH. f_equal.
      unfold restOf, leftOf, completed. cbn [requestOf atStart afterwards fst snd].
      now rewrite Hf.
    + f_equal. rewrite <- Hmap. clear.
      induction finals as [|f finals IH]; [reflexivity|].
      cbn [map flat_map]. now rewrite IH.
  - now rewrite <- Hreq.
Qed.

Lemma pause_run (more : bool) (delayMs : Z) (u : Updater) (w : World) :
  (if more && (0 <? delayMs)%Z then delay delayMs else ret tt) u w
  = (Normal tt, u, w ++ (if more then pauseOf delayMs else [])).
Proof.
  unfold pauseOf.
  destruct more, (0 <? delayMs)%Z; cbn; now rewrite ?app_nil_r.
Qed.

Lemma Grouped_nil_inv (size : nat) (pause trace : list Event) :
  Grouped call Runs size pause [] trace -> trace = [].
Proof.
  intros H. remember (@nil R) as l eqn:E.
  destruct H as [|group tr Hne Hle Hg|group rest tr more Hl Hne Hg Hm].
  - reflexivity.
  - congruence.
  - destruct group; [|discriminate]. cbn in E. congruence.
Qed.

(** The loop from index [i] on, for a batch size of one or more:
    it ends, and handles the rest of the list group by group. *)
Lemma batchLoop_run (updateList : list R) (batchSize delayMs : Z) :
  (1 <= batchSize)%Z ->
  forall (fuel : nat) (i : Z) (u : Updater) (w : World),
    (0 <= i)%Z ->
    (length (skipn (Z.to_nat i) updateList) < fuel)%nat ->
    exists u' trace,
      batchLoop env call method awaits fuel updateList batchSize delayMs i u w
        = (Normal tt, u', w ++ trace) /\
      Grouped call Runs (Z.to_nat batchSize) (pauseOf delayMs)
              (skipn (Z.to_nat i) updateList) trace /\
      Accounts key echo u u' (skipn (Z.to_nat i) updateList).
Proof.
  intros Hsize. induction fuel as [|fuel IH]; intros i u w Hi Hfuel; [lia|].
  cbn [batchLoop].
  pose proof (length_skipn (Z.to_nat i) updateList) as Hlen.
  destruct (i <? Z.of_nat (length updateList))%Z eqn:Hcond.
  - apply Z.ltb_lt in Hcond.
    rewrite slice_firstn by assumption.
    set (rest := skipn (Z.to_nat i) updateList) in *.
    set (size := Z.to_nat batchSize).
    destruct (promiseAll_run (firstn size rest) u w)
      as (u1 & tr & Hrun & Hgroup & Hacc).
    erewrite bind_normal by exact Hrun.
    erewrite bind_normal by apply pause_run.
    assert (Hnext : skipn (Z.to_nat (i + batchSize)) updateList
                    = skipn size rest)
      by (apply skipn_add; lia).
    pose proof (length_skipn size rest) as Hlen'.
    destruct (IH (i + batchSize)%Z u1
                 ((w ++ tr)
                    ++ (if (i + batchSize <? Z.of_nat (length updateList))%Z
                        then pauseOf delayMs else [])))
      as (u' & more & Hloop & Hgrouped & Hacc');
      [lia | rewrite Hnext; lia |].
    rewrite Hnext in Hgrouped, Hacc'.
    assert (Hall : Accounts key echo u u' rest).
    { rewrite <- (firstn_skipn size rest).
      now apply (Accounts_app u u1 u'). }
    destruct (i + batchSize <? Z.of_nat (length updateList))%Z eqn:Hmore.
    + apply Z.ltb_lt in Hmore.
      exists u', (tr ++ pauseOf delayMs ++ more).
      split; [rewrite Hloop; now rewrite <- !app_assoc|].
      split; [|exact Hall].
      rewrite <- (firstn_skipn size rest) at 1.
      apply Grouped_more; try assumption.
      * rewrite length_firstn. lia.
      * intros Hnil. rewrite Hnil in Hlen'. cbn in Hlen'. lia.
    + apply Z.ltb_ge in Hmore.
      assert (Hnil : skipn size rest = [])
        by (apply length_zero_iff_nil; lia).
      rewrite Hnil in Hgrouped.
      apply Grouped_nil_inv in Hgrouped. subst more.
      assert (Hfirst : firstn size rest = rest)
        by (apply firstn_all2; lia).
      rewrite Hfirst in *.
      exists u', tr.
      split; [rewrite Hloop; now rewrite !app_nil_r|].
      split; [|exact Hall].
      apply Grouped_last; try assumption.
      * intros Hrest. rewrite Hrest in Hlen. cbn in Hlen. lia.
      * lia.
  - apply Z.ltb_ge in Hcond.
    assert (Hnil : skipn (Z.to_nat i) updateList = [])
      by (apply length_zero_iff_nil; lia).
    rewrite Hnil.
    exists u, []. split; [cbn; now rewrite app_nil_r|].
    split; [constructor | apply Accounts_nil].
Qed.

(** The whole call, for a batch size of one or more and enough
    fuel. *)
Lemma processList_run (updateList : list R) (options : Options.t)
      (fuel : nat) (u : Updater) (w : World) :
  (1 <= default 5%Z (Options.batchSize options))%Z ->
  (length updateList < fuel)%nat ->
  exists res u' trace,
    processList env call method awaits fuel updateList options u w
      = (Normal res, u', w ++ trace) /\
    Grouped call Runs (Z.to_nat (default 5%Z (Options.batchSize options)))
            (pauseOf (default 100%Z (Options.delayMs options)))
            updateList trace /\
    Permutation
      (map echo (Results.successfulUpdates res ++ Results.failedUpdates res))
      (map key updateList) /\
    Sorted (Results.successfulUpdates res) (Results.failedUpdates res) /\
    Results.totalProcessed res = length updateList /\
    Results.successful res = length (Results.successfulUpdates res) /\
    Results.failed res = length (Results.failedUpdates res) /\
    Results.successRate res
      = percentage (Results.successful res) (length updateList) /\
    successfulUpdates u' = Results.successfulUpdates res /\
    failedUpdates u' = Results.failedUpdates res.
Proof.
  intros Hsize Hfuel. unfold processList. cbv zeta.
  erewrite bind_normal by reflexivity.
  destruct (batchLoop_run updateList _ (default 100%Z (Options.delayMs options))
              Hsize fuel 0%Z
              {| successfulUpdates := []; failedUpdates := [] |} w)
    as (u' & trace & Hloop & Hgrouped & [Hperm Hsorted]);
    [lia | exact Hfuel |].
  cbn [Z.to_nat skipn] in Hgrouped, Hperm.
  erewrite bind_normal by exact Hloop.
  erewrite bind_normal by reflexivity.
  eexists; exists u', trace.
  split; [reflexivity|]. cbn.
  repeat (split; [first [assumption | reflexivity]|]).
  split; [|repeat split].
  apply Hsorted. split; constructor.
Qed.

(** ** What a run adds to the history, whatever the batch size and the
    fuel *)

Section Events.
Variable updateList : list R.

(** [P] holds of the marks of the loop, of a pause, and of whatever a
    call for a request of the list asks of the world. *)
Variable P : Event -> Prop.
Hypothesis P_issued : forall r, P (EvIssued (call r)).
Hypothesis P_settled : forall r, P (EvSettled (call r)).
Hypothesis P_delay : forall ms, P (EvDelay ms).
Hypothesis P_runs :
  forall r first rest,
    In r updateList -> Runs r first rest -> Forall P (first ++ rest).

Lemma courses_events (courses : list (Course R)) :
  Forall (fun c => In (requestOf c) updateList /\
                   Runs (requestOf c) (atStart c) (afterwards c)) courses ->
  Forall P (flat_map (startOf call) courses) /\
  Forall P (concat (map (restOf call) courses)).
Proof.
  intros H. induction H as [|c courses [Hin Hruns] _ [IH1 IH2]];
    [split; constructor|].
  apply P_runs in Hruns; [|exact Hin].
  apply Forall_app in Hruns as [Hfirst Hrest].
  cbn [flat_map map concat]. unfold startOf at 1, restOf at 1. split.
  - cbn [app]. constructor; [apply P_issued|].
    apply Forall_app. split; assumption.
  - rewrite <- app_assoc. apply Forall_app. split; [exact Hrest|].
    cbn [app]. constructor; [apply P_settled | exact IH2].
Qed.

Lemma GroupRun_events (group : list R) (trace : list Event) :
  incl group updateList -> GroupRun call Runs group trace -> Forall P trace.
Proof.
  intros Hincl (courses & merged & Hreq & Hall & Hsh & ->).
  destruct (courses_events courses) as [H1 H2].
  { apply Forall_forall. intros c Hc. split.
    - apply Hincl. rewrite <- Hreq. now apply in_map.
    - revert c Hc. now apply Forall_forall. }
  apply Forall_app. split; [exact H1|].
  apply Shuffle_Permutation in Hsh.
  eapply Permutation_Forall; [symmetry; exact Hsh | exact H2].
Qed.

Lemma batchLoop_events (batchSize delayMs : Z) (fuel : nat) :
  forall (i : Z) (u : Updater) (w : World),
    exists c u' evs,
      batchLoop env call method awaits fuel updateList batchSize delayMs i u w
        = (c, u', w ++ evs) /\
      Forall P evs /\ (c = Normal tt \/ c = OutOfFuel).
Proof.
  induction fuel as [|fuel IH]; intros i u w.
  - exists OutOfFuel, u, []. rewrite app_nil_r.
    split; [reflexivity|]. split; [constructor | now right].
  - cbn [batchLoop].
    destruct (i <? Z.of_nat (length updateList))%Z.
    2:{ exists (Normal tt), u, []. rewrite app_nil_r.
        split; [reflexivity|]. split; [constructor | now left]. }
    destruct (promiseAll_run (slice updateList i (i + batchSize)) u w)
      as (u1 & tr & Hrun & Hgroup & _).
    apply GroupRun_events in Hgroup; [|apply slice_incl].
    erewrite bind_normal by exact Hrun.
    erewrite bind_normal by apply pause_run.
    destruct (IH (i + batchSize)%Z u1
                 ((w ++ tr)
                    ++ (if (i + batchSize <? Z.of_nat (length updateList))%Z
                        then pauseOf delayMs else [])))
      as (c & u' & evs & Hloop & Hevs & Hc).
    exists c, u',
      (tr ++ (if (i + batchSize <? Z.of_nat (length updateList))%Z
              then pauseOf delayMs else []) ++ evs).
    split; [rewrite Hloop; now rewrite <- !app_assoc|].
    split; [|exact Hc].
    apply Forall_app. split; [exact Hgroup|].
    apply Forall_app. split; [|exact Hevs].
    destruct (i + batchSize <? Z.of_nat (length updateList))%Z; [|constructor].
    unfold pauseOf. destruct (0 <? delayMs)%Z; repeat constructor.
    apply P_delay.
Qed.

Lemma processList_events (options : Options.t) (fuel : nat)
      (u : Updater) (w : World) :
  exists c u' evs,
    processList env call method awaits fuel updateList options u w
      = (c, u', w ++ evs) /\
    Forall P evs /\ (forall e, c <> Throw e).
Proof.
  unfold processList. cbv zeta.
  erewrite bind_normal by reflexivity.
  destruct (batchLoop_events
              (default 5%Z (Options.batchSize options))
              (default 100%Z (Options.delayMs options)) fuel 0%Z
              {| successfulUpdates := []; failedUpdates := [] |} w)
    as (c & u' & evs & Hrun & Hevs & [-> | ->]).
  - erewrite bind_normal by exact Hrun.
    eexists; eexists; exists evs. split; [reflexivity|].
    split; [exact Hevs | discriminate].
  - unfold bind at 1. rewrite Hrun.
    exists OutOfFuel, u', evs. split; [reflexivity|].
    split; [exact Hevs | discriminate].
Qed.

End Events.


End Batches.



(** ** The two batch processors *)

Lemma processList_one_outcome_each {R K : Type} (env : Env) (call : R -> Call)
      (method : R -> Async Outcome.t) (awaits : nat)
      (key : R -> K) (echo : Outcome.t -> K)
      (Runs : R -> list Event -> list Event -> Prop)
      (updateList : list R) (options : Options.t) (fuel : nat)
      (u : Updater) (w : World) :
  RecordsOne key echo Runs method awaits ->
  (1 <= default 5%Z (Options.batchSize options))%Z ->
  (length updateList < fuel)%nat ->
  exists res u' w',
    processList env call method awaits fuel updateList options u w
      = (Normal res, u', w') /\
    OneOutcomeEach key echo updateList res.
Proof.
  intros Hone Hsize Hfuel.
  destruct (processList_run env call method awaits key echo Runs Hone
                            updateList options fuel u w Hsize Hfuel)
    as (res & u' & trace & Hrun & _ & Hperm & Hsorted & Htotal
        & Hs & Hf & _).
  exists res, u', (w ++ trace). split; [exact Hrun|].
  unfold OneOutcomeEach. repeat split; try assumption; try apply Hsorted.
  apply Permutation_length in Hperm.
  rewrite !length_map, length_app in Hperm. lia.
Qed.


Lemma percentage_0_0 : percentage 0 0 = "NaN%"%string.
Proof. vm_compute. reflexivity. Qed.

(** ** The success rate *)





(** ** C1 *)




(** ** C4 *)




(** ** C5 *)




(** The calls of a group are under way together: with an event loop
    that resumes the second call that waits whenever there are two, the
    two session checks come first, the PATCH of the second request
    comes before the PATCH of the first, and the second call settles
    first. *)
Example calls_of_a_group_interleave :
  snd (processUpdates Samples.secondFirst 3
                      [Samples.update "a"; Samples.update "b"]
                      Options.empty Samples.fresh [])
  = [ EvIssued (CallUpdateRecord (Samples.update "a"));
      EvEnsureAuthenticated;
      EvIssued (CallUpdateRecord (Samples.update "b"));
      EvEnsureAuthenticated;
      EvPatch {| url_instance := VString "https://example.my.salesforce.com";
                 url_apiVersion := apiVersion;
                 url_objectType := "Account";
                 url_recordId := VString "b" |}
              (VObject [("Name", VString "Acme")]);
      EvSettled (CallUpdateRecord (Samples.update "b"));
      EvPatch {| url_instance := VString "https://example.my.salesforce.com";
                 url_apiVersion := apiVersion;
                 url_objectType := "Account";
                 url_recordId := VString "a" |}
              (VObject [("Name", VString "Acme")]);
      EvSettled (CallUpdateRecord (Samples.update "a")) ].
Proof. vm_compute. reflexivity. Qed.

(** ** C7 *)

(** C7 (what the code does on the empty list): [processUpdates] returns
    zero outcomes, and its success rate is the text [NaN%], where
    [getStats] on the same instance answers [0%]. *)
Theorem C7_empty_list_success_rate_is_NaN (env : Env) (options : Options.t)
        (fuel : nat) (u : Updater) (w : World) :
  processUpdates env (S fuel) [] options u w
    = (Normal {| Results.totalProcessed := 0;
                 Results.successful := 0;
                 Results.failed := 0;
                 Results.successfulUpdates := [];
                 Results.failedUpdates := [];
                 Results.successRate := "NaN%" |},
       {| successfulUpdates := []; failedUpdates := [] |}, w) /\
  Stats.successRate
    (match getStats {| successfulUpdates := []; failedUpdates := [] |} w with
     | (Normal stats, _, _) => stats
     | _ => Stats.make 0 0 0 EmptyString
     end)
  = "0%"%string.
Proof.
  split; [|reflexivity].
  unfold processUpdates, processList. cbv zeta.
  erewrite bind_normal by reflexivity.
  erewrite bind_normal by reflexivity.
  erewrite bind_normal by reflexivity.
  cbn [successfulUpdates failedUpdates length ret].
  now rewrite percentage_0_0.
Qed.

(** ** C10 *)



(** ** C2 and C6 *)

Lemma lookup_leaves_instance (env : Env) (workOrderNumber : string)
      (u : Updater) (w : World) c u1 w1 :
  lookupWorkOrderByNumber env workOrderNumber u w = (c, u1, w1) ->
  u1 = u /\ patches w1 = patches w.
Proof.
  intros H.
  destruct (lookupWorkOrderByNumber_cases env workOrderNumber u w)
    as (evs & _ & Hpatch & [E | [(wo & E) | (e & E)]]);
    rewrite E in H; injection H as _ <- <-;
    (split; [reflexivity | now apply patches_app]).
Qed.

(** C2: in [updateWorkOrderByNumber] the metadata literal reads
    [Related_Project__r] as a variable of its own, not as a property of
    [workOrder]; so for every update whose lookup resolves a record the
    construction of the metadata throws a reference error, the handler
    around it catches the error and records the update in the failure
    list, and no PATCH is issued for the record. *)
Theorem C2_resolved_record_fails_before_patch (env : Env)
        (workOrderNumber : string) (updateData : JsValue)
        (metadata : option JsObject) (u : Updater) (w : World)
        (workOrder : JsObject) (u1 : Updater) (w1 : World) :
  lookupWorkOrderByNumber env workOrderNumber u w
    = (Normal (Some workOrder), u1, w1) ->
  evalObject (updateWorkOrderScope workOrder workOrderNumber updateData
                                   (default [] metadata))
             metadataLiteral
    = inl (ReferenceError "Related_Project__r") /\
  exists o,
    updateWorkOrderByNumber env workOrderNumber updateData metadata u w
      = (Normal o,
         {| successfulUpdates := successfulUpdates u;
            failedUpdates := failedUpdates u ++ [o] |},
         w1) /\
    Outcome.success o = false /\
    Outcome.error o = Some (VString "Related_Project__r is not defined") /\
    Outcome.status o = VString "ERROR" /\
    patches w1 = patches w.
Proof.
  intros Hlookup. split; [apply metadataLiteral_throws|].
  destruct (lookup_leaves_instance _ _ _ _ _ _ _ Hlookup) as [-> Hpatch].
  eexists. split.
  - apply updateWorkOrderByNumber_found with (workOrder := workOrder).
    exact Hlookup.
  - repeat (split; [reflexivity|]). exact Hpatch.
Qed.

Lemma C2_resolved_record_fails_before_patch_witness :
  exists workOrder w1,
    lookupWorkOrderByNumber Samples.env "WO-1" Samples.fresh []
      = (Normal (Some workOrder), Samples.fresh, w1) /\
    exists o,
      updateWorkOrderByNumber Samples.env "WO-1" VNull None Samples.fresh []
        = (Normal o,
           {| successfulUpdates := []; failedUpdates := [o] |}, w1) /\
      Outcome.success o = false /\
      Outcome.error o = Some (VString "Related_Project__r is not defined") /\
      Outcome.status o = VString "ERROR" /\
      patches w1 = patches [].
Proof.
  eexists. eexists. split; [reflexivity|].
  refine (proj2 (C2_resolved_record_fails_before_patch Samples.env "WO-1"
                   VNull None Samples.fresh [] _ _ _ _)).
  reflexivity.
Defined.

(** C6: for every Work Order Number whose lookup query matches no
    record, [updateWorkOrderByNumber] returns an outcome with the flag
    false, the status [NOT_FOUND], the error [Work Order not found] and
    a null record id, appends it to the failure list, and issues no
    PATCH. *)
Theorem C6_unmatched_number_is_not_found (env : Env)
        (workOrderNumber : string) (updateData : JsValue)
        (metadata : option JsObject) (u : Updater) (w : World)
        (u1 : Updater) (w1 : World) :
  query env (soqlFor (escapeSingleQuotes workOrderNumber)) u w
    = (Normal [], u1, w1) ->
  exists o,
    updateWorkOrderByNumber env workOrderNumber updateData metadata u w
      = (Normal o,
         {| successfulUpdates := successfulUpdates u;
            failedUpdates := failedUpdates u ++ [o] |},
         w1) /\
    Outcome.success o = false /\
    Outcome.status o = VString "NOT_FOUND" /\
    Outcome.error o = Some (VString "Work Order not found") /\
    Outcome.recordId o = VNull /\
    patches w1 = patches w.
Proof.
  intros Hquery.
  assert (Hlookup : lookupWorkOrderByNumber env workOrderNumber u w
                    = (Normal None, u1, w1)).
  { unfold lookupWorkOrderByNumber, async_lookupWorkOrderByNumber. cbv zeta.
    rewrite awaited_try_catch. apply try_catch_normal.
    rewrite awaited_bind.
    erewrite bind_normal by (rewrite awaited_await; exact Hquery).
    reflexivity. }
  destruct (lookup_leaves_instance _ _ _ _ _ _ _ Hlookup) as [-> Hpatch].
  eexists. split.
  - apply updateWorkOrderByNumber_missing. exact Hlookup.
  - repeat (split; [reflexivity|]). exact Hpatch.
Qed.

Lemma C6_unmatched_number_is_not_found_witness :
  exists w1,
    query Samples.env (soqlFor (escapeSingleQuotes "WO-404")) Samples.fresh []
      = (Normal [], Samples.fresh, w1) /\
    exists o,
      updateWorkOrderByNumber Samples.env "WO-404" VNull None Samples.fresh []
        = (Normal o,
           {| successfulUpdates := []; failedUpdates := [o] |}, w1) /\
      Outcome.success o = false /\
      Outcome.status o = VString "NOT_FOUND" /\
      Outcome.error o = Some (VString "Work Order not found") /\
      Outcome.recordId o = VNull /\
      patches w1 = patches [].
Proof.
  eexists. split; [reflexivity|].
  refine (C6_unmatched_number_is_not_found Samples.env "WO-404" VNull None
            Samples.fresh [] Samples.fresh _ _).
  reflexivity.
Defined.

End UpdaterFacts.

(* ===================================================================== *)
(** * Facts about the JWT assertion *)
(* ===================================================================== *)

Module JWTFacts.
Import Runtime SalesforceAuthJWT.

(** C9: [createJWT] signs, with the algorithm RS256, an assertion whose
    claims are exactly: issuer the client identifier, subject the
    username, audience the login URL, and an expiry 300 seconds after
    the second of issuance, that is between 299 and 300 seconds after
    the instant of issuance. *)
Theorem C9_assertion_claims
        (fs_readFileSync : string -> string -> JsError + string)
        (jwt_sign : Claims -> string -> SignOptions -> JsError + string)
        (Date_now : Z) (this : t) (key : string) :
  getPrivateKey fs_readFileSync this = inr key ->
  let claims := claimsOf Date_now this in
  createJWT fs_readFileSync jwt_sign Date_now this
    = jwt_sign claims key {| algorithm := "RS256" |} /\
  iss claims = clientId this /\
  sub claims = username this /\
  aud claims = loginUrl this /\
  exp claims = (Date_now / 1000 + 300)%Z /\
  (299000 < exp claims * 1000 - Date_now <= 300000)%Z.
Proof.
  intros Hkey claims. unfold createJWT. rewrite Hkey.
  repeat (split; [reflexivity|]).
  subst claims. cbn [exp claimsOf].
  pose proof (Z.div_mod Date_now 1000 ltac:(lia)) as Hdm.
  pose proof (Z.mod_pos_bound Date_now 1000 ltac:(lia)) as Hmod.
  lia.
Qed.

Lemma C9_assertion_claims_witness :
  getPrivateKey Samples.noFile Samples.connectedApp = inr "PRIVATE KEY" /\
  exp (claimsOf 1761215400123 Samples.connectedApp) = 1761215700%Z /\
  createJWT Samples.noFile Samples.signer 1761215400123 Samples.connectedApp
    = Samples.signer (claimsOf 1761215400123 Samples.connectedApp)
                     "PRIVATE KEY" {| algorithm := "RS256" |}.
Proof.
  split; [reflexivity|]. split; [reflexivity|].
  apply (C9_assertion_claims Samples.noFile Samples.signer 1761215400123
           Samples.connectedApp "PRIVATE KEY").
  reflexivity.
Defined.

End JWTFacts.

(* ===================================================================== *)
(** * The success rate on sample counts *)
(* ===================================================================== *)

Module NumberFacts.
Import SalesforceUpdater.

Example percentage_1_of_3 : percentage 1 3 = "33.33%".
Proof. vm_compute. reflexivity. Qed.

Example percentage_2_of_3 : percentage 2 3 = "66.67%".
Proof. vm_compute. reflexivity. Qed.

Example percentage_7_of_7 : percentage 7 7 = "100.00%".
Proof. vm_compute. reflexivity. Qed.

Example percentage_0_of_4 : percentage 0 4 = "0.00%".
Proof. vm_compute. reflexivity. Qed.

(** A tie at the third decimal goes up: 1/800 of 100 is 0.125. *)
Example percentage_1_of_800 : percentage 1 800 = "0.13%".
Proof. vm_compute. reflexivity. Qed.

End NumberFacts.

(* ===================================================================== *)
(** * More facts about the updater *)
(* ===================================================================== *)

Module UpdaterMoreFacts.
Import Js Runtime JsExpr SalesforceUpdater BatchSpec TraceSpec KeyValueUpdates.
Import UpdaterFacts.
Local Open Scope js_scope.
Local Open Scope list_scope.

(** ** The Work Order path *)

Lemma filter_none {A} (f : A -> bool) (l : list A) :
  Forall (fun a => f a = false) l -> filter f l = [].
Proof.
  intros H. induction H as [|a l Ha _ IH]; [reflexivity|].
  cbn [filter]. now rewrite Ha.
Qed.

Lemma workOrders_no_patch (env : Env) (fuel : nat)
        (updateList : list WorkOrderUpdate.t) (options : Options.t)
        (u : Updater) (w : World) :
  exists c u' evs,
    processWorkOrderUpdates env fuel updateList options u w
      = (c, u', w ++ evs) /\
    patches evs = [] /\
    (forall e, c <> Throw e).
Proof.
  destruct (processList_events env CallUpdateWorkOrderByNumber _ 7
              keyOfWorkOrder echoOfWorkOrder workOrderRuns
              (async_updateWorkOrderByNumber_records_one env) updateList
              (fun e => isPatch e = false)) with
      (options := options) (fuel := fuel) (u := u) (w := w)
    as (c & u' & evs & Hrun & Hevs & Hc); try reflexivity.
  - intros r first rest _ [-> [-> | [instance ->]]]; repeat constructor.
  - exists c, u', evs. split; [exact Hrun|]. split; [|exact Hc].
    now apply filter_none.
Qed.

(** Whatever the list, the options and the number of steps allowed,
    [processWorkOrderUpdates] issues no PATCH and does not throw. *)
Theorem processWorkOrderUpdates_never_patches (env : Env) (fuel : nat)
        (updateList : list WorkOrderUpdate.t) (options : Options.t)
        (u : Updater) (w : World) :
  exists c u' evs,
    processWorkOrderUpdates env fuel updateList options u w
      = (c, u', w ++ evs) /\
    patches evs = [] /\
    (forall e, c <> Throw e).
Proof. exact (workOrders_no_patch env fuel updateList options u w). Qed.

Lemma workOrders_all_fail (env : Env) (fuel : nat)
        (updateList : list WorkOrderUpdate.t) (options : Options.t)
        (u : Updater) (w : World) :
  (1 <= default 5%Z (Options.batchSize options))%Z ->
  (length updateList < fuel)%nat ->
  exists res u' w',
    processWorkOrderUpdates env fuel updateList options u w
      = (Normal res, u', w') /\
    Results.successfulUpdates res = [] /\
    Results.successful res = 0%nat /\
    Results.failed res = length updateList /\
    Forall (fun o => Outcome.success o = false) (Results.failedUpdates res).
Proof.
  intros Hsize Hfuel.
  destruct (processList_run env CallUpdateWorkOrderByNumber _ 7
              flaggedKey flaggedEcho workOrderRuns
              (async_updateWorkOrderByNumber_records_failure env)
              updateList options fuel u w Hsize Hfuel)
    as (res & u' & trace & Hrun & _ & Hperm & [Hsucc Hfailed]
        & _ & Hs & Hf & _).
  exists res, u', (w ++ trace). split; [exact Hrun|].
  assert (Hnone : Results.successfulUpdates res = []).
  { destruct (Results.successfulUpdates res) as [|o rest] eqn:E;
      [reflexivity|exfalso].
    inversion Hsucc as [|? ? Htrue _]; subst.
    assert (Hin : In (flaggedEcho o) (map flaggedKey updateList)).
    { eapply Permutation_in; [exact Hperm|]. cbn. now left. }
    apply in_map_iff in Hin as (r & Heq & _).
    unfold flaggedKey, flaggedEcho in Heq. congruence. }
  split; [exact Hnone|]. split; [now rewrite Hs, Hnone|].
  split; [|exact Hfailed].
  apply Permutation_length in Hperm.
  rewrite !length_map, Hnone in Hperm. cbn [app] in Hperm. congruence.
Qed.

(** For a batch size of one or more, every request of
    [processWorkOrderUpdates] ends in the failure list: the result counts
    no success and as many failures as there are requests. *)
Theorem processWorkOrderUpdates_all_fail (env : Env) (fuel : nat)
        (updateList : list WorkOrderUpdate.t) (options : Options.t)
        (u : Updater) (w : World) :
  (1 <= default 5%Z (Options.batchSize options))%Z ->
  (length updateList < fuel)%nat ->
  exists res u' w',
    processWorkOrderUpdates env fuel updateList options u w
      = (Normal res, u', w') /\
    Results.successfulUpdates res = [] /\
    Results.successful res = 0%nat /\
    Results.failed res = length updateList /\
    Forall (fun o => Outcome.success o = false) (Results.failedUpdates res).
Proof. exact (workOrders_all_fail env fuel updateList options u w). Qed.

Lemma processWorkOrderUpdates_all_fail_witness :
  (1 <= default 5%Z (Options.batchSize Options.empty))%Z /\
  (length Samples.twoWorkOrderUpdates < 3)%nat /\
  exists res u' w',
    processWorkOrderUpdates Samples.env 3 Samples.twoWorkOrderUpdates
                            Options.empty Samples.fresh []
      = (Normal res, u', w') /\
    Results.successfulUpdates res = [] /\
    Results.successful res = 0%nat /\
    Results.failed res = 2%nat /\
    Forall (fun o => Outcome.success o = false) (Results.failedUpdates res).
Proof.
  split; [cbn; lia|]. split; [cbn; lia|].
  apply (processWorkOrderUpdates_all_fail Samples.env 3
           Samples.twoWorkOrderUpdates Options.empty Samples.fresh []);
    cbn; lia.
Defined.

(** ** The PATCH requests of [processUpdates] *)







(** ** The pauses of a run *)











(** ** Updates given as key-value pairs *)

(** For a batch size of one or more, [processKeyValueUpdates] returns one
    outcome for each entry of the object: the outcome carries the object
    type given, the entry's key as record id, its value as update data,
    and the metadata [{source: 'keyValuePairs'}]. *)
Theorem processKeyValueUpdates_one_outcome_per_entry (env : Env) (fuel : nat)
        (objectType : string) (keyValuePairs : JsObject)
        (options : Options.t) (u : Updater) (w : World) :
  (1 <= default 5%Z (Options.batchSize options))%Z ->
  (length keyValuePairs < fuel)%nat ->
  exists res u' w',
    processKeyValueUpdates env fuel objectType keyValuePairs options u w
      = (Normal res, u', w') /\
    Results.totalProcessed res = length keyValuePairs /\
    (Results.successful res + Results.failed res)%nat = length keyValuePairs /\
    Permutation
      (map echoOfUpdate
           (Results.successfulUpdates res ++ Results.failedUpdates res))
      (map (fun entry =>
              (objectType, VString (fst entry), snd entry,
               [("source", VString "keyValuePairs")]))
           keyValuePairs).
Proof.
  intros Hsize Hfuel. unfold processKeyValueUpdates. cbv zeta.
  destruct (processList_one_outcome_each env CallUpdateRecord
              (fun update =>
                 async_updateRecord env (Update.objectType update)
                   (Update.recordId update) (Update.updateData update)
                   (Update.metadata update))
              2 keyOfUpdate echoOfUpdate updateRecordRuns
              (map (entryUpdate objectType) keyValuePairs) options fuel u w
              (async_updateRecord_records_one env) Hsize)
    as (res & u' & w' & Hrun & Htotal & Hsum & _ & _ & Hperm & _);
    [now rewrite length_map|].
  exists res, u', w'. split; [exact Hrun|].
  rewrite length_map in Htotal, Hsum.
  split; [exact Htotal|]. split; [exact Hsum|].
  rewrite map_map in Hperm. exact Hperm.
Qed.

Lemma processKeyValueUpdates_one_outcome_per_entry_witness :
  (1 <= default 5%Z (Options.batchSize Options.empty))%Z /\
  (length MoreSamples.renames < 3)%nat /\
  exists res u' w',
    processKeyValueUpdates Samples.env 3 "Account" MoreSamples.renames
                           Options.empty Samples.fresh []
      = (Normal res, u', w') /\
    Results.totalProcessed res = 2%nat /\
    (Results.successful res + Results.failed res)%nat = 2%nat.
Proof.
  split; [cbn; lia|]. split; [cbn; lia|].
  destruct (processKeyValueUpdates_one_outcome_per_entry Samples.env 3
              "Account" MoreSamples.renames Options.empty Samples.fresh [])
    as (res & u' & w' & Hrun & Htotal & Hsum & _); [cbn; lia | cbn; lia |].
  exists res, u', w'. split; [exact Hrun|]. split; [exact Htotal | exact Hsum].
Defined.

(** ** Statistics *)



(** ** How failures are recorded *)


(** When the query of the lookup throws, [updateWorkOrderByNumber]
    records a failure with the status of the error's response, or
    [ERROR] when the error has none, and issues no PATCH. *)
Theorem updateWorkOrderByNumber_lookup_failure (env : Env)
        (workOrderNumber : string) (updateData : JsValue)
        (metadata : option JsObject) (u : Updater) (w : World)
        (error : JsError) (u1 : Updater) (w1 : World) :
  query env (soqlFor (escapeSingleQuotes workOrderNumber)) u w
    = (Throw error, u1, w1) ->
  exists o,
    updateWorkOrderByNumber env workOrderNumber updateData metadata u w
      = (Normal o,
         {| successfulUpdates := successfulUpdates u;
            failedUpdates := failedUpdates u ++ [o] |},
         w1) /\
    Outcome.success o = false /\
    Outcome.recordId o = VNull /\
    Outcome.workOrderNumber o = Some workOrderNumber /\
    Outcome.status o = or_else (response_status error) (VString "ERROR") /\
    (response error = None ->
     Outcome.status o = VString "ERROR" /\
     Outcome.error o = Some (VString (message error))) /\
    patches w1 = patches w.
Proof.
  intros Hquery.
  assert (Hlookup : lookupWorkOrderByNumber env workOrderNumber u w
                    = (Throw error, u1, w1)).
  { unfold lookupWorkOrderByNumber, async_lookupWorkOrderByNumber. cbv zeta.
    rewrite awaited_try_catch.
    erewrite try_catch_throw; [reflexivity|].
    rewrite awaited_bind.
    erewrite bind_throw by (rewrite awaited_await; exact Hquery).
    reflexivity. }
  destruct (lookup_leaves_instance _ _ _ _ _ _ _ Hlookup) as [-> Hpatch].
  eexists. split.
  - apply updateWorkOrderByNumber_thrown. exact Hlookup.
  - repeat (split; [reflexivity|]). split; [|exact Hpatch].
    intros Hnone. cbn. unfold response_status, response_data, or_else.
    rewrite Hnone. split; reflexivity.
Qed.

Lemma updateWorkOrderByNumber_lookup_failure_witness :
  exists w1,
    query MoreSamples.envDown (soqlFor (escapeSingleQuotes "WO-1"))
          Samples.fresh []
      = (Throw MoreSamples.offline, Samples.fresh, w1) /\
    exists o,
      updateWorkOrderByNumber MoreSamples.envDown "WO-1" VNull None
                              Samples.fresh []
        = (Normal o, {| successfulUpdates := []; failedUpdates := [o] |}, w1) /\
      Outcome.success o = false /\
      Outcome.status o = VString "ERROR".
Proof.
  eexists. split; [reflexivity|].
  destruct (updateWorkOrderByNumber_lookup_failure MoreSamples.envDown "WO-1"
              VNull None Samples.fresh [] MoreSamples.offline Samples.fresh _
              eq_refl)
    as (o & Hrun & Hfail & _ & _ & Hstatus & _).
  exists o. split; [exact Hrun|]. split; [exact Hfail | exact Hstatus].
Defined.

(** ** Direct calls *)


(** ** The escaping of the Work Order Number *)

Lemma escapeSingleQuotes_head (s : string) :
  match escapeSingleQuotes s with
  | String c _ => Ascii.eqb c "'"%char = false
  | EmptyString => True
  end.
Proof.
  destruct s as [|c s]; [exact I|]. cbn [escapeSingleQuotes].
  destruct (Ascii.eqb c "'"%char) eqn:E; [reflexivity | exact E].
Qed.

Lemma escapeSingleQuotes_injective (s : string) :
  forall t, escapeSingleQuotes s = escapeSingleQuotes t -> s = t.
Proof.
  induction s as [|c s IH]; intros t H.
  - destruct t as [|d t]; [reflexivity|]. cbn [escapeSingleQuotes] in H.
    destruct (Ascii.eqb d "'"%char); discriminate.
  - destruct t as [|d t].
    + cbn [escapeSingleQuotes] in H.
      destruct (Ascii.eqb c "'"%char); discriminate.
    + cbn [escapeSingleQuotes] in H.
      destruct (Ascii.eqb c "'"%char) eqn:Ec, (Ascii.eqb d "'"%char) eqn:Ed.
      * injection H as Hcd Hrest. subst d. f_equal. now apply IH.
      * injection H as Hd Hrest. exfalso.
        pose proof (escapeSingleQuotes_head t) as Hh.
        rewrite <- Hrest in Hh. congruence.
      * injection H as Hc Hrest. exfalso.
        pose proof (escapeSingleQuotes_head s) as Hh.
        rewrite Hrest in Hh. congruence.
      * injection H as Hcd Hrest. subst d. f_equal. now apply IH.
Qed.

(** [lookupWorkOrderByNumber] puts a backslash before every single quote
    of the number and changes nothing else: in the escaped text every
    single quote stands right after a backslash, the text is longer by
    the number of quotes, and two numbers that differ stay different. *)
Theorem escapeSingleQuotes_escapes_every_quote (s : string) :
  (forall previous, quotesEscaped previous (escapeSingleQuotes s) = true) /\
  String.length (escapeSingleQuotes s)
    = (String.length s + countQuotes s)%nat /\
  (forall t, escapeSingleQuotes s = escapeSingleQuotes t -> s = t).
Proof.
  split; [|split].
  - induction s as [|c s IH]; intros previous; [reflexivity|].
    cbn [escapeSingleQuotes].
    destruct (Ascii.eqb c "'"%char) eqn:E.
    + cbn [quotesEscaped]. rewrite E, Ascii.eqb_refl, IH. reflexivity.
    + cbn [quotesEscaped]. rewrite E, IH. reflexivity.
  - induction s as [|c s IH]; [reflexivity|].
    cbn [escapeSingleQuotes countQuotes String.length].
    destruct (Ascii.eqb c "'"%char); cbn [String.length]; rewrite IH; lia.
  - apply escapeSingleQuotes_injective.
Qed.

Lemma escapeSingleQuotes_append (s t : string) :
  escapeSingleQuotes (s ++ t)
  = (escapeSingleQuotes s ++ escapeSingleQuotes t)%string.
Proof.
  induction s as [|c s IH]; [reflexivity|].
  cbn [append escapeSingleQuotes].
  destruct (Ascii.eqb c "'"%char); cbn [append]; now rewrite IH.
Qed.

Lemma append_middle (p e q : string) (b : ascii) :
  (p ++ (e ++ String b EmptyString) ++ q)%string
  = ((p ++ e) ++ String b q)%string.
Proof.
  rewrite !CSVFacts.append_assoc. reflexivity.
Qed.

(** The escaping leaves a backslash as it is: for a number that ends in a
    backslash, the closing quote of the literal in the query stands right
    after that backslash. *)
Theorem soql_keeps_trailing_backslash (number : string) :
  exists before,
    soqlFor (escapeSingleQuotes (number ++ String backslash EmptyString))
    = (before ++ String backslash "' LIMIT 1")%string.
Proof.
  unfold soqlFor. rewrite escapeSingleQuotes_append.
  change (escapeSingleQuotes (String backslash EmptyString))
    with (String backslash EmptyString).
  eexists. apply append_middle.
Qed.

End UpdaterMoreFacts.

(* ===================================================================== *)
(** * Facts about authentication *)
(* ===================================================================== *)

Module AuthFacts.
Import Js Runtime JsExpr AuthRuntime AuthSession.
Local Open Scope auth_scope.
Local Open Scope list_scope.

Lemma auth_bind_normal {T U} (m : A T) (k : T -> A U) s h x s' h' :
  m s h = (Normal x, s', h') -> bind m k s h = k x s' h'.
Proof. unfold bind. now intros ->. Qed.

Lemma auth_bind_throw {T U} (m : A T) (k : T -> A U) s h e s' h' :
  m s h = (Throw e, s', h') -> bind m k s h = (Throw e, s', h').
Proof. unfold bind. now intros ->. Qed.

Ltac step_auth :=
  cbv beta iota zeta
      delta [AuthRuntime.try_catch AuthRuntime.bind AuthRuntime.ret
             AuthRuntime.throw AuthRuntime.this AuthRuntime.history
             AuthRuntime.lift AuthRuntime.post AuthRuntime.get_
             AuthRuntime.setAccessToken AuthRuntime.setInstanceUrl
             getAuthHeaders validateSession ensureAuthenticated].

(** [validateSession] never throws and never changes the session; without
    a token or without an instance URL it answers [false] and sends
    nothing; otherwise it sends exactly one probe, with the token, and
    answers whether the probe was accepted. *)
Theorem validateSession_probes_once (net : Net) (s : Session) (h : History) :
  exists (valid : bool) (h' : History),
    validateSession net s h = (Normal valid, s, h') /\
    (truthy (accessToken s) && truthy (instanceUrl s) = false ->
     valid = false /\ h' = h) /\
    (truthy (accessToken s) && truthy (instanceUrl s) = true ->
     h' = h ++ [GetSObjects (instanceUrl s) (accessToken s)] /\
     (valid = true <->
      exists r, axios_get net h
                  (GetSObjects (instanceUrl s) (accessToken s)) = inr r)).
Proof.
  step_auth.
  destruct (truthy (accessToken s)) eqn:Ht, (truthy (instanceUrl s)) eqn:Hu;
    cbn [negb orb andb].
  - rewrite Ht.
    destruct (axios_get net h (GetSObjects (instanceUrl s) (accessToken s)))
      as [e|r] eqn:E; cbn.
    + exists false, (h ++ [GetSObjects (instanceUrl s) (accessToken s)]).
      split; [reflexivity|]. split; [discriminate|]. intros _.
      split; [reflexivity|]. split; [discriminate | intros [r Hr]; discriminate].
    + exists true, (h ++ [GetSObjects (instanceUrl s) (accessToken s)]).
      split; [reflexivity|]. split; [discriminate|]. intros _.
      split; [reflexivity|]. split; [now exists r | reflexivity].
  - exists false, h. split; [reflexivity|].
    split; [now split | discriminate].
  - exists false, h. split; [reflexivity|].
    split; [now split | discriminate].
  - exists false, h. split; [reflexivity|].
    split; [now split | discriminate].
Qed.

(** With a session that the probe accepts, [ensureAuthenticated] sends
    the probe and nothing else: no token is requested and the session
    stays as it is, whatever the class's [authenticate] would do. *)
Theorem ensureAuthenticated_keeps_valid_session (net : Net)
        (authenticate : A AuthResult) (s : Session) (h : History)
        (r : HttpResponse) :
  truthy (accessToken s) = true ->
  truthy (instanceUrl s) = true ->
  axios_get net h (GetSObjects (instanceUrl s) (accessToken s)) = inr r ->
  ensureAuthenticated net authenticate s h
  = (Normal tt, s, h ++ [GetSObjects (instanceUrl s) (accessToken s)]).
Proof.
  intros Ht Hu Hget. step_auth. rewrite Ht, Hu. cbn [negb orb].
  rewrite Ht, Hget. reflexivity.
Qed.

Lemma ensureAuthenticated_keeps_valid_session_witness :
  truthy (accessToken MoreSamples.signedIn) = true /\
  truthy (instanceUrl MoreSamples.signedIn) = true /\
  ensureAuthenticated MoreSamples.net
    (AuthJWT.authenticate MoreSamples.net MoreSamples.keyless)
    MoreSamples.signedIn []
  = (Normal tt, MoreSamples.signedIn,
     [GetSObjects (instanceUrl MoreSamples.signedIn)
                  (accessToken MoreSamples.signedIn)]).
Proof.
  split; [reflexivity|]. split; [reflexivity|].
  apply (ensureAuthenticated_keeps_valid_session MoreSamples.net
           (AuthJWT.authenticate MoreSamples.net MoreSamples.keyless)
           MoreSamples.signedIn [] MoreSamples.tokenResponse); reflexivity.
Defined.

(** When the session is not valid, [ensureAuthenticated] runs the class's
    [authenticate] once and ends as it ends: normally when it returns,
    with its error when it throws. *)
Theorem ensureAuthenticated_reauthenticates (net : Net)
        (authenticate : A AuthResult) (s : Session) (h h1 : History) :
  validateSession net s h = (Normal false, s, h1) ->
  ensureAuthenticated net authenticate s h
  = match authenticate s h1 with
    | (Normal _, s', h') => (Normal tt, s', h')
    | (Throw e, s', h') => (Throw e, s', h')
    | (OutOfFuel, s', h') => (OutOfFuel, s', h')
    end.
Proof.
  intros Hvalid. unfold ensureAuthenticated.
  erewrite auth_bind_normal by exact Hvalid. cbn [negb].
  unfold bind, ret. destruct (authenticate s h1) as [[[x|e|] s'] h'];
    reflexivity.
Qed.

Lemma ensureAuthenticated_reauthenticates_witness :
  validateSession MoreSamples.net newSession [] = (Normal false, newSession, []) /\
  ensureAuthenticated MoreSamples.net
    (AuthJWT.authenticate MoreSamples.net Samples.connectedApp) newSession []
  = match AuthJWT.authenticate MoreSamples.net Samples.connectedApp
            newSession [] with
    | (Normal _, s', h') => (Normal tt, s', h')
    | (Throw e, s', h') => (Throw e, s', h')
    | (OutOfFuel, s', h') => (OutOfFuel, s', h')
    end.
Proof.
  split; [reflexivity|].
  apply (ensureAuthenticated_reauthenticates MoreSamples.net
           (AuthJWT.authenticate MoreSamples.net Samples.connectedApp)
           newSession [] []).
  reflexivity.
Defined.

(** ** The JWT bearer class *)

(** When [authenticate] of the JWT class returns, it has sent exactly one
    request, the POST of the assertion that [createJWT] built to the token
    URL; the session holds the access token and the instance URL of the
    response, the access token is a string, and the result returned
    repeats both with the flag true. *)
Theorem jwt_authenticate_success (net : Net) (config : SalesforceAuthJWT.t)
        (s s' : Session) (h h' : History) (result : AuthResult) :
  AuthJWT.authenticate net config s h = (Normal result, s', h') ->
  exists assertion response token,
    SalesforceAuthJWT.createJWT (fs_readFileSync net h) (jwt_sign net h)
                                (Date_now net h) config = inr assertion /\
    h' = h ++ [PostJwtBearer (AuthJWT.tokenUrlOf config) assertion] /\
    axios_post net h (PostJwtBearer (AuthJWT.tokenUrlOf config) assertion)
      = inr response /\
    getMember (data response) "access_token" = inr (VString token) /\
    accessToken s' = VString token /\
    getMember (data response) "instance_url" = inr (instanceUrl s') /\
    result = {| result_accessToken := accessToken s';
                result_instanceUrl := instanceUrl s';
                result_success := true |}.
Proof.
  unfold AuthJWT.authenticate, AuthJWT.tokenUrlOf. step_auth.
  destruct (SalesforceAuthJWT.createJWT _ _ _ config) as [e|assertion] eqn:Hjwt;
    cbn beta iota.
  { destruct (response e) as [r|]; [destruct (getMember (data r) "error")|];
      cbn beta iota; intros H; discriminate H. }
  destruct (axios_post net h _) as [e|resp] eqn:Hpost; cbn beta iota.
  { destruct (response e) as [r|]; [destruct (getMember (data r) "error")|];
      cbn beta iota; intros H; discriminate H. }
  destruct (getMember (data resp) "access_token") as [e|token] eqn:Htok;
    cbn beta iota.
  { destruct (response e) as [r|]; [destruct (getMember (data r) "error")|];
      cbn beta iota; intros H; discriminate H. }
  destruct (getMember (data resp) "instance_url") as [e|url] eqn:Hurl;
    cbn beta iota.
  { destruct (response e) as [r|]; [destruct (getMember (data r) "error")|];
      cbn beta iota; intros H; discriminate H. }
  destruct token; cbn beta iota;
    try (intros H; discriminate H).
  intros H. injection H as <- <- <-.
  exists assertion, resp, s0. repeat split; assumption.
Qed.

Lemma jwt_authenticate_success_witness :
  exists result s' h',
    AuthJWT.authenticate MoreSamples.net Samples.connectedApp newSession []
      = (Normal result, s', h') /\
    accessToken s' = VString "00Dxx!token" /\
    result_success result = true.
Proof.
  eexists. eexists. eexists. split; [reflexivity|].
  destruct (jwt_authenticate_success MoreSamples.net Samples.connectedApp
              newSession _ [] _ _ eq_refl)
    as (assertion & response & token & _ & _ & _ & _ & _ & _ & Hres).
  split; reflexivity.
Defined.

(** Without a private key and without a path to one, [authenticate] of
    the JWT class throws the error of [getPrivateKey], sends nothing and
    leaves the session as it is. *)
Theorem jwt_authenticate_without_key (net : Net) (config : SalesforceAuthJWT.t)
        (s : Session) (h : History) :
  SalesforceAuthJWT.nonEmpty (SalesforceAuthJWT.privateKey config) = None ->
  SalesforceAuthJWT.nonEmpty (SalesforceAuthJWT.privateKeyPath config) = None ->
  AuthJWT.authenticate net config s h
  = (Throw {| message :=
                "No private key provided. Set either privateKey or privateKeyPath.";
              response := None |}, s, h).
Proof.
  intros Hkey Hpath. unfold AuthJWT.authenticate. step_auth.
  unfold SalesforceAuthJWT.createJWT, SalesforceAuthJWT.getPrivateKey.
  rewrite Hkey, Hpath. reflexivity.
Qed.

Lemma jwt_authenticate_without_key_witness :
  SalesforceAuthJWT.nonEmpty
    (SalesforceAuthJWT.privateKey MoreSamples.keyless) = None /\
  SalesforceAuthJWT.nonEmpty
    (SalesforceAuthJWT.privateKeyPath MoreSamples.keyless) = None /\
  fst (AuthJWT.authenticate MoreSamples.net MoreSamples.keyless newSession [])
  = (Throw {| message :=
                "No private key provided. Set either privateKey or privateKeyPath.";
              response := None |}, newSession).
Proof.
  split; [reflexivity|]. split; [reflexivity|].
  rewrite (jwt_authenticate_without_key MoreSamples.net MoreSamples.keyless
             newSession []); reflexivity.
Defined.

(** When the token endpoint refuses the assertion with an HTTP error that
    has a body, [authenticate] of the JWT class throws that same error,
    response included, and leaves the session as it was. *)
Theorem jwt_authenticate_refused (net : Net) (config : SalesforceAuthJWT.t)
        (s : Session) (h : History) (assertion : string) (error : JsError)
        (r : HttpResponse) :
  SalesforceAuthJWT.createJWT (fs_readFileSync net h) (jwt_sign net h)
                              (Date_now net h) config = inr assertion ->
  axios_post net h (PostJwtBearer (AuthJWT.tokenUrlOf config) assertion) = inl error ->
  response error = Some r ->
  isNullish (data r) = false ->
  AuthJWT.authenticate net config s h
  = (Throw error, s, h ++ [PostJwtBearer (AuthJWT.tokenUrlOf config) assertion]).
Proof.
  intros Hjwt Hpost Hresp Hdata. unfold AuthJWT.authenticate, AuthJWT.tokenUrlOf in *.
  step_auth. rewrite Hjwt. cbn beta iota. rewrite Hpost. cbn beta iota.
  rewrite Hresp. destruct (data r); try discriminate; reflexivity.
Qed.

Lemma jwt_authenticate_refused_witness :
  exists assertion,
    SalesforceAuthJWT.createJWT
      (fs_readFileSync MoreSamples.netRefusing [])
      (jwt_sign MoreSamples.netRefusing [])
      (Date_now MoreSamples.netRefusing []) Samples.connectedApp
      = inr assertion /\
    AuthJWT.authenticate MoreSamples.netRefusing Samples.connectedApp
                         newSession []
    = (Throw MoreSamples.invalidGrant, newSession,
       [PostJwtBearer (AuthJWT.tokenUrlOf Samples.connectedApp) assertion]).
Proof.
  eexists. split; [reflexivity|].
  eapply (jwt_authenticate_refused MoreSamples.netRefusing Samples.connectedApp
            newSession [] _ MoreSamples.invalidGrant); reflexivity.
Defined.

(** ** The password class *)

(** When the token endpoint refuses the password, [authenticate] of the
    password class throws a new error: its message is
    [Authentication failed: ] followed by the description that the
    response gives, or by the message of the error when it gives none, and
    it carries no response.  The session stays as it was. *)
Theorem password_authenticate_refused (Number_toString : float -> string)
        (net : Net) (config : AuthPassword.t) (s : Session) (h : History)
        (error : JsError) :
  let request :=
    PostPassword (AuthPassword.loginUrl config ++ "/services/oauth2/token")%string
                 (AuthPassword.clientId config) (AuthPassword.clientSecret config)
                 (AuthPassword.username config)
                 (AuthPassword.password config
                  ++ AuthPassword.securityToken config)%string in
  axios_post net h request = inl error ->
  exists thrown,
    AuthPassword.authenticate Number_toString net config s h
      = (Throw thrown, s, h ++ [request]) /\
    response thrown = None /\
    (forall text,
        AuthPassword.error_description error = VString text ->
        text <> EmptyString ->
        message thrown = ("Authentication failed: " ++ text)%string) /\
    (truthy (AuthPassword.error_description error) = false ->
     message thrown = ("Authentication failed: " ++ message error)%string).
Proof.
  intros request Hpost. subst request.
  unfold AuthPassword.authenticate. step_auth. rewrite Hpost. cbn beta iota.
  eexists. split; [reflexivity|]. split; [reflexivity|]. split.
  - intros text Htext Hne. cbn [message]. rewrite Htext.
    cbn [truthy]. destruct text; [congruence | reflexivity].
  - intros Hfalse. cbn [message]. rewrite Hfalse. reflexivity.
Qed.

Lemma password_authenticate_refused_witness :
  exists thrown h',
    AuthPassword.authenticate Samples.numberText MoreSamples.netRefusing
                              MoreSamples.passwordLogin newSession []
      = (Throw thrown, newSession, h') /\
    response thrown = None /\
    message thrown = "Authentication failed: authentication failure".
Proof.
  destruct (password_authenticate_refused Samples.numberText
              MoreSamples.netRefusing MoreSamples.passwordLogin newSession []
              MoreSamples.invalidGrant eq_refl)
    as (thrown & Hrun & Hnone & Hdesc & _).
  exists thrown. eexists. split; [exact Hrun|]. split; [exact Hnone|].
  apply Hdesc; [reflexivity | discriminate].
Defined.

End AuthFacts.

(* ===================================================================== *)
(** * Facts about the exporter *)
(* ===================================================================== *)

Module ExporterFacts.
Import JsString Js Runtime SalesforceUpdater FsRuntime Exporter ExportSpec.
Local Open Scope fs_scope.
Local Open Scope list_scope.

Ltac step_fs :=
  cbv beta iota zeta
      delta [FsRuntime.bind FsRuntime.ret FsRuntime.throw
             FsRuntime.try_catch FsRuntime.lift FsRuntime.settled
             FsRuntime.mkdir FsRuntime.writeFile FsRuntime.readFile
             FsRuntime.now].

Lemma written_app (a b : Disk) : written (a ++ b) = written a ++ written b.
Proof. apply flat_map_app. Qed.

Lemma written_write (d : Disk) (path content : string) :
  written (d ++ [EvWriteFile path content]) = written d ++ [path].
Proof. now rewrite written_app. Qed.

Lemma written_other (d : Disk) (e : FsEvent) :
  writtenPath e = [] -> written (d ++ [e]) = written d.
Proof.
  intros H. rewrite written_app. cbn. rewrite H. now rewrite app_nil_r.
Qed.

Lemma sumRecords_from (files : list FileEntry) (n : nat) :
  fold_left (fun sum file => sum + records file) files n
  = (n + sumRecords files)%nat.
Proof.
  unfold sumRecords. revert n.
  induction files as [|f files IH]; intros n; cbn [fold_left].
  - lia.
  - rewrite IH, (IH (0 + records f)%nat). lia.
Qed.

Lemma sumRecords_snoc (files : list FileEntry) (f : FileEntry) :
  sumRecords (files ++ [f]) = (sumRecords files + records f)%nat.
Proof.
  unfold sumRecords at 1. rewrite fold_left_app. cbn [fold_left].
  now rewrite sumRecords_from.
Qed.

Section Branches.
Variable JSON_stringify : JsValue -> string.
Variable Number_toString : float -> string.
Variable sortByTimestamp : list JsObject -> list JsObject.
Variable fs : Fs.
Hypothesis sort_length : forall l, length (sortByTimestamp l) = length l.

Lemma exportSeparate_listed (updateResults : UpdateResults)
      (outputDir baseFilename timestamp : string) (d d' : Disk)
      (files : list FileEntry) :
  exportSeparate JSON_stringify Number_toString fs updateResults
                 outputDir baseFilename timestamp d = (Normal files, d') ->
  Listed updateResults d d' files.
Proof.
  unfold exportSeparate, Listed. step_fs.
  destruct (successfulUpdates updateResults) as [|s0 ss];
    destruct (failedUpdates updateResults) as [|f0 fs0];
    cbn [length Nat.ltb Nat.leb];
    repeat (destruct (fs_writeFile fs _ _ _); [intros H; discriminate H|]);
    intros H; injection H as <- <-;
    rewrite ?written_write; cbn [map app sumRecords fold_left records path];
    rewrite <- ?app_assoc; cbn [app];
    (split; [lia|]); (split; [now rewrite ?app_nil_r|]);
    repeat (apply Forall_cons; [cbn [records]; lia|]); apply Forall_nil.
Qed.

Lemma exportAll_listed (updateResults : UpdateResults)
      (outputDir baseFilename timestamp : string) (d d' : Disk)
      (files : list FileEntry) :
  exportAll JSON_stringify Number_toString sortByTimestamp fs updateResults
            outputDir baseFilename timestamp d = (Normal files, d') ->
  Listed updateResults d d' files.
Proof.
  unfold exportAll, Listed. step_fs.
  pose proof (sort_length
                (map (fun u => withProperty u "result" (VString "success"))
                     (successfulUpdates updateResults)
                 ++ map (fun u => withProperty u "result" (VString "failed"))
                        (failedUpdates updateResults))) as Hlen.
  rewrite length_app, !length_map in Hlen.
  destruct (sortByTimestamp _) as [|a0 as_];
    cbn [length Nat.ltb Nat.leb] in *;
    repeat (destruct (fs_writeFile fs _ _ _); [intros H; discriminate H|]);
    intros H; injection H as <- <-;
    rewrite ?written_write; cbn [map app sumRecords fold_left records path].
  - split; [lia|]. split; [now rewrite app_nil_r|]. constructor.
  - split; [lia|]. split; [reflexivity|].
    apply Forall_cons; [cbn [records]; lia | apply Forall_nil].
Qed.

End Branches.

Lemma branch_listed (JSON_stringify : JsValue -> string)
      (Number_toString : float -> string)
      (sortByTimestamp : list JsObject -> list JsObject) (fs : Fs)
      (separate : bool) (updateResults : UpdateResults)
      (outputDir baseFilename timestamp : string) (d d' : Disk)
      (files : list FileEntry) :
  (forall l, length (sortByTimestamp l) = length l) ->
  (if separate
   then exportSeparate JSON_stringify Number_toString fs updateResults
                       outputDir baseFilename timestamp
   else exportAll JSON_stringify Number_toString sortByTimestamp fs
                  updateResults outputDir baseFilename timestamp) d
  = (Normal files, d') ->
  Listed updateResults d d' files.
Proof.
  intros Hsort. destruct separate.
  - apply exportSeparate_listed.
  - now apply exportAll_listed.
Qed.

Lemma export_post
        (JSON_stringify : JsValue -> string)
        (Number_toString : float -> string)
        (sortByTimestamp : list JsObject -> list JsObject) (fs : Fs)
        (updateResults : UpdateResults) (options : ExportOptions)
        (d d' : Disk) (r : ExportResults) :
  (forall l, length (sortByTimestamp l) = length l) ->
  exportUpdateResults JSON_stringify Number_toString sortByTimestamp fs
                      updateResults options d = (Normal r, d') ->
  totalRecords r
  = (length (successfulUpdates updateResults)
     + length (failedUpdates updateResults) + 1)%nat /\
  written d' = written d ++ map path (files r) /\
  Forall (fun f => (0 < records f)%nat) (files r) /\
  (exists data summaryFile,
      files r = data ++ [ {| type := "summary"; path := summaryFile;
                             records := 1 |} ]) /\
  summary r = updateResults.
Proof.
  intros Hsort. unfold exportUpdateResults. step_fs.
  destruct (fs_mkdir fs d _); [intros H; discriminate H|].
  destruct (default true (includeTimestamp options)); cbv beta iota;
    match goal with
    | |- context [(if default true (separateFiles options)
                   then ?a else ?b) ?d0] =>
        assert (Hd2 : written d0 = written d)
          by (now rewrite !written_other);
        destruct ((if default true (separateFiles options) then a else b) d0)
          as [[listed| |] d3] eqn:Hrun; try (intros H; discriminate H)
    end;
    (apply branch_listed in Hrun; [|exact Hsort]);
    destruct Hrun as (Hsum & Hwritten & Hpos);
    (destruct (fs_writeFile fs _ _ _); [intros H; discriminate H|]);
    intros H; injection H as <- <-; cbn [totalRecords files summary];
    rewrite sumRecords_snoc, Hsum; cbn [records];
    (split; [reflexivity|]);
    (split;
     [rewrite written_write, written_other by reflexivity;
      rewrite Hwritten, Hd2, map_app, app_assoc; reflexivity|]);
    (split;
     [apply Forall_app; split; [exact Hpos|];
      apply Forall_cons; [cbn [records]; lia | apply Forall_nil]|]);
    (split; [|reflexivity]);
    eexists; eexists; reflexivity.
Qed.

(** When [exportUpdateResults] returns, [totalRecords] is the number of
    outcomes in the two lists plus one for the summary; the files listed
    are the files written by the call, in the order written; no file
    listed is empty; the last one is the summary, counted as one record;
    and [summary] is the argument. *)
Theorem exportUpdateResults_lists_every_outcome
        (JSON_stringify : JsValue -> string)
        (Number_toString : float -> string)
        (sortByTimestamp : list JsObject -> list JsObject) (fs : Fs)
        (updateResults : UpdateResults) (options : ExportOptions)
        (d d' : Disk) (r : ExportResults) :
  (forall l, length (sortByTimestamp l) = length l) ->
  exportUpdateResults JSON_stringify Number_toString sortByTimestamp fs
                      updateResults options d = (Normal r, d') ->
  totalRecords r
  = (length (successfulUpdates updateResults)
     + length (failedUpdates updateResults) + 1)%nat /\
  written d' = written d ++ map path (files r) /\
  Forall (fun f => (0 < records f)%nat) (files r) /\
  (exists data summaryFile,
      files r = data ++ [ {| type := "summary"; path := summaryFile;
                             records := 1 |} ]) /\
  summary r = updateResults.
Proof. exact (export_post JSON_stringify Number_toString sortByTimestamp fs updateResults options d d' r). Qed.

Lemma exportUpdateResults_lists_every_outcome_witness :
  exists r d',
    exportUpdateResults Samples.stringify Samples.numberText
                        MoreSamples.inOrder MoreSamples.disk
                        MoreSamples.exported noOptions [] = (Normal r, d') /\
    totalRecords r = 3%nat /\
    written d'
    = [ "./exports/salesforce_updates_successful_2025-10-23T10-30-00.csv";
        "./exports/salesforce_updates_failed_2025-10-23T10-30-00.csv";
        "./exports/salesforce_updates_summary_2025-10-23T10-30-00.csv" ].
Proof.
  eexists. eexists. split; [reflexivity|].
  destruct (exportUpdateResults_lists_every_outcome
              Samples.stringify Samples.numberText MoreSamples.inOrder
              MoreSamples.disk MoreSamples.exported noOptions [] _ _
              (fun l => eq_refl) eq_refl)
    as (Htotal & _).
  split; [exact Htotal | reflexivity].
Defined.

Lemma export_total
        (JSON_stringify : JsValue -> string)
        (Number_toString : float -> string)
        (sortByTimestamp : list JsObject -> list JsObject) (fs : Fs)
        (updateResults : UpdateResults) (options : ExportOptions) (d : Disk) :
  (forall d dir, fs_mkdir fs d dir = None) ->
  (forall d path content, fs_writeFile fs d path content = None) ->
  exists r d',
    exportUpdateResults JSON_stringify Number_toString sortByTimestamp fs
                        updateResults options d = (Normal r, d').
Proof.
  intros Hmkdir Hwrite.
  unfold exportUpdateResults, exportSeparate, exportAll. step_fs.
  rewrite Hmkdir.
  destruct (default true (includeTimestamp options));
    destruct (default true (separateFiles options));
    repeat match goal with
           | |- context [(0 <? ?n)%nat] => destruct (0 <? n)%nat
           end;
    rewrite ?Hwrite; eexists; eexists; reflexivity.
Qed.

(** On a disk that takes every directory and every file,
    [exportUpdateResults] returns. *)
Theorem exportUpdateResults_returns
        (JSON_stringify : JsValue -> string)
        (Number_toString : float -> string)
        (sortByTimestamp : list JsObject -> list JsObject) (fs : Fs)
        (updateResults : UpdateResults) (options : ExportOptions) (d : Disk) :
  (forall d dir, fs_mkdir fs d dir = None) ->
  (forall d path content, fs_writeFile fs d path content = None) ->
  exists r d',
    exportUpdateResults JSON_stringify Number_toString sortByTimestamp fs
                        updateResults options d = (Normal r, d').
Proof. exact (export_total JSON_stringify Number_toString sortByTimestamp fs updateResults options d). Qed.

Lemma exportUpdateResults_returns_witness :
  exists r d',
    exportUpdateResults Samples.stringify Samples.numberText
                        MoreSamples.inOrder MoreSamples.disk
                        MoreSamples.exported
                        {| outputDir := Some "out"; baseFilename := None;
                           separateFiles := Some false;
                           includeTimestamp := Some false |} []
    = (Normal r, d').
Proof.
  apply (exportUpdateResults_returns Samples.stringify Samples.numberText
           MoreSamples.inOrder MoreSamples.disk);
    intros; reflexivity.
Defined.

Lemma export_mkdir_fails
        (JSON_stringify : JsValue -> string)
        (Number_toString : float -> string)
        (sortByTimestamp : list JsObject -> list JsObject) (fs : Fs)
        (updateResults : UpdateResults) (options : ExportOptions) (d : Disk)
        (error : JsError) :
  fs_mkdir fs d (default "./exports" (outputDir options)) = Some error ->
  exists d',
    exportUpdateResults JSON_stringify Number_toString sortByTimestamp fs
                        updateResults options d = (Throw error, d') /\
    writes d' = writes d.
Proof.
  intros Hmkdir. unfold exportUpdateResults. step_fs. rewrite Hmkdir.
  eexists. split; [reflexivity|].
  unfold writes. rewrite flat_map_app. cbn. now rewrite app_nil_r.
Qed.

(** When the output directory cannot be made, [exportUpdateResults]
    throws the error of [mkdir] and writes no file. *)
Theorem exportUpdateResults_needs_the_directory
        (JSON_stringify : JsValue -> string)
        (Number_toString : float -> string)
        (sortByTimestamp : list JsObject -> list JsObject) (fs : Fs)
        (updateResults : UpdateResults) (options : ExportOptions) (d : Disk)
        (error : JsError) :
  fs_mkdir fs d (default "./exports" (outputDir options)) = Some error ->
  exists d',
    exportUpdateResults JSON_stringify Number_toString sortByTimestamp fs
                        updateResults options d = (Throw error, d') /\
    writes d' = writes d.
Proof. exact (export_mkdir_fails JSON_stringify Number_toString sortByTimestamp fs updateResults options d error). Qed.

Lemma exportUpdateResults_needs_the_directory_witness :
  exists d',
    exportUpdateResults Samples.stringify Samples.numberText
                        MoreSamples.inOrder MoreSamples.diskReadOnly
                        MoreSamples.exported noOptions []
    = (Throw MoreSamples.readOnly, d') /\
    writes d' = [].
Proof.
  apply (exportUpdateResults_needs_the_directory
           Samples.stringify Samples.numberText MoreSamples.inOrder
           MoreSamples.diskReadOnly MoreSamples.exported noOptions []
           MoreSamples.readOnly).
  reflexivity.
Defined.

(** [exportCustomData] of [null] or [undefined]: when the directory can be
    made and the file written, the call writes an empty file at
    [filePath] and then throws the type error of [data.length]. *)
Theorem exportCustomData_without_data_writes_then_throws
        (JSON_stringify : JsValue -> string)
        (Number_toString : float -> string) (fs : Fs)
        (data : Data) (filePath : string) (columns : option (list string))
        (d : Disk) :
  arrayOf data = None ->
  fs_mkdir fs d (path_dirname fs filePath) = None ->
  fs_writeFile fs (d ++ [EvMkdir (path_dirname fs filePath)])
               filePath EmptyString = None ->
  exists error d',
    exportCustomData JSON_stringify Number_toString fs data filePath columns d
    = (Throw error, d') /\
    lengthOf data = inl error /\
    writes d' = writes d ++ [(filePath, EmptyString)].
Proof.
  intros Hdata Hmkdir Hwrite. unfold exportCustomData. step_fs.
  rewrite Hmkdir, Hdata. cbn [arrayToCSV CSV.arrayToCSV].
  rewrite Hwrite.
  destruct data as [| |rows]; [| |discriminate Hdata];
    cbn [lengthOf]; eexists; eexists;
    (split; [reflexivity|]); (split; [reflexivity|]);
    unfold writes; rewrite !flat_map_app; cbn; now rewrite app_nil_r.
Qed.

Lemma exportCustomData_without_data_writes_then_throws_witness :
  exists d',
    exportCustomData Samples.stringify Samples.numberText MoreSamples.disk
                     DataNull "out/report.csv" None []
    = (Throw (TypeError "null"), d') /\
    writes d' = [("out/report.csv", EmptyString)].
Proof.
  destruct (exportCustomData_without_data_writes_then_throws
              Samples.stringify Samples.numberText MoreSamples.disk
              DataNull "out/report.csv" None [] eq_refl eq_refl eq_refl)
    as (error & d' & Hrun & Hlen & Hwrites).
  injection Hlen as <-.
  exists d'. split; [exact Hrun | exact Hwrites].
Defined.

(** When [exportCustomData] returns for an array, it has made the
    directory of [filePath] and then written one file, at [filePath]; the
    result gives the number of rows of the array and the length of the
    text written; for an empty array the text is empty, whatever the
    columns asked for. *)
Theorem exportCustomData_reports_what_it_wrote
        (JSON_stringify : JsValue -> string)
        (Number_toString : float -> string) (fs : Fs)
        (rows : list JsObject) (filePath : string)
        (columns : option (list string)) (d d' : Disk) (r : CustomResult) :
  exportCustomData JSON_stringify Number_toString fs (DataArray rows)
                   filePath columns d = (Normal r, d') ->
  let content :=
    CSV.arrayToCSV JSON_stringify Number_toString (Some rows) columns in
  d' = d ++ [EvMkdir (path_dirname fs filePath);
             EvWriteFile filePath content] /\
  custom_records r = length rows /\
  custom_size r = String.length content /\
  custom_filePath r = filePath /\
  (rows = [] -> content = EmptyString).
Proof.
  unfold exportCustomData. step_fs.
  destruct (fs_mkdir fs d _); [intros H; discriminate H|].
  destruct (fs_writeFile fs _ _ _); [intros H; discriminate H|].
  cbn [lengthOf arrayOf]. intros H. injection H as <- <-.
  cbn [custom_records custom_size custom_filePath].
  split; [now rewrite <- app_assoc|].
  repeat (split; [reflexivity|]).
  intros ->. reflexivity.
Qed.

Lemma exportCustomData_reports_what_it_wrote_witness :
  exists r d',
    exportCustomData Samples.stringify Samples.numberText MoreSamples.disk
                     (DataArray Samples.twoRecords) "out/report.csv" None []
    = (Normal r, d') /\
    custom_records r = 2%nat /\
    ExportSpec.written d' = ["out/report.csv"].
Proof.
  eexists. eexists. split; [reflexivity|].
  destruct (exportCustomData_reports_what_it_wrote
              Samples.stringify Samples.numberText MoreSamples.disk
              Samples.twoRecords "out/report.csv" None [] _ _ eq_refl)
    as (_ & Hrecords & _).
  split; [exact Hrecords | reflexivity].
Defined.

(** With no success and at least one failure, an export into separate
    files with a time stamp writes the file of the failures and the
    summary, and no other. *)
Lemma export_failures_only
      (JSON_stringify : JsValue -> string) (Number_toString : float -> string)
      (sortByTimestamp : list JsObject -> list JsObject) (fs : Fs)
      (updateResults : UpdateResults) (dir base : string)
      (d d' : Disk) (r : ExportResults) :
  successfulUpdates updateResults = [] ->
  failedUpdates updateResults <> [] ->
  exportUpdateResults JSON_stringify Number_toString sortByTimestamp fs
                      updateResults
                      {| outputDir := Some dir; baseFilename := Some base;
                         separateFiles := Some true;
                         includeTimestamp := Some true |} d
  = (Normal r, d') ->
  exists timestamp,
    written d'
    = written d
      ++ [ path_join fs dir (base ++ "_failed" ++ timestamp ++ ".csv")%string;
           path_join fs dir (base ++ "_summary" ++ timestamp ++ ".csv")%string ].
Proof.
  intros Hnone Hsome.
  unfold exportUpdateResults, exportSeparate. cbn [default outputDir
    baseFilename separateFiles includeTimestamp]. step_fs.
  rewrite Hnone. cbn [length Nat.ltb Nat.leb].
  destruct (failedUpdates updateResults) as [|f0 rest]; [congruence|].
  cbn [length Nat.ltb Nat.leb].
  repeat (destruct (fs_mkdir fs _ _); [intros H; discriminate H|]).
  repeat (destruct (fs_writeFile fs _ _ _); [intros H; discriminate H|]).
  intros H. injection H as _ <-.
  exists ("_" ++ dropLast5 (dashes (Date_iso fs (d ++ [EvMkdir dir])%list)))%string.
  unfold written. rewrite !flat_map_app. cbn [flat_map writtenPath app].
  rewrite <- !app_assoc. reflexivity.
Qed.

End ExporterFacts.

(* ===================================================================== *)
(** * Facts about the orchestrator *)
(* ===================================================================== *)

Module OrchestratorFacts.
Import Js Runtime SalesforceUpdater FsRuntime Workflow Orchestrator.
Import BatchSpec ExportSpec.
Local Open Scope wf_scope.
Local Open Scope list_scope.

Ltac step_wf :=
  cbv beta iota zeta
      delta [Workflow.bind Workflow.ret Workflow.throw Workflow.try_catch
             Workflow.onUpdater Workflow.onDisk].



(** Updates that are neither an array nor an object with an object type
    make [executeUpdateWorkflow] throw the error of the invalid format:
    nothing is sent, nothing is recorded and nothing is written. *)
Theorem executeUpdateWorkflow_rejects_other_input
        (env : Env) (JSON_stringify : JsValue -> string)
        (Number_toString : float -> string)
        (sortByTimestamp : list JsObject -> list JsObject) (fs : Fs)
        (fuel : nat) (updates : Updates) (objectType : option string)
        (options : WorkflowOptions) (u : Updater) (w : World) (d : Disk) :
  (forall updateList, updates <> UpdatesArray updateList) ->
  given objectType = None \/ updates = UpdatesNoObject ->
  executeUpdateWorkflow env JSON_stringify Number_toString sortByTimestamp
                        fs fuel updates objectType options u w d
  = (Throw invalidFormat, u, w, d).
Proof.
  intros Harray Hother. unfold executeUpdateWorkflow. step_wf.
  destruct updates as [updateList|pairs| |].
  - now destruct (Harray updateList).
  - destruct Hother as [-> | H]; [reflexivity | discriminate H].
  - destruct Hother as [-> | H]; [reflexivity | discriminate H].
  - reflexivity.
Qed.

Lemma executeUpdateWorkflow_rejects_other_input_witness :
  executeUpdateWorkflow Samples.env Samples.stringify Samples.numberText
                        MoreSamples.inOrder MoreSamples.disk 4
                        (UpdatesObject MoreSamples.renames) (Some EmptyString)
                        MoreSamples.inPairs Samples.fresh [] []
  = (Throw invalidFormat, Samples.fresh, [], []).
Proof.
  apply executeUpdateWorkflow_rejects_other_input;
    [intros updateList H; discriminate H | left; reflexivity].
Defined.



End OrchestratorFacts.

(* ===================================================================== *)
(** * Facts about the Vimeo integration *)
(* ===================================================================== *)

Module VimeoFacts.
Import JsString Js Runtime SalesforceUpdater FsRuntime JsText.
Import Vimeo VimeoSpec ExportSpec.
Local Open Scope fs_scope.
Local Open Scope list_scope.

Ltac step_fs := ExporterFacts.step_fs.

Lemma own_replace_same {V : Type} (obj : list (string * V)) (key : string)
      (v : V) :
  own obj key <> None -> own (replace obj key v) key = Some v.
Proof.
  induction obj as [|[k old] rest IH]; cbn [replace own]; [congruence|].
  destruct (String.eqb k key) eqn:E; cbn [own]; rewrite E; auto.
Qed.

Lemma own_replace_other {V : Type} (obj : list (string * V))
      (key other : string) (v : V) :
  other <> key -> own (replace obj key v) other = own obj other.
Proof.
  intros Hne. induction obj as [|[k old] rest IH]; cbn [replace own];
    [reflexivity|].
  destruct (String.eqb k key) eqn:E; cbn [own].
  - apply String.eqb_eq in E. subst k.
    destruct (String.eqb key other) eqn:E'; [|reflexivity].
    apply String.eqb_eq in E'. congruence.
  - now rewrite IH.
Qed.

Lemma own_insertIndex_same {V : Type} (n : N) (obj : list (string * V))
      (key : string) (v : V) :
  own obj key = None -> own (insertIndex n key v obj) key = Some v.
Proof.
  induction obj as [|[k old] rest IH]; cbn [insertIndex own]; intros Hnone.
  - now rewrite String.eqb_refl.
  - destruct (String.eqb k key) eqn:E; [discriminate|].
    destruct (arrayIndex k) as [m|];
      [destruct (m <? n)%N|]; cbn [own]; rewrite ?String.eqb_refl, ?E; auto.
Qed.

Lemma own_insertIndex_other {V : Type} (n : N) (obj : list (string * V))
      (key other : string) (v : V) :
  other <> key -> own (insertIndex n key v obj) other = own obj other.
Proof.
  intros Hne.
  assert (Hkey : String.eqb key other = false).
  { apply String.eqb_neq. congruence. }
  induction obj as [|[k old] rest IH]; cbn [insertIndex own].
  - now rewrite Hkey.
  - destruct (arrayIndex k) as [m|];
      [destruct (m <? n)%N|]; cbn [own]; rewrite ?Hkey, ?IH; reflexivity.
Qed.

Lemma own_app {V : Type} (obj more : list (string * V)) (key : string) :
  own (obj ++ more) key
  = match own obj key with Some v => Some v | None => own more key end.
Proof.
  induction obj as [|[k old] rest IH]; cbn [app own]; [reflexivity|].
  destruct (String.eqb k key); auto.
Qed.

(** What an assignment leaves under its own key and under the others. *)
Lemma own_put_same {V : Type} (obj : list (string * V)) (key : string)
      (v : V) :
  key <> "__proto__" -> own (put obj key v) key = Some v.
Proof.
  intros Hkey. unfold put. destruct (own obj key) as [old|] eqn:Hown.
  - apply own_replace_same. congruence.
  - apply String.eqb_neq in Hkey. rewrite Hkey.
    destruct (arrayIndex key) as [n|].
    + now apply own_insertIndex_same.
    + rewrite own_app, Hown. cbn [own]. now rewrite String.eqb_refl.
Qed.

Lemma own_put_other {V : Type} (obj : list (string * V))
      (key other : string) (v : V) :
  other <> key -> own (put obj key v) other = own obj other.
Proof.
  intros Hne. unfold put. destruct (own obj key) as [old|] eqn:Hown.
  - now apply own_replace_other.
  - destruct (String.eqb key "__proto__"); [reflexivity|].
    destruct (arrayIndex key) as [n|].
    + now apply own_insertIndex_other.
    + rewrite own_app. cbn [own].
      assert (Hkey : String.eqb key other = false).
      { apply String.eqb_neq. congruence. }
      rewrite Hkey. now destruct (own obj other).
Qed.

(** No assignment gives an object a property [__proto__] of its own. *)
Lemma own_put_proto {V : Type} (obj : list (string * V)) (key : string)
      (v : V) :
  own obj "__proto__" = None -> own (put obj key v) "__proto__" = None.
Proof.
  intros Hnone. destruct (String.eqb key "__proto__") eqn:E.
  - apply String.eqb_eq in E. subst key. unfold put.
    now rewrite Hnone, String.eqb_refl.
  - rewrite own_put_other; [exact Hnone|].
    intros Heq. now rewrite <- Heq, String.eqb_refl in E.
Qed.

Lemma Forall_replace {V : Type} (P : string * V -> Prop)
      (obj : list (string * V)) (key : string) (v : V) :
  Forall P obj -> P (key, v) -> Forall P (replace obj key v).
Proof.
  intros Hobj Hnew. induction Hobj as [|[k old] rest Hk Hrest IH];
    cbn [replace].
  - constructor.
  - destruct (String.eqb k key) eqn:E.
    + apply String.eqb_eq in E. subst k. now constructor.
    + now constructor.
Qed.

Lemma Forall_insertIndex {V : Type} (P : string * V -> Prop) (n : N)
      (obj : list (string * V)) (key : string) (v : V) :
  Forall P obj -> P (key, v) -> Forall P (insertIndex n key v obj).
Proof.
  intros Hobj Hnew. induction Hobj as [|[k old] rest Hk Hrest IH];
    cbn [insertIndex].
  - now constructor.
  - destruct (arrayIndex k) as [m|]; [destruct (m <? n)%N|];
      repeat (constructor; try assumption).
Qed.

Lemma Forall_put {V : Type} (P : string * V -> Prop)
      (obj : list (string * V)) (key : string) (v : V) :
  Forall P obj -> P (key, v) -> Forall P (put obj key v).
Proof.
  intros Hobj Hnew. unfold put. destruct (own obj key).
  - now apply Forall_replace.
  - destruct (String.eqb key "__proto__"); [exact Hobj|].
    destruct (arrayIndex key) as [n|].
    + now apply Forall_insertIndex.
    + apply Forall_app. split; [exact Hobj|]. now constructor.
Qed.

(** Under the name of a field the record gives its own property, and
    undefined when it has none. *)
Lemma get_field_name (vimeoRecord : VimeoRecord) (name : FieldName) :
  get (objectOfRecord vimeoRecord) (fieldName name)
  = match own vimeoRecord (fieldName name) with
    | Some value => VString value
    | None => VUndefined
    end.
Proof.
  induction vimeoRecord as [|[k v] rest IH]; cbn [objectOfRecord map get own].
  - apply namesNoMember.
  - cbn [fst snd]. destruct (String.eqb k (fieldName name)); [reflexivity|].
    exact IH.
Qed.

Lemma read_own (vimeoRecord : VimeoRecord) (name : FieldName) :
  read vimeoRecord name = own vimeoRecord (fieldName name).
Proof.
  unfold read. rewrite get_field_name.
  now destruct (own vimeoRecord (fieldName name)).
Qed.

(** The loop over the field mapping: every property it leaves comes from
    an entry of the mapping, and no entry that the record fills is
    dropped, but for one whose Salesforce field is [__proto__]. *)
Lemma mapFields_mapped (fieldMapping : FieldMapping)
      (vimeoRecord : VimeoRecord) (todayFormatted : string) :
  forall (done : FieldMapping) (updateData : list (string * string)),
    Forall (Mapped (done ++ fieldMapping) vimeoRecord todayFormatted)
           updateData ->
    Forall (Mapped (done ++ fieldMapping) vimeoRecord todayFormatted)
           (fold_left (mapField vimeoRecord todayFormatted)
                      fieldMapping updateData).
Proof.
  induction fieldMapping as [|[vimeoField salesforceField] rest IH];
    intros done updateData Hall; cbn [fold_left]; [exact Hall|].
  replace (done ++ (vimeoField, salesforceField) :: rest)
    with ((done ++ [(vimeoField, salesforceField)]) ++ rest) in *
    by (now rewrite <- app_assoc).
  apply IH. unfold mapField. rewrite read_own.
  destruct (own vimeoRecord (fieldName vimeoField)) as [value|] eqn:Hlook;
    [|exact Hall].
  destruct (String.eqb value EmptyString) eqn:Hempty; [exact Hall|].
  apply Forall_put; [exact Hall|].
  exists vimeoField, value. cbn [fst snd]. split.
  { apply in_or_app. left. apply in_or_app. right. now left. }
  split; [|reflexivity].
  unfold present. now rewrite Hlook, Hempty.
Qed.

Lemma mapFields_keeps (fieldMapping : FieldMapping)
      (vimeoRecord : VimeoRecord) (todayFormatted : string)
      (salesforceField : string) :
  salesforceField <> "__proto__" ->
  forall updateData : list (string * string),
    own updateData salesforceField <> None ->
    own (fold_left (mapField vimeoRecord todayFormatted)
                   fieldMapping updateData) salesforceField <> None.
Proof.
  intros Hproto.
  induction fieldMapping as [|[vf sf] rest IH]; intros updateData Hin;
    cbn [fold_left]; [exact Hin|].
  apply IH. unfold mapField.
  destruct (read vimeoRecord vf) as [value|]; [|exact Hin].
  destruct (String.eqb value EmptyString); [exact Hin|].
  destruct (String.eqb sf salesforceField) eqn:E.
  - apply String.eqb_eq in E. subst sf. rewrite own_put_same by exact Hproto.
    discriminate.
  - rewrite own_put_other; [exact Hin|].
    intros ->. now rewrite String.eqb_refl in E.
Qed.

Lemma mapFields_complete (fieldMapping : FieldMapping)
      (vimeoRecord : VimeoRecord) (todayFormatted : string)
      (vimeoField : FieldName) (salesforceField : string) :
  salesforceField <> "__proto__" ->
  forall updateData : list (string * string),
    In (vimeoField, salesforceField) fieldMapping ->
    present vimeoRecord (fieldName vimeoField) <> None ->
    own (fold_left (mapField vimeoRecord todayFormatted)
                   fieldMapping updateData) salesforceField <> None.
Proof.
  intros Hproto.
  induction fieldMapping as [|[vf sf] rest IH]; intros updateData Hin Hpresent;
    [destruct Hin|].
  cbn [fold_left]. destruct Hin as [Heq|Hin].
  - injection Heq as -> ->. apply mapFields_keeps; [exact Hproto|].
    unfold mapField, present in *. rewrite read_own.
    destruct (own vimeoRecord (fieldName vimeoField)) as [value|];
      [|congruence].
    destruct (String.eqb value EmptyString); [congruence|].
    rewrite own_put_same by exact Hproto. discriminate.
  - now apply IH.
Qed.

Lemma mapFields_no_proto (fieldMapping : FieldMapping)
      (vimeoRecord : VimeoRecord) (todayFormatted : string) :
  forall updateData : list (string * string),
    own updateData "__proto__" = None ->
    own (fold_left (mapField vimeoRecord todayFormatted)
                   fieldMapping updateData) "__proto__" = None.
Proof.
  induction fieldMapping as [|[vf sf] rest IH]; intros updateData Hnone;
    cbn [fold_left]; [exact Hnone|].
  apply IH. unfold mapField.
  destruct (read vimeoRecord vf) as [value|]; [|exact Hnone].
  destruct (String.eqb value EmptyString); [exact Hnone|].
  now apply own_put_proto.
Qed.

(** [transformRecord], for an identifier and a field mapping whose Vimeo
    fields name no member of [Object.prototype], throws, before it reads
    the clock, when the record does not name a Work Order.  When it
    does, the call returns the update of that Work Order: every property
    of its data comes from an entry of the field mapping that the record
    fills, no such entry is left out but one whose Salesforce field is
    [__proto__], a name under which the data get no property, and a date
    field carries the date of today, whatever the record says. *)
Theorem transformRecord_maps_the_filled_fields (fs : Fs)
        (fieldMapping : FieldMapping) (vimeoRecord : VimeoRecord)
        (workOrderIdentifier : option FieldName) (d : Disk) :
  let identifier := fieldName (default work_order_name workOrderIdentifier) in
  let todayFormatted := formatDate (Date_local fs d) in
  match present vimeoRecord identifier with
  | None =>
      transformRecord fs fieldMapping vimeoRecord workOrderIdentifier d
      = (Throw (identifierNotFound identifier), d)
  | Some workOrderName =>
      exists updateData metadata,
        transformRecord fs fieldMapping vimeoRecord workOrderIdentifier d
        = (Normal {| WorkOrderUpdate.workOrderNumber := workOrderName;
                     WorkOrderUpdate.updateData :=
                       VObject (objectOfRecord updateData);
                     WorkOrderUpdate.metadata := Some metadata |},
           d ++ [EvNow; EvNow]) /\
        Forall (Mapped fieldMapping vimeoRecord todayFormatted) updateData /\
        (forall vimeoField salesforceField,
            In (vimeoField, salesforceField) fieldMapping ->
            present vimeoRecord (fieldName vimeoField) <> None ->
            salesforceField <> "__proto__" ->
            own updateData salesforceField <> None) /\
        own updateData "__proto__" = None /\
        get metadata "originalRecord" = VObject (objectOfRecord vimeoRecord)
  end.
Proof.
  intros identifier todayFormatted. unfold transformRecord, present.
  rewrite read_own. fold identifier.
  destruct (own vimeoRecord identifier) as [name|]; [|reflexivity].
  destruct (String.eqb name EmptyString); [reflexivity|].
  step_fs. cbv beta iota delta [today]. fold todayFormatted.
  eexists. eexists. split; [now rewrite <- app_assoc|].
  split; [|split; [|split; [|reflexivity]]].
  - apply (mapFields_mapped fieldMapping vimeoRecord todayFormatted []).
    constructor.
  - intros vf sf Hin Hpresent Hproto. now apply mapFields_complete with vf.
  - now apply mapFields_no_proto.
Qed.

Ltac step_wf := OrchestratorFacts.step_wf.

Lemma changes_app (a b : Disk) : changes (a ++ b) = changes a ++ changes b.
Proof. apply filter_app. Qed.

Lemma changes_quiet (d quiet : Disk) :
  changes quiet = [] -> changes (d ++ quiet) = changes d.
Proof. intros H. now rewrite changes_app, H, app_nil_r. Qed.

Lemma readCSV_reads (fs : Fs) (filePath : string) (d : Disk) :
  exists c, readCSV fs filePath d = (c, d ++ [EvReadFile filePath]).
Proof.
  unfold readCSV. step_fs.
  destruct (fs_readFile fs d filePath) as [e|content];
    [eexists; reflexivity|].
  cbv beta iota.
  destruct (length (split lf (trim content)) <? 2)%nat;
    eexists; reflexivity.
Qed.

Lemma readJSON_reads (JSON_parse : string -> JsError + Parsed) (fs : Fs)
      (filePath : string) (d : Disk) :
  exists c, readJSON JSON_parse fs filePath d
            = (c, d ++ [EvReadFile filePath]).
Proof.
  unfold readJSON. step_fs.
  destruct (fs_readFile fs d filePath) as [e|content];
    [eexists; reflexivity|].
  cbv beta iota.
  destruct (JSON_parse content) as [e|[records|records| |]];
    eexists; reflexivity.
Qed.

Lemma transformRecord_cases (fs : Fs) (fieldMapping : FieldMapping)
      (vimeoRecord : VimeoRecord) (workOrderIdentifier : option FieldName)
      (d : Disk) :
  (exists e,
      transformRecord fs fieldMapping vimeoRecord workOrderIdentifier d
      = (Throw e, d)) \/
  (exists update,
      transformRecord fs fieldMapping vimeoRecord workOrderIdentifier d
      = (Normal update, d ++ [EvNow; EvNow])).
Proof.
  unfold transformRecord.
  destruct (read vimeoRecord _) as [name|];
    [|left; eexists; reflexivity].
  destruct (String.eqb name EmptyString); [left; eexists; reflexivity|].
  right. step_fs. cbv beta iota delta [today].
  eexists. now rewrite <- app_assoc.
Qed.

(** The loop over the records ends, with every record either among the
    updates or among the transform errors, and has only read the
    clock. *)
Lemma transformAll_run (fs : Fs) (fieldMapping : FieldMapping)
      (workOrderIdentifier : FieldName) (vimeoRecords : list VimeoRecord) :
  forall (index : nat) (updates : list WorkOrderUpdate.t)
         (transformErrors : list TransformError) (d : Disk),
  exists updates' transformErrors' clock,
    transformAll fs fieldMapping workOrderIdentifier vimeoRecords index
                 updates transformErrors d
    = (Normal (updates', transformErrors'), d ++ clock) /\
    (length updates' + length transformErrors'
     = length updates + length transformErrors + length vimeoRecords)%nat /\
    changes clock = [].
Proof.
  induction vimeoRecords as [|record rest IH];
    intros index updates transformErrors d; cbn [transformAll].
  - exists updates, transformErrors, []. step_fs.
    rewrite app_nil_r. split; [reflexivity|]. cbn [length]. split; [lia|].
    reflexivity.
  - step_fs.
    destruct (transformRecord_cases fs fieldMapping record
                (Some workOrderIdentifier) d) as [[e ->] | [update ->]];
      cbv beta iota; cbn [fst snd].
    + destruct (IH (S index) updates
                   (transformErrors
                      ++ [ {| index := index; record := record;
                              error := message e |} ]) d)
        as (updates' & errors' & clock & -> & Hlen & Hquiet).
      exists updates', errors', clock. split; [reflexivity|].
      rewrite length_app in Hlen. cbn [length] in *. split; [lia|exact Hquiet].
    + destruct (IH (S index) (updates ++ [update]) transformErrors
                   (d ++ [EvNow; EvNow]))
        as (updates' & errors' & clock & -> & Hlen & Hquiet).
      exists updates', errors', ([EvNow; EvNow] ++ clock).
      rewrite app_assoc. split; [reflexivity|].
      rewrite length_app in Hlen. cbn [length] in *. split; [lia|].
      rewrite changes_app, Hquiet. reflexivity.
Qed.

Section Run.
Variable env : Env.
Variable JSON_stringify : JsValue -> string.
Variable Number_toString : float -> string.
Variable sortByTimestamp : list JsObject -> list JsObject.
Variable JSON_parse : string -> JsError + Parsed.
Variable fs : Fs.
Variable fieldMapping : FieldMapping.
Variable fuel : nat.
Variable filePath : string.
Variable options : VimeoOptions.

Let run := processVimeoExport env JSON_stringify Number_toString
                              sortByTimestamp JSON_parse fs fieldMapping
                              fuel filePath options.
Let inner := Options.make (Some (default 5%Z (batchSize options)))
                          (Some (default 100%Z (delayMs options))).
Let exportOptions :=
  {| Exporter.outputDir := Some (default "./exports" (exportDir options));
     Exporter.baseFilename := Some "vimeo_salesforce_sync";
     Exporter.separateFiles := Some true;
     Exporter.includeTimestamp := Some true |}.

(** The course of [processVimeoExport]: the file is read and the records
    are transformed without a change to the disk or a call of the
    updater; what follows depends on the number of updates and on the
    options. *)
Lemma processVimeoExport_run (u : Updater) (w : World) (d : Disk) :
  (exists c quiet,
      run u w d = (c, u, w, d ++ quiet) /\ changes quiet = [] /\
      forall r, c <> Normal r) \/
  (exists (vimeoRecords : list VimeoRecord)
          (updates : list WorkOrderUpdate.t)
          (transformErrors : list TransformError) (quiet : Disk),
      (length updates + length transformErrors = length vimeoRecords)%nat /\
      changes quiet = [] /\
      if (length updates =? 0)%nat then
        run u w d
        = (Normal (NothingToProcess (length vimeoRecords) 0
                                    (length transformErrors) 0),
           u, w, d ++ quiet)
      else if default false (dryRun options) then
        run u w d
        = (Normal (DryRun (length vimeoRecords) (length updates)
                          (length transformErrors) (firstn 5 updates)),
           u, w, d ++ quiet)
      else
        exists c u1 w1,
          processWorkOrderUpdates env fuel updates inner u w = (c, u1, w1) /\
          match c with
          | Normal results =>
              let processed :=
                Processed (length vimeoRecords) (length updates)
                          (length transformErrors) results
                          (Results.successful results)
                          (Results.failed results)
                          (Results.successRate results) in
              if default true (exportResults options) then
                exists ce d2,
                  Exporter.exportUpdateResults
                    JSON_stringify Number_toString sortByTimestamp fs
                    (Exporter.resultsOf results) exportOptions (d ++ quiet)
                  = (ce, d2) /\
                  run u w d
                  = (match ce with
                     | Normal _ => Normal processed
                     | Throw e => Throw e
                     | OutOfFuel => OutOfFuel
                     end, u1, w1, d2)
              else run u w d = (Normal processed, u1, w1, d ++ quiet)
          | Throw e => run u w d = (Throw e, u1, w1, d ++ quiet)
          | OutOfFuel => run u w d = (OutOfFuel, u1, w1, d ++ quiet)
          end).
Proof.
  assert (Hread : exists c quiet,
             readExport JSON_parse fs filePath u w d = (c, u, w, d ++ quiet)
             /\ changes quiet = []).
  { unfold readExport. destruct (endsWith ".json" filePath).
    - destruct (readJSON_reads JSON_parse fs filePath d) as [c Hc].
      exists c, [EvReadFile filePath]. unfold Workflow.onDisk.
      now rewrite Hc.
    - destruct (endsWith ".csv" filePath).
      + destruct (readCSV_reads fs filePath d) as [c Hc].
        exists c, [EvReadFile filePath]. unfold Workflow.onDisk.
        now rewrite Hc.
      + exists (Throw unsupportedFormat), []. now rewrite app_nil_r. }
  destruct Hread as (c & reading & Hread & Hreading).
  assert (Hrun : run u w d
                 = match c with
                   | Normal vimeoRecords =>
                       Workflow.try_catch
                         (processRecords
                            env JSON_stringify Number_toString sortByTimestamp
                            fs fieldMapping fuel
                            (default work_order_name
                                     (workOrderIdentifier options))
                            (default 5%Z (batchSize options))
                            (default 100%Z (delayMs options))
                            (default false (dryRun options))
                            (default true (exportResults options))
                            (default "./exports" (exportDir options))
                            vimeoRecords)
                         (fun error => Workflow.throw error)
                         u w (d ++ reading)
                   | Throw e => (Throw e, u, w, d ++ reading)
                   | OutOfFuel => (OutOfFuel, u, w, d ++ reading)
                   end).
  { subst run. unfold processVimeoExport. cbv zeta.
    unfold Workflow.try_catch, Workflow.bind, Workflow.throw.
    rewrite Hread. destruct c; reflexivity. }
  rewrite Hrun. clear Hrun.
  destruct c as [vimeoRecords|e|];
    [|left; eexists; eexists; split; [reflexivity|];
      split; [exact Hreading|]; discriminate ..].
  right.
  destruct (transformAll_run fs fieldMapping
              (default work_order_name (workOrderIdentifier options))
              vimeoRecords 0 [] [] (d ++ reading))
    as (updates & transformErrors & clock & Htransform & Hlen & Hquiet).
  exists vimeoRecords, updates, transformErrors, (reading ++ clock).
  rewrite app_assoc. cbn [length] in Hlen.
  split; [lia|]. split; [rewrite changes_app, Hreading, Hquiet; reflexivity|].
  unfold processRecords. step_wf. rewrite Htransform. cbn [fst snd].
  destruct (length updates =? 0)%nat; [reflexivity|].
  destruct (default false (dryRun options)); [reflexivity|].
  fold inner.
  destruct (processWorkOrderUpdates env fuel updates inner u w)
    as [[c u1] w1] eqn:Hupdate.
  exists c, u1, w1. split; [reflexivity|].
  destruct c as [results|e|]; [|reflexivity..].
  cbv zeta.
  destruct (default true (exportResults options)); [|reflexivity].
  fold exportOptions.
  destruct (Exporter.exportUpdateResults
              JSON_stringify Number_toString sortByTimestamp fs
              (Exporter.resultsOf results) exportOptions
              ((d ++ reading) ++ clock)) as [ce d2] eqn:Hexport.
  exists ce, d2. split; [reflexivity|].
  destruct ce; reflexivity.
Qed.

End Run.

(** Every result of [processVimeoExport] accounts for every record read:
    the records transformed and the transform errors add up to the total,
    and a dry run shows at most five updates. *)
Theorem processVimeoExport_counts_every_record
        (env : Env) (JSON_stringify : JsValue -> string)
        (Number_toString : float -> string)
        (sortByTimestamp : list JsObject -> list JsObject)
        (JSON_parse : string -> JsError + Parsed) (fs : Fs)
        (fieldMapping : FieldMapping) (fuel : nat) (filePath : string)
        (options : VimeoOptions) (u u' : Updater) (w w' : World)
        (d d' : Disk) (result : VimeoResult) :
  processVimeoExport env JSON_stringify Number_toString sortByTimestamp
                     JSON_parse fs fieldMapping fuel filePath options u w d
  = (Normal result, u', w', d') ->
  (snd (fst (counts result)) + snd (counts result))%nat
  = fst (fst (counts result)) /\
  match result with
  | NothingToProcess _ transformed _ processed =>
      transformed = 0%nat /\ processed = 0%nat
  | DryRun _ transformed _ sampleUpdates =>
      length sampleUpdates = Nat.min 5 transformed
  | Processed _ transformed _ results success failed rate =>
      Results.totalProcessed results = transformed /\
      success = Results.successful results /\
      failed = Results.failed results /\
      rate = Results.successRate results
  end.
Proof.
  intros Hrun.
  destruct (processVimeoExport_run env JSON_stringify Number_toString
              sortByTimestamp JSON_parse fs fieldMapping fuel filePath
              options u w d)
    as [(c & quiet & Hc & _ & Hnot)
       |(records & updates & errors & quiet & Hlen & _ & Hcases)].
  { rewrite Hc in Hrun. injection Hrun as -> _ _ _. now destruct (Hnot result). }
  destruct (length updates =? 0)%nat eqn:Hzero.
  { rewrite Hcases in Hrun. injection Hrun as <- _ _ _.
    apply Nat.eqb_eq in Hzero. cbn [counts fst snd]. split; [lia|]. split; reflexivity. }
  destruct (default false (dryRun options)).
  { rewrite Hcases in Hrun.
    assert (Hresult : result
                      = DryRun (length records) (length updates)
                               (length errors) (firstn 5 updates))
      by congruence.
    rewrite Hresult. cbn [counts fst snd].
    split; [exact Hlen|]. apply length_firstn. }
  destruct Hcases as (c & u1 & w1 & Hupdate & Hc).
  destruct c as [results|e|];
    [|rewrite Hc in Hrun; discriminate Hrun ..].
  assert (Htotal : Results.totalProcessed results = length updates).
  { unfold processWorkOrderUpdates, processList in Hupdate.
    revert Hupdate. cbv beta iota zeta delta [Runtime.bind Runtime.assign].
    destruct (batchLoop _ _ _ _ _ _ _ _ _) as [[[x| |] ?] ?];
      try (intros H; discriminate H).
    cbv beta iota delta [Runtime.this Runtime.ret].
    intros H. injection H as <- _ _. reflexivity. }
  cbv zeta in Hc.
  destruct (default true (exportResults options)).
  - destruct Hc as (ce & d2 & _ & Hc). rewrite Hc in Hrun.
    destruct ce; try discriminate Hrun.
    injection Hrun as <- _ _ _. cbn [counts fst snd]. split; [exact Hlen|].
    repeat split. exact Htotal.
  - rewrite Hc in Hrun. injection Hrun as <- _ _ _. cbn [counts fst snd].
    split; [exact Hlen|]. repeat split. exact Htotal.
Qed.

Lemma processVimeoExport_counts_every_record_witness :
  exists u' w' d' sampleUpdates,
    processVimeoExport Samples.env Samples.stringify Samples.numberText
                       MoreSamples.inOrder MoreSamples.noJSON
                       MoreSamples.diskWithExport getDefaultFieldMapping 4
                       "export.csv" MoreSamples.dryRunOptions
                       Samples.fresh [] []
    = (Normal (DryRun 3 2 1 sampleUpdates), u', w', d') /\
    length sampleUpdates = 2%nat.
Proof.
  eexists. eexists. eexists. eexists. split; [vm_compute; reflexivity|].
  destruct (processVimeoExport_counts_every_record
              Samples.env Samples.stringify Samples.numberText
              MoreSamples.inOrder MoreSamples.noJSON
              MoreSamples.diskWithExport getDefaultFieldMapping 4
              "export.csv" MoreSamples.dryRunOptions
              Samples.fresh Samples.fresh [] [] [] _ _ eq_refl)
    as [_ Hsample].
  exact Hsample.
Defined.

(** A dry run changes nothing: whatever the file holds,
    [processVimeoExport] with [dryRun] leaves the updater and the history
    of its requests as they were, makes no directory and writes no file,
    and its result is not the one of a run that processed updates. *)
Theorem processVimeoExport_dry_run_changes_nothing
        (env : Env) (JSON_stringify : JsValue -> string)
        (Number_toString : float -> string)
        (sortByTimestamp : list JsObject -> list JsObject)
        (JSON_parse : string -> JsError + Parsed) (fs : Fs)
        (fieldMapping : FieldMapping) (fuel : nat) (filePath : string)
        (options : VimeoOptions) (u : Updater) (w : World) (d : Disk) :
  default false (dryRun options) = true ->
  exists c d',
    processVimeoExport env JSON_stringify Number_toString sortByTimestamp
                       JSON_parse fs fieldMapping fuel filePath options u w d
    = (c, u, w, d') /\
    changes d' = changes d /\
    forall total transformed errors results success failed rate,
      c <> Normal (Processed total transformed errors results
                             success failed rate).
Proof.
  intros Hdry.
  destruct (processVimeoExport_run env JSON_stringify Number_toString
              sortByTimestamp JSON_parse fs fieldMapping fuel filePath
              options u w d)
    as [(c & quiet & Hc & Hquiet & Hnot)
       |(records & updates & errors & quiet & Hlen & Hquiet & Hcases)].
  { exists c, (d ++ quiet). split; [exact Hc|].
    split; [now apply changes_quiet|]. intros. apply Hnot. }
  rewrite Hdry in Hcases.
  destruct (length updates =? 0)%nat;
    eexists; eexists; (split; [exact Hcases|]);
    (split; [now apply changes_quiet|]); intros; discriminate.
Qed.

Lemma processVimeoExport_dry_run_changes_nothing_witness :
  exists c d',
    processVimeoExport Samples.env Samples.stringify Samples.numberText
                       MoreSamples.inOrder MoreSamples.noJSON
                       MoreSamples.diskWithExport getDefaultFieldMapping 4
                       "export.csv" MoreSamples.dryRunOptions
                       Samples.fresh [] []
    = (c, Samples.fresh, [], d') /\
    changes d' = [].
Proof.
  destruct (processVimeoExport_dry_run_changes_nothing
              Samples.env Samples.stringify Samples.numberText
              MoreSamples.inOrder MoreSamples.noJSON
              MoreSamples.diskWithExport getDefaultFieldMapping 4
              "export.csv" MoreSamples.dryRunOptions Samples.fresh [] []
              eq_refl)
    as (c & d' & Hrun & Hchanges & _).
  exists c, d'. split; [exact Hrun | exact Hchanges].
Defined.

(** Whatever the file, the options and the number of steps allowed,
    [processVimeoExport] sends no PATCH: no Work Order is updated. *)
Theorem processVimeoExport_never_patches
        (env : Env) (JSON_stringify : JsValue -> string)
        (Number_toString : float -> string)
        (sortByTimestamp : list JsObject -> list JsObject)
        (JSON_parse : string -> JsError + Parsed) (fs : Fs)
        (fieldMapping : FieldMapping) (fuel : nat) (filePath : string)
        (options : VimeoOptions) (u : Updater) (w : World) (d : Disk) :
  exists c u' requests d',
    processVimeoExport env JSON_stringify Number_toString sortByTimestamp
                       JSON_parse fs fieldMapping fuel filePath options u w d
    = (c, u', w ++ requests, d') /\
    BatchSpec.patches requests = [].
Proof.
  destruct (processVimeoExport_run env JSON_stringify Number_toString
              sortByTimestamp JSON_parse fs fieldMapping fuel filePath
              options u w d)
    as [(c & quiet & Hc & _ & _)
       |(records & updates & errors & quiet & _ & _ & Hcases)].
  { exists c, u, [], (d ++ quiet). rewrite app_nil_r. now split. }
  destruct (length updates =? 0)%nat;
    [eexists; exists u, []; eexists; rewrite app_nil_r;
     split; [exact Hcases | reflexivity]|].
  destruct (default false (dryRun options));
    [eexists; exists u, []; eexists; rewrite app_nil_r;
     split; [exact Hcases | reflexivity]|].
  destruct Hcases as (c & u1 & w1 & Hupdate & Hc).
  destruct (UpdaterMoreFacts.workOrders_no_patch
              env fuel updates
              (Options.make (Some (default 5%Z (batchSize options)))
                            (Some (default 100%Z (delayMs options)))) u w)
    as (c' & u1' & requests & Hupdate' & Hnone & _).
  rewrite Hupdate in Hupdate'. injection Hupdate' as _ _ ->.
  destruct c as [results|e|].
  - cbv zeta in Hc. destruct (default true (exportResults options)).
    + destruct Hc as (ce & d2 & _ & Hc).
      eexists. exists u1, requests. eexists. split; [exact Hc|exact Hnone].
    + eexists. exists u1, requests. eexists. split; [exact Hc|exact Hnone].
  - eexists. exists u1, requests. eexists. split; [exact Hc|exact Hnone].
  - eexists. exists u1, requests. eexists. split; [exact Hc|exact Hnone].
Qed.

(** For a batch size of one or more and enough steps, a run of
    [processVimeoExport] that processes updates reports no success and
    one failure for each update; with the export left on, the files
    written are the one of the failures and the summary, under the
    export directory, and no file of successes. *)
Theorem processVimeoExport_reports_only_failures
        (env : Env) (JSON_stringify : JsValue -> string)
        (Number_toString : float -> string)
        (sortByTimestamp : list JsObject -> list JsObject)
        (JSON_parse : string -> JsError + Parsed) (fs : Fs)
        (fieldMapping : FieldMapping) (fuel : nat) (filePath : string)
        (options : VimeoOptions) (u u' : Updater) (w w' : World)
        (d d' : Disk)
        (total transformed errors success failed : nat)
        (results : Results.t) (rate : string) :
  (1 <= default 5%Z (batchSize options))%Z ->
  (transformed < fuel)%nat ->
  processVimeoExport env JSON_stringify Number_toString sortByTimestamp
                     JSON_parse fs fieldMapping fuel filePath options u w d
  = (Normal (Processed total transformed errors results success failed rate),
     u', w', d') ->
  success = 0%nat /\
  failed = transformed /\
  Results.successfulUpdates results = [] /\
  (default true (exportResults options) = true ->
   exists timestamp,
     written d'
     = written d
       ++ [ path_join fs (default "./exports" (exportDir options))
                      ("vimeo_salesforce_sync_failed" ++ timestamp ++ ".csv");
            path_join fs (default "./exports" (exportDir options))
                      ("vimeo_salesforce_sync_summary" ++ timestamp
                       ++ ".csv") ]).
Proof.
  intros Hsize Hfuel Hrun.
  destruct (processVimeoExport_run env JSON_stringify Number_toString
              sortByTimestamp JSON_parse fs fieldMapping fuel filePath
              options u w d)
    as [(c & quiet & Hc & _ & Hnot)
       |(records & updates & errs & quiet & Hlen & Hquiet & Hcases)].
  { rewrite Hc in Hrun. injection Hrun as -> _ _ _.
    exfalso. eapply Hnot. reflexivity. }
  destruct (length updates =? 0)%nat eqn:Hzero;
    [rewrite Hcases in Hrun; discriminate Hrun|].
  apply Nat.eqb_neq in Hzero.
  destruct (default false (dryRun options));
    [rewrite Hcases in Hrun; discriminate Hrun|].
  destruct Hcases as (c & u1 & w1 & Hupdate & Hc).
  destruct c as [res|e|]; [|rewrite Hc in Hrun; discriminate Hrun ..].
  cbv zeta in Hc.
  assert (Hshape :
            transformed = length updates /\ results = res /\
            success = Results.successful res /\
            failed = Results.failed res /\
            (default true (exportResults options) = true ->
             exists r,
               Exporter.exportUpdateResults
                 JSON_stringify Number_toString sortByTimestamp fs
                 (Exporter.resultsOf res)
                 {| Exporter.outputDir :=
                      Some (default "./exports" (exportDir options));
                    Exporter.baseFilename := Some "vimeo_salesforce_sync";
                    Exporter.separateFiles := Some true;
                    Exporter.includeTimestamp := Some true |} (d ++ quiet)
               = (Normal r, d'))).
  { destruct (default true (exportResults options)).
    - destruct Hc as (ce & d2 & Hce & Hc). rewrite Hc in Hrun.
      destruct ce as [r|e|]; try discriminate Hrun.
      assert (d2 = d') by congruence. subst d2.
      repeat (split; [congruence|]). intros _. now exists r.
    - rewrite Hc in Hrun.
      repeat (split; [congruence|]). intros H. discriminate H. }
  destruct Hshape as (-> & -> & -> & -> & Hexport).
  destruct (UpdaterFacts.processList_run
              env CallUpdateWorkOrderByNumber _ 7
              TraceSpec.flaggedKey TraceSpec.flaggedEcho BatchSpec.workOrderRuns
              (UpdaterFacts.async_updateWorkOrderByNumber_records_failure env)
              updates
              (Options.make (Some (default 5%Z (batchSize options)))
                            (Some (default 100%Z (delayMs options))))
              fuel u w Hsize Hfuel)
    as (res' & u2 & trace & Hupdate' & _ & _ & _ & _ & Hs & Hf & _).
  destruct (UpdaterMoreFacts.workOrders_all_fail
              env fuel updates
              (Options.make (Some (default 5%Z (batchSize options)))
                            (Some (default 100%Z (delayMs options)))) u w
              Hsize Hfuel)
    as (res'' & u3 & w3 & Hupdate'' & Hnone & Hzero' & Hall & _).
  unfold processWorkOrderUpdates in Hupdate, Hupdate''.
  rewrite Hupdate in Hupdate', Hupdate''.
  injection Hupdate' as <- _ _. injection Hupdate'' as <- _ _.
  split; [exact Hzero'|]. split; [exact Hall|]. split; [exact Hnone|].
  intros Hon. destruct (Hexport Hon) as (r & Hce).
  destruct (ExporterFacts.export_failures_only
              JSON_stringify Number_toString sortByTimestamp fs
              (Exporter.resultsOf res)
              (default "./exports" (exportDir options))
              "vimeo_salesforce_sync" (d ++ quiet) d' r)
    as (timestamp & Hwritten).
  { cbn [Exporter.resultsOf Exporter.successfulUpdates]. now rewrite Hnone. }
  { cbn [Exporter.resultsOf Exporter.failedUpdates]. intros Hnil.
    apply (f_equal (@length _)) in Hnil. rewrite length_map in Hnil.
    cbn [length] in Hnil. lia. }
  { exact Hce. }
  exists timestamp. rewrite Hwritten.
  rewrite ExporterFacts.written_app.
  assert (Hq : written quiet = []).
  { clear -Hquiet. induction quiet as [|[| | |] rest IH];
      cbn in *; try discriminate; auto. }
  rewrite Hq, app_nil_r. reflexivity.
Qed.

Lemma processVimeoExport_reports_only_failures_witness :
  exists results u' w' d' rate,
    processVimeoExport Samples.env Samples.stringify Samples.numberText
                       MoreSamples.inOrder MoreSamples.noJSON
                       MoreSamples.diskWithExport getDefaultFieldMapping 4
                       "export.csv" MoreSamples.fullRun Samples.fresh [] []
    = (Normal (Processed 3 2 1 results 0 2 rate), u', w', d') /\
    Results.successfulUpdates results = [] /\
    length (written d') = 2%nat.
Proof.
  assert (Hrun : exists results u' w' d' rate,
             processVimeoExport Samples.env Samples.stringify
                                Samples.numberText MoreSamples.inOrder
                                MoreSamples.noJSON MoreSamples.diskWithExport
                                getDefaultFieldMapping 4 "export.csv"
                                MoreSamples.fullRun Samples.fresh [] []
             = (Normal (Processed 3 2 1 results 0 2 rate), u', w', d')).
  { vm_compute. eexists. eexists. eexists. eexists. eexists. reflexivity. }
  destruct Hrun as (results & u' & w' & d' & rate & Hrun).
  exists results, u', w', d', rate. split; [exact Hrun|].
  destruct (processVimeoExport_reports_only_failures
              Samples.env Samples.stringify Samples.numberText
              MoreSamples.inOrder MoreSamples.noJSON
              MoreSamples.diskWithExport getDefaultFieldMapping 4
              "export.csv" MoreSamples.fullRun Samples.fresh u' [] w' [] d'
              3 2 1 0 2 results rate)
    as (_ & _ & Hnone & Hfiles);
    [cbn; lia | lia | exact Hrun |].
  split; [exact Hnone|].
  destruct (Hfiles eq_refl) as (timestamp & ->). reflexivity.
Defined.

End VimeoFacts.

(* ===================================================================== *)
(** * Facts about the readers *)
(* ===================================================================== *)

Module ReaderFacts.
Import JsString Js Runtime JsExpr SalesforceUpdater FsRuntime JsText.
Import SassieIds Vimeo VimeoSpec ExportSpec.
Local Open Scope fs_scope.
Local Open Scope list_scope.

Ltac step_fs := ExporterFacts.step_fs.

Lemma writes_app (a b : Disk) : writes (a ++ b) = writes a ++ writes b.
Proof. apply flat_map_app. Qed.

Lemma indexOf_none (x : string) (l : list string) :
  indexOf x l = None <-> ~ In x l.
Proof.
  induction l as [|y rest IH]; cbn [indexOf In]; [tauto|].
  destruct (String.eqb y x) eqn:E.
  - apply String.eqb_eq in E. split; [discriminate | tauto].
  - apply String.eqb_neq in E.
    destruct (indexOf x rest) as [n|]; cbn [option_map].
    + split; [discriminate|]. intros H. exfalso.
      assert (Hrest : ~ In x rest) by tauto.
      apply IH in Hrest. discriminate Hrest.
    + split; [|reflexivity]. intros _ [H|H]; [congruence|].
      now apply IH in H.
Qed.

Lemma itemsOfLine_ids (JSON_parse : string -> JsError + JsValue)
      (headers : list string) (metadataIndex : nat) (line : string) :
  Forall (fun item => truthy (sassieId item) = true)
         (itemsOfLine JSON_parse headers metadataIndex line) /\
  (length (itemsOfLine JSON_parse headers metadataIndex line) <= 1)%nat.
Proof.
  unfold itemsOfLine, itemsOfValues.
  destruct (nth_error _ _) as [metadataStr|]; [|split; [constructor|cbn; lia]].
  destruct (JSON_parse metadataStr) as [e|metadata];
    [split; [constructor|cbn; lia]|].
  destruct (getMember metadata "sassieId") as [e|id];
    [split; [constructor|cbn; lia]|].
  destruct (truthy id) eqn:Hid; [|split; [constructor|cbn; lia]].
  split; [|cbn; lia]. constructor; [exact Hid|constructor].
Qed.

Lemma flat_map_items (JSON_parse : string -> JsError + JsValue)
      (headers : list string) (metadataIndex : nat) (lines : list string) :
  Forall (fun item => truthy (sassieId item) = true)
         (flat_map (itemsOfLine JSON_parse headers metadataIndex) lines) /\
  (length (flat_map (itemsOfLine JSON_parse headers metadataIndex) lines)
   <= length lines)%nat.
Proof.
  induction lines as [|line rest [IHall IHlen]]; cbn [flat_map length].
  - split; [constructor|lia].
  - destruct (itemsOfLine_ids JSON_parse headers metadataIndex line)
      as [Hall Hlen].
    split; [apply Forall_app; now split|].
    rewrite length_app. lia.
Qed.

(** When [extractSassieIds] returns, the file was read; every item
    returned holds a SASSIE id that is truthy, and there is at most one
    item for each data line.  For a file of fewer than two lines the
    result is empty and nothing is written; otherwise the items are
    written, once, next to the file read. *)
Theorem extractSassieIds_lists_rows_with_an_id
        (JSON_parse : string -> JsError + JsValue)
        (JSON_stringify_items : list SassieItem -> string) (fs : Fs)
        (successfulUpdatesFile : string) (d d' : Disk)
        (items : list SassieItem) :
  extractSassieIds JSON_parse JSON_stringify_items fs successfulUpdatesFile d
  = (Normal items, d') ->
  exists content,
    fs_readFile fs d successfulUpdatesFile = inr content /\
    Forall (fun item => truthy (sassieId item) = true) items /\
    (length items <= length (split lf (trim content)) - 1)%nat /\
    if (length (split lf (trim content)) <? 2)%nat
    then items = [] /\ writes d' = writes d
    else writes d'
         = writes d
           ++ [ (replaceFirst ".csv" "_sassie_ids.json" successfulUpdatesFile,
                 JSON_stringify_items items) ].
Proof.
  unfold extractSassieIds. step_fs.
  destruct (fs_readFile fs d successfulUpdatesFile) as [e|content];
    [intros H; discriminate H|].
  cbv beta iota. exists content. split; [reflexivity|].
  destruct (length (split lf (trim content)) <? 2)%nat eqn:Hshort;
    cbv beta iota in *.
  - injection H as <- <-. split; [constructor|]. split; [cbn; lia|].
    split; [reflexivity|]. rewrite writes_app. cbn. now rewrite app_nil_r.
  - destruct (indexOf "metadata" _) as [metadataIndex|];
      [|discriminate H].
    revert H. step_fs.
    destruct (fs_writeFile fs _ _ _); [intros H; discriminate H|].
    intros H. injection H as <- <-.
    destruct (flat_map_items
                JSON_parse
                (headersOf (hd EmptyString (split lf (trim content))))
                metadataIndex (tl (split lf (trim content))))
      as [Hall Hlen].
    split; [exact Hall|]. split.
    + destruct (split lf (trim content)); cbn [tl length] in *; lia.
    + rewrite !writes_app. cbn. now rewrite app_nil_r.
Qed.

Lemma extractSassieIds_lists_rows_with_an_id_witness :
  exists items d',
    extractSassieIds MoreSamples.parseMetadata MoreSamples.itemsText
                     MoreSamples.diskWithSuccesses
                     "out/sync_successful.csv" []
    = (Normal items, d') /\
    map sassieId items = [VString "S-77"] /\
    map recordId items = [Some "a0X1"] /\
    writes d' = [("out/sync_successful_sassie_ids.json", "[...]")].
Proof.
  assert (Hrun : exists items d',
             extractSassieIds MoreSamples.parseMetadata MoreSamples.itemsText
                              MoreSamples.diskWithSuccesses
                              "out/sync_successful.csv" []
             = (Normal items, d') /\
             map sassieId items = [VString "S-77"] /\
             map recordId items = [Some "a0X1"] /\
             writes d' = [("out/sync_successful_sassie_ids.json", "[...]")]).
  { vm_compute. eexists. eexists. repeat split. }
  destruct Hrun as (items & d' & Hrun & Hids & Hrecords & Hwrites).
  destruct (extractSassieIds_lists_rows_with_an_id
              MoreSamples.parseMetadata MoreSamples.itemsText
              MoreSamples.diskWithSuccesses "out/sync_successful.csv"
              [] d' items Hrun)
    as (content & _ & Hall & _).
  exists items, d'. split; [exact Hrun|].
  split; [exact Hids|]. split; [exact Hrecords | exact Hwrites].
Defined.

(** A file of two lines or more whose first line names no column
    [metadata] makes [extractSassieIds] throw, and nothing is written. *)
Theorem extractSassieIds_needs_the_metadata_column
        (JSON_parse : string -> JsError + JsValue)
        (JSON_stringify_items : list SassieItem -> string) (fs : Fs)
        (successfulUpdatesFile content : string) (d : Disk) :
  fs_readFile fs d successfulUpdatesFile = inr content ->
  (2 <= length (split lf (trim content)))%nat ->
  ~ In "metadata" (headersOf (hd EmptyString (split lf (trim content)))) ->
  extractSassieIds JSON_parse JSON_stringify_items fs successfulUpdatesFile d
  = (Throw noMetadataColumn, d ++ [EvReadFile successfulUpdatesFile]).
Proof.
  intros Hread Hlines Hnone. unfold extractSassieIds. step_fs.
  rewrite Hread. cbv beta iota.
  destruct (length (split lf (trim content)) <? 2)%nat eqn:Hshort.
  { apply Nat.ltb_lt in Hshort. lia. }
  apply indexOf_none in Hnone. now rewrite Hnone.
Qed.

Lemma extractSassieIds_needs_the_metadata_column_witness :
  extractSassieIds MoreSamples.parseMetadata MoreSamples.itemsText
                   MoreSamples.diskWithExport "export.csv" []
  = (Throw noMetadataColumn, [EvReadFile "export.csv"]).
Proof.
  apply (extractSassieIds_needs_the_metadata_column
           MoreSamples.parseMetadata MoreSamples.itemsText
           MoreSamples.diskWithExport "export.csv" MoreSamples.vimeoCSV []).
  - reflexivity.
  - vm_compute. lia.
  - vm_compute. intros [H|[H|[H|[]]]]; discriminate H.
Defined.

(** ** [readCSV] *)

Lemma replace_keys {V : Type} (obj : list (string * V)) (key : string)
      (v : V) :
  map fst (replace obj key v) = map fst obj.
Proof.
  induction obj as [|[k0 old] rest IH]; cbn [replace map fst]; [reflexivity|].
  destruct (String.eqb k0 key) eqn:E; cbn [map fst]; [reflexivity|].
  now rewrite IH.
Qed.

Lemma insertIndex_keys {V : Type} (n : N) (obj : list (string * V))
      (key : string) (v : V) :
  Permutation (map fst (insertIndex n key v obj)) (key :: map fst obj).
Proof.
  induction obj as [|[k0 old] rest IH]; cbn [insertIndex map fst];
    [reflexivity|].
  destruct (arrayIndex k0) as [m|]; [destruct (m <? n)%N|];
    cbn [map fst]; try reflexivity.
  rewrite IH. apply perm_swap.
Qed.

Lemma own_none_keys {V : Type} (obj : list (string * V)) (key : string) :
  own obj key = None <-> ~ In key (map fst obj).
Proof.
  induction obj as [|[k0 old] rest IH]; cbn [own map fst In]; [tauto|].
  destruct (String.eqb k0 key) eqn:E.
  - apply String.eqb_eq in E. split; [discriminate|tauto].
  - apply String.eqb_neq in E. rewrite IH. tauto.
Qed.

(** The keys after an assignment: those of before, and the key assigned
    unless it is [__proto__]. *)
Lemma put_keys {V : Type} (obj : list (string * V)) (key : string) (v : V)
      (k : string) :
  In k (map fst (put obj key v))
  <-> In k (map fst obj) \/ (k = key /\ key <> "__proto__").
Proof.
  unfold put. destruct (own obj key) as [old|] eqn:Hown.
  - rewrite replace_keys. split; [tauto|]. intros [H|[-> _]]; [exact H|].
    destruct (in_dec string_dec key (map fst obj)) as [Hin|Hout];
      [exact Hin|].
    apply own_none_keys in Hout. congruence.
  - destruct (String.eqb key "__proto__") eqn:E.
    + apply String.eqb_eq in E. tauto.
    + apply String.eqb_neq in E. destruct (arrayIndex key) as [n|].
      * split.
        -- intros H. apply (Permutation_in _ (insertIndex_keys n obj key v))
             in H.
           destruct H as [<-|H]; auto.
        -- intros H.
           apply (Permutation_in
                    _ (Permutation_sym (insertIndex_keys n obj key v))).
           cbn [In]. destruct H as [H|[-> _]]; auto.
      * rewrite map_app, in_app_iff. cbn [map fst In]. split.
        -- intros [H|[<-|[]]]; auto.
        -- intros [H|[-> _]]; auto.
Qed.

Lemma put_NoDup {V : Type} (obj : list (string * V)) (key : string)
      (v : V) :
  NoDup (map fst obj) -> NoDup (map fst (put obj key v)).
Proof.
  intros Hnd. unfold put. destruct (own obj key) as [old|] eqn:Hown.
  - now rewrite replace_keys.
  - destruct (String.eqb key "__proto__"); [exact Hnd|].
    apply own_none_keys in Hown.
    assert (Hnew : NoDup (key :: map fst obj)) by now constructor.
    destruct (arrayIndex key) as [n|].
    + apply (Permutation_NoDup
               (Permutation_sym (insertIndex_keys n obj key v)) Hnew).
    + rewrite map_app. cbn [map fst].
      apply (Permutation_NoDup (Permutation_cons_append _ _) Hnew).
Qed.

Lemma recordOf_keys (headers values : list string) :
  forall (index : nat) (record : VimeoRecord),
    NoDup (map fst record) ->
    NoDup (map fst (recordOf headers values index record)) /\
    forall k, In k (map fst (recordOf headers values index record))
              <-> (In k headers /\ k <> "__proto__") \/ In k (map fst record).
Proof.
  induction headers as [|header rest IH]; intros index record Hnd;
    cbn [recordOf].
  - split; [exact Hnd|]. intros k. cbn [In]. tauto.
  - destruct (IH (S index)
                 (put record header (nth index values EmptyString))
                 (put_NoDup _ _ _ Hnd)) as [Hnd' Hkeys].
    split; [exact Hnd'|]. intros k. rewrite Hkeys, put_keys.
    cbn [In]. split.
    + intros [[Hin Hk]|[Hin|[-> Hk]]]; auto.
    + intros [[[<-|Hin] Hk]|Hin]; auto.
Qed.

(** When [readCSV] returns, the file was read and has two lines or more;
    there is one record for each line after the first, and the
    properties of every record are the headers of the first line, each
    once, but for a header [__proto__], which gives no property. *)
Theorem readCSV_one_record_per_line (fs : Fs) (filePath : string)
        (d d' : Disk) (records : list VimeoRecord) :
  readCSV fs filePath d = (Normal records, d') ->
  exists content,
    fs_readFile fs d filePath = inr content /\
    d' = d ++ [EvReadFile filePath] /\
    (2 <= length (split lf (trim content)))%nat /\
    length records = (length (split lf (trim content)) - 1)%nat /\
    Forall (fun record =>
              NoDup (map fst record) /\
              forall k, In k (map fst record)
                        <-> In k (headersOf
                                    (hd EmptyString
                                        (split lf (trim content))))
                            /\ k <> "__proto__")
           records.
Proof.
  unfold readCSV. step_fs.
  destruct (fs_readFile fs d filePath) as [e|content];
    [intros H; discriminate H|].
  cbv beta iota. exists content. split; [reflexivity|].
  destruct (length (split lf (trim content)) <? 2)%nat eqn:Hshort;
    [discriminate H|].
  apply Nat.ltb_ge in Hshort.
  injection H as <- <-. split; [reflexivity|]. split; [exact Hshort|].
  split.
  - rewrite length_map. destruct (split lf (trim content)); cbn; lia.
  - apply Forall_forall. intros record Hin.
    apply in_map_iff in Hin as (line & <- & _).
    destruct (recordOf_keys
                (headersOf (hd EmptyString (split lf (trim content))))
                (CSV.parseCSVLine line) 0 []) as [Hnd Hkeys];
      [constructor|].
    split; [exact Hnd|]. intros k. rewrite Hkeys. cbn [map In]. tauto.
Qed.

(** A header that is an array index comes first among the properties,
    and a header [__proto__] leaves none. *)
Example recordOf_orders_the_keys :
  recordOf ["name"; "__proto__"; "7"; "name"] ["a"; "b"; "c"] 0 []
  = [("7", "c"); ("name", "")].
Proof. reflexivity. Qed.

Lemma readCSV_one_record_per_line_witness :
  exists records d',
    readCSV MoreSamples.diskWithExport "export.csv" []
    = (Normal records, d') /\
    length records = 3%nat /\
    hd [] records = MoreSamples.firstRecord.
Proof.
  assert (Hrun : exists records d',
             readCSV MoreSamples.diskWithExport "export.csv" []
             = (Normal records, d') /\
             hd [] records = MoreSamples.firstRecord).
  { vm_compute. eexists. eexists. split; reflexivity. }
  destruct Hrun as (records & d' & Hrun & Hfirst).
  destruct (readCSV_one_record_per_line
              MoreSamples.diskWithExport "export.csv" [] d' records Hrun)
    as (content & Hread & _ & _ & Hlen & _).
  injection Hread as <-. vm_compute in Hlen.
  exists records, d'. split; [exact Hrun|]. split; [exact Hlen|exact Hfirst].
Defined.

End ReaderFacts.

(* ===================================================================== *)
(** * Facts about the file of successes, written and read back *)
(* ===================================================================== *)

Module PipelineFacts.
Import JsString Js Runtime JsExpr SalesforceUpdater FsRuntime JsText.
Import CSV SassieIds ExportSpec PipelineSpec.
Local Open Scope fs_scope.
Local Open Scope list_scope.

Ltac step_fs := ExporterFacts.step_fs.

(** ** White space at the end of a line *)










(** ** Lines *)











(** ** The rows of the file of successes *)




Section Rows.
Variable JSON_stringify : JsValue -> string.
Variable Number_toString : float -> string.










End Rows.



End PipelineFacts.
